(** * Alpine3D step coordinator (SnowpackInterface.cc): a shallow embedding

    The development follows alpine3d/SnowpackInterface.cc: the registration of
    the points of interest (pair_comparator, prepare_pts), then the grids the
    coordinator owns, the producer setters, the step gate (calcNextStep),
    the grid queries (getGrid) and the special points output
    (write_special_points, writeOutputSpecialPoints, write_SMET). *)

From Stdlib Require Import List Bool Arith ZArith Lia Permutation Sorted.
Import ListNotations.
From Stdlib Require String Ascii OrdersEx.
Import String.StringSyntax.
Delimit Scope string_scope with string.

Set Implicit Arguments.

(** ** Points of interest: pair_comparator and prepare_pts *)

Module Poi.

(** mio::Coords, reduced to the two grid indices prepare_pts reads. They are
    of type int (getGridI, getGridJ). *)
Record Coords := mkCoords { getGridI : Z; getGridJ : Z }.

(** [const size_t ix = vec_pts[ii].getGridI()]: int to size_t, modulo 2^64. *)
Definition size_t_of_int (i : Z) : Z := (i mod 2 ^ 64)%Z.

(** pair_comparator takes std::pair<double,double>, so the size_t indices are
    converted at each call. The value of the resulting double (an integer
    again): exact below 2^53, rounded to 53 significant bits, ties to even,
    above. *)
Definition double_of_size_t (n : Z) : Z :=
  if (n <? 2 ^ 53)%Z then n
  else
    let e := (Z.log2 n - 52)%Z in
    let q := Z.shiftr n e in
    let r := Z.land n (Z.ones e) in
    let half := Z.shiftl 1 (e - 1) in
    let q' := if (half <? r)%Z || ((r =? half)%Z && Z.odd q) then (q + 1)%Z else q in
    Z.shiftl q' e.

Definition as_double_pair (p : Z * Z) : Z * Z :=
  (double_of_size_t (fst p), double_of_size_t (snd p)).

(** sort the by increasing y and increasing x as a second key *)
Definition pair_comparator (l r : Z * Z) : bool :=
  if (snd l =? snd r)%Z then (fst l <? fst r)%Z else (snd l <? snd r)%Z.

(** The comparator as std::sort calls it on two elements of pts. *)
Definition pts_less (l r : Z * Z) : bool :=
  pair_comparator (as_double_pair l) (as_double_pair r).

Definition pair_eqb (a b : Z * Z) : bool :=
  (fst a =? fst b)%Z && (snd a =? snd b)%Z.

(** [std::find(pts.begin(), pts.end(), tmp)]: the position of the first
    element equal to tmp, None for pts.end(). *)
Fixpoint std_find (tmp : Z * Z) (pts : list (Z * Z)) : option nat :=
  match pts with
  | [] => None
  | p :: rest =>
      if pair_eqb p tmp then Some 0
      else match std_find tmp rest with
           | Some k => Some (S k)
           | None => None
           end
  end.

(** std::sort with a comparator, as an insertion sort. std::sort promises
    a sorted permutation and leaves open the order of the entries its
    comparator does not separate; this sort keeps them in the order of
    their insertion. Without such entries the sorted permutation is unique;
    with them only what holds of every sorted permutation is stated of the
    registry. *)
Fixpoint insert_by (less : Z * Z -> Z * Z -> bool) (x : Z * Z) (l : list (Z * Z)) :=
  match l with
  | [] => [x]
  | y :: l' => if less y x then y :: insert_by less x l' else x :: y :: l'
  end.

Fixpoint std_sort (less : Z * Z -> Z * Z -> bool) (l : list (Z * Z)) :=
  match l with
  | [] => []
  | x :: l' => insert_by less x (std_sort less l')
  end.

(** The warning printed for a duplicate: POI #ii is a duplicate of POI
    #orig_idx. *)
Record DuplicateWarning := mkWarning { dup_ii : nat; dup_orig_idx : nat }.

(** The locals of prepare_pts while the loop runs. *)
Record Loop := mkLoop {
  l_pts : list (Z * Z);
  l_vec_idx : list nat;
  l_cout : list DuplicateWarning
}.

(** One iteration of the loop over vec_pts, at index ii. [master] is
    MPIControl::instance().master(). *)
Definition prepare_step (master : bool) (ii : nat) (c : Coords) (st : Loop) : Loop :=
  let ix := size_t_of_int (getGridI c) in
  let iy := size_t_of_int (getGridJ c) in
  let tmp := (ix, iy) in
  match std_find tmp (l_pts st) with
  | Some pos =>
      if master
      then mkLoop (l_pts st) (l_vec_idx st)
                  (l_cout st ++ [mkWarning ii (nth pos (l_vec_idx st) 0)])
      else st
  | None => mkLoop (l_pts st ++ [tmp]) (l_vec_idx st ++ [ii]) (l_cout st)
  end.

Fixpoint prepare_loop (master : bool) (ii : nat) (vec_pts : list Coords) (st : Loop) : Loop :=
  match vec_pts with
  | [] => st
  | c :: rest => prepare_loop master (S ii) rest (prepare_step master ii c st)
  end.

(** prepare_pts: the registry it leaves in pts and the warnings it prints. *)
Definition prepare_pts (master : bool) (vec_pts : list Coords)
  : list (Z * Z) * list DuplicateWarning :=
  let st := prepare_loop master 0 vec_pts (mkLoop [] [] []) in
  (std_sort pts_less (l_pts st), l_cout st).

(** The grid cell a point of interest falls in, as prepare_pts stores it. *)
Definition cell_of (c : Coords) : Z * Z :=
  (size_t_of_int (getGridI c), size_t_of_int (getGridJ c)).

(** Ascending by row (second component), then by column (first component). *)
Definition row_col_lt (a b : Z * Z) : Prop :=
  (snd a < snd b \/ (snd a = snd b /\ fst a < fst b))%Z.

(** A grid index that is a valid int and converts to double exactly. *)
Definition valid_index (i : Z) : Prop := (0 <= i < 2 ^ 31)%Z.

(** Not greater, in the comparator's order. *)
Definition pts_le (a b : Z * Z) : Prop := pts_less b a = false.

(** On valid cells the comparator is the order by row, then by column. *)
Definition valid_cell (p : Z * Z) : Prop := valid_index (fst p) /\ valid_index (snd p).

(** The loop invariant of prepare_pts, after the cells [seen]. *)
Record Inv (master : bool) (seen : list (Z * Z)) (st : Loop) : Prop := mkInv {
  inv_nodup : NoDup (l_pts st);
  inv_same : forall p, In p (l_pts st) <-> In p seen;
  inv_len : length (l_vec_idx st) = length (l_pts st);
  inv_first : forall k, k < length (l_pts st) ->
      let idx := nth k (l_vec_idx st) 0 in
      idx < length seen /\ nth idx seen (0, 0)%Z = nth k (l_pts st) (0, 0)%Z /\
      forall j, j < idx -> nth j seen (0, 0)%Z <> nth k (l_pts st) (0, 0)%Z;
  inv_warn : forall w, In w (l_cout st) ->
      dup_orig_idx w < dup_ii w /\ dup_ii w < length seen /\
      nth (dup_orig_idx w) seen (0, 0)%Z = nth (dup_ii w) seen (0, 0)%Z /\
      forall j, j < dup_orig_idx w -> nth j seen (0, 0)%Z <> nth (dup_ii w) seen (0, 0)%Z;
  inv_count : if master then length (l_pts st) + length (l_cout st) = length seen
              else l_cout st = []
}.

End Poi.

(** ** What MeteoIO provides: scalars, dates, geolocations

    None of these classes is defined in SnowpackInterface.cc; the coordinator
    only copies and compares their values, so they are taken as they come. *)

Class MeteoIO := {
  (** the C++ double: cell values, solarElevation, timeStep *)
  double : Type;
  (** the literal [0.] of [Grid2DObject o_grid2D(dem, 0.)] *)
  zero : double;
  (** mio::Date with its operator!= and operator+ (Date + double) *)
  Date : Type;
  date_neq : Date -> Date -> bool;
  date_plus : Date -> double -> Date;
  (** the geolocation a grid is tagged with (origin and cell size) *)
  Geo : Type;
  geo_eqb : Geo -> Geo -> bool
}.

(** ** Grids *)

Section Grids.
Context {mio : MeteoIO}.

(** mio::Array2D<double>: nx columns, ny rows, cell (x,y) at x + y*nx. *)
Record Array2D := mkArray2D { getNx : nat; getNy : nat; vecData : list double }.

Definition cell (a : Array2D) (x y : nat) : double :=
  nth (x + y * getNx a) (vecData a) zero.

(** An array given by its cells. *)
Definition tabulate (nx ny : nat) (f : nat -> nat -> double) : Array2D :=
  mkArray2D nx ny (map (fun k => f (k mod nx) (k / nx)) (seq 0 (nx * ny))).

Definition array_empty (a : Array2D) : bool := (getNx a =? 0) && (getNy a =? 0).

Definition array_clear : Array2D := mkArray2D 0 0 [].

Definition in_window (start len x : nat) : bool := (start <=? x) && (x <? start + len).

(** Modelled from the spec: Array2D::fill (meteoio/dataClasses/Array2D.h is
    not part of the sources at hand). Section 4.3: splice each slice's
    sub-grid into the full-domain grid at the worker's column offset; the
    cells of the window [i_nx, i_nx+i_ncols) x [i_ny, i_ny+i_nrows) take the
    cells of the sub-grid, every other cell keeps its value. *)
Definition fill (a src : Array2D) (i_nx i_ny i_ncols i_nrows : nat) : Array2D :=
  tabulate (getNx a) (getNy a)
    (fun x y =>
       if in_window i_nx i_ncols x && in_window i_ny i_nrows y
       then cell src (x - i_nx) (y - i_ny)
       else cell a x y).

(** mio::Grid2DObject: the array and its geolocation. A DEMObject is used by
    the coordinator as the Grid2DObject it derives from. *)
Record Grid2DObject := mkGrid { grid2D : Array2D; geoloc : Geo }.

(** [Grid2DObject(dem, init)]: the geolocation and size of dem, every cell
    set to init. *)
Definition grid_like (dem : Grid2DObject) (init : double) : Grid2DObject :=
  mkGrid (tabulate (getNx (grid2D dem)) (getNy (grid2D dem)) (fun _ _ => init))
         (geoloc dem).

Definition grid_empty (g : Grid2DObject) : bool := array_empty (grid2D g).

(** Grid2DObject::clear empties the array and keeps the geolocation. *)
Definition grid_clear (g : Grid2DObject) : Grid2DObject := mkGrid array_clear (geoloc g).

(** [shortwave.grid2D = shortwave_in] *)
Definition set_grid2D (g : Grid2DObject) (a : Array2D) : Grid2DObject := mkGrid a (geoloc g).

(** Modelled from the spec: Grid2DObject::isSameGeolocalization (MeteoIO's
    Grid2DObject.cc is not part of the sources at hand). Section 3: two grids
    must have identical geolocation and dimensions. *)
Definition isSameGeolocalization (g target : Grid2DObject) : bool :=
  (getNx (grid2D g) =? getNx (grid2D target)) &&
  (getNy (grid2D g) =? getNy (grid2D target)) &&
  geo_eqb (geoloc g) (geoloc target).

End Grids.

(** ** SnGrids::Parameters

    The enumeration is declared with the worker; the members below are the
    ones SnowpackInterface.cc names, the others are kept by their index. *)
Inductive Parameters :=
| TA | RH | VW | PSUM | PSUM_PH | ISWR | ILWR
| GLACIER | TSS | HS | SP | RG | N3 | RB | TOP_ALB
| OTHER (idx : nat).

(** The forcing grids, sliced for one worker, as runModel receives them. *)
Record Slices {mio : MeteoIO} := mkSlices {
  tmp_psum : Grid2DObject; tmp_psum_ph : Grid2DObject; tmp_rh : Grid2DObject;
  tmp_ta : Grid2DObject; tmp_vw : Grid2DObject; tmp_mns : Grid2DObject;
  tmp_shortwave : Grid2DObject; tmp_diffuse : Grid2DObject;
  tmp_longwave : Grid2DObject; tmp_solarElevation : double
}.

(** ** The per-cell snow model (external) and the worker slice *)

Class CellModel {mio : MeteoIO} := {
  (** the state of one cell (SnowStation and what the model keeps with it) *)
  Cell : Type;
  (** one step of the model for cell number k of a slice; None when the
      model raises *)
  cell_step : Date -> Slices -> nat -> Cell -> option Cell
}.

Section Worker.
Context {mio : MeteoIO} {cm : CellModel}.

(** A slice owns its cells; a skipped cell (no-data land use, water body)
    holds no model instance. *)
Record SnowpackInterfaceWorker := mkWorker { cells : list (option Cell) }.

(** Modelled from the spec: SnowpackInterfaceWorker::runModel (the worker's
    source is not part of the sources at hand). Section 4.2: for every
    non-skipped cell invoke the per-cell step; a failure in one cell does not
    abort the others, the failures are counted, and the step is a worker-level
    failure only if at least one cell failed. A cell whose step raised keeps
    its state. *)
Fixpoint run_cells (date : Date) (sl : Slices) (k : nat) (cs : list (option Cell))
  : list (option Cell) * nat :=
  match cs with
  | [] => ([], 0)
  | c :: rest =>
      let (rest', n) := run_cells date sl (S k) rest in
      match c with
      | None => (None :: rest', n)
      | Some st =>
          match cell_step date sl k st with
          | Some st' => (Some st' :: rest', n)
          | None => (Some st :: rest', S n)
          end
      end
  end.

(** Modelled from the spec: what runModel leaves behind and whether it
    raised. Section 4.2: the step is a worker-level failure only if at
    least one cell failed; the cells stepped before the call raised stay
    stepped. *)
Definition runModel (date : Date) (sl : Slices) (w : SnowpackInterfaceWorker)
  : SnowpackInterfaceWorker * bool :=
  let (cs, n) := run_cells date sl 0 (cells w) in
  (mkWorker cs, 0 <? n).

End Worker.

(** ** The SMET files of the points of interest: write_SMET_header, write_SMET *)

Section Smet.
Context {mio : MeteoIO}.

(** mio::StationData as write_SMET_header reads it. *)
Record StationData := mkStationData {
  stationName : String.string; stationID : String.string;
  getAltitude : double; getLat : double; getLon : double;
  getEasting : double; getNorthing : double; getEPSG : Z;
  getSlopeAngle : double; getAzimuth : double
}.

(** CurrentMeteo and SurfaceFluxes as write_SMET reads them. *)
Record CurrentMeteo := mkCurrentMeteo {
  met_date : Date; met_ta : double; met_tss : double; met_ts0 : double;
  met_vw : double; met_dw : double; met_vw_max : double; met_iswr : double;
  met_rswr : double; met_ea : double; met_psum : double; met_psum_ph : double;
  met_hs : double; met_rh : double; met_ts : list double
}.
Record SurfaceFluxes := mkSurfaceFluxes { sw_in : double; sw_out : double }.

(** The members of the coordinator the two functions read. *)
Record SmetMembers := mkSmetMembers {
  meteo_outpath : String.string; tz_out : double; useCanopy : bool;
  soil_temp_depth : double; run_user : String.string; computation_date : Date
}.

(** The stream formatting, the file system and the helpers of the other
    libraries (external). [fixed w p v] is a double written right-aligned in
    width w with p decimals, [integer w n] an integer in width w. *)
Record SmetWorld := mkSmetWorld {
  fixed : nat -> nat -> double -> String.string;
  integer : nat -> Z -> String.string;
  toString_ISO : Date -> String.string;
  validFileAndPath : String.string -> bool;
  open_fails : String.string -> bool;
  nodata : double;
  double_neq : double -> double -> bool;
  round_landuse : double -> Z;
  A3D_VERSION : String.string;
  blkBody_Radiation : double -> double -> double;
  (** [hs / cos(slope*Cst::to_rad)] *)
  hs_over_cos : double -> double -> double
}.

Inductive OpenMode := Truncate | Append.

(** What a call does to the file: it throws before opening, it throws on
    opening, or it writes the text and closes. *)
Inductive SmetOutcome :=
| InvalidNameException (filename : String.string)
| AccessException (filename : String.string)
| Written (mode : OpenMode) (filename text : String.string).

Definition endl : String.string := String.String (Ascii.ascii_of_nat 10) String.EmptyString.

(** [a << b << ...] *)
Definition put (parts : list String.string) : String.string := String.concat "" parts.

Definition smet_filename (m : SmetMembers) (meta : StationData) : String.string :=
  put [meteo_outpath m; "/"; stationName meta; ".smet"]%string.

Definition write_SMET_header (w : SmetWorld) (m : SmetMembers)
           (meta : StationData) (landuse_code : double) : SmetOutcome :=
  let filename := smet_filename m meta in
  if negb (validFileAndPath w filename) then InvalidNameException filename
  else if open_fails w filename then AccessException filename
  else Written Truncate filename (put [
    "SMET 1.1 ASCII"; endl;
    "[HEADER]"; endl;
    "station_name = "; stationName meta; endl;
    "station_id   = "; stationID meta; endl;
    "altitude     = "; fixed w 11 1 (getAltitude meta); endl;
    "latitude     = "; fixed w 11 8 (getLat meta); endl;
    "longitude    = "; fixed w 11 8 (getLon meta); endl;
    "easting      = "; fixed w 11 1 (getEasting meta); endl;
    "northing     = "; fixed w 11 1 (getNorthing meta); endl;
    "epsg         = "; integer w 11 (getEPSG meta); endl;
    "slope        = "; fixed w 11 1 (getSlopeAngle meta); endl;
    "azimuth      = "; fixed w 11 1 (getAzimuth meta); endl;
    "landuse      = "; integer w 11 (round_landuse w landuse_code); endl;
    "nodata       = "; fixed w 11 0 (nodata w); endl;
    "tz           = "; fixed w 11 0 (tz_out m); endl;
    "source       = "; "Alpine3D version "; A3D_VERSION w; " run by "; run_user m; endl;
    "creation     = "; toString_ISO w (computation_date m); endl;
    (if useCanopy m
     then put ["comment      = ";
               "ISWR/RSWR are above the canopy, ISWR_can/RSWR_can and PSUM/PSUM_PH are below the canopy";
               endl]
     else "");
    "fields       = timestamp TA TSS TSG VW DW VW_MAX ISWR OSWR ILWR PSUM PSUM_PH HS RH";
    (if double_neq w (soil_temp_depth m) (nodata w) then " TSOIL" else "");
    (if useCanopy m then " ISWR_can RSWR_can" else "");
    endl; "[DATA]"; endl
  ]%string).

(** The values of one data line, in the order they are written. *)
Definition smet_values (w : SmetWorld) (m : SmetMembers) (met : CurrentMeteo)
           (meta : StationData) (surf : SurfaceFluxes) : list String.string :=
  [ toString_ISO w (met_date met);
    fixed w 8 2 (met_ta met);
    fixed w 8 2 (met_tss met);
    fixed w 8 2 (met_ts0 met);
    fixed w 6 1 (met_vw met);
    fixed w 5 0 (met_dw met);
    fixed w 6 1 (met_vw_max met);
    fixed w 6 0 (met_iswr met);
    fixed w 6 0 (met_rswr met);
    fixed w 6 3 (blkBody_Radiation w (met_ea met) (met_ta met));
    fixed w 6 3 (met_psum met);
    fixed w 6 3 (met_psum_ph met);
    fixed w 8 3 (hs_over_cos w (met_hs met) (getSlopeAngle meta));
    fixed w 7 3 (met_rh met) ]
  ++ match met_ts met with
     | [] => []
     | ts0 :: _ => [fixed w 8 2 ts0]
     end
  ++ (if useCanopy m then [fixed w 6 0 (sw_in surf); fixed w 6 0 (sw_out surf)] else []).

(** write_SMET: every value is followed by one blank, the line by a newline. *)
Definition write_SMET (w : SmetWorld) (m : SmetMembers) (met : CurrentMeteo)
           (meta : StationData) (surf : SurfaceFluxes) : SmetOutcome :=
  let filename := smet_filename m meta in
  if negb (validFileAndPath w filename) then InvalidNameException filename
  else if open_fails w filename then AccessException filename
  else Written Append filename
         (put (map (fun v => String.append v " ") (smet_values w m met meta surf)
               ++ [endl])).

End Smet.

(** ** writeOutputSpecialPoints *)

Section SpecialPointsOutput.
Context {mio : MeteoIO}.

(** The members that schedule the time series and the profiles. *)
Record PointSchedule := mkPointSchedule {
  ts_write : bool; ts_start : double; ts_days_between : double;
  prof_write : bool; prof_start : double; prof_days_between : double
}.

(** [date.getJulian()], booleanTime and the two quotients of dt_main, which
    is declared elsewhere: [dt_main/60.] and [dt_main/60] (external). *)
Record ScheduleWorld := mkScheduleWorld {
  getJulian : Date -> double;
  booleanTime : double -> double -> double -> double -> bool;
  dt_main_by_60_point : double;
  dt_main_by_60 : double
}.

(** What is done for the points: the call of write_SMET with how it ends,
    and the calls of the writers of asciiIO (external, taken to return). *)
Inductive PointStep :=
| Smet_line (ii : nat) (outcome : SmetOutcome)
| WriteTimeSeries (ii : nat)
| WriteProfile (date : Date) (ii : nat).

(** The loop over the points from index ii on, and whether it ran to its
    end. The three vectors have one entry per point. *)
Fixpoint points_loop (w : SmetWorld) (m : SmetMembers) (TS PR : bool) (date : Date)
         (ii : nat) (points : list (StationData * CurrentMeteo * SurfaceFluxes))
  : list PointStep * bool :=
  match points with
  | [] => ([], true)
  | (meta, met, surf) :: rest =>
      match write_SMET w m met meta surf with
      | Written mode filename text =>
          let (steps, completed) := points_loop w m TS PR date (S ii) rest in
          (Smet_line ii (Written mode filename text)
             :: (if TS then [WriteTimeSeries ii] else [])
             ++ (if PR then [WriteProfile date ii] else [])
             ++ steps,
           completed)
      | thrown => ([Smet_line ii thrown], false)
      end
  end.

Definition writeOutputSpecialPoints (sw : ScheduleWorld) (w : SmetWorld) (m : SmetMembers)
           (sched : PointSchedule) (date : Date)
           (points : list (StationData * CurrentMeteo * SurfaceFluxes))
  : list PointStep * bool :=
  let TS := ts_write sched
            && booleanTime sw (getJulian sw date) (ts_days_between sched) (ts_start sched)
                           (dt_main_by_60_point sw) in
  let PR := prof_write sched
            && booleanTime sw (getJulian sw date) (prof_days_between sched)
                           (prof_days_between sched) (dt_main_by_60 sw) in
  points_loop w m TS PR date 0 points.

(** The exception of write_SMET that ended the loop, if one did. *)
Fixpoint thrown_in (steps : list PointStep) : option SmetOutcome :=
  match steps with
  | [] => None
  | Smet_line _ (Written _ _ _) :: rest => thrown_in rest
  | Smet_line _ thrown :: _ => Some thrown
  | _ :: rest => thrown_in rest
  end.

End SpecialPointsOutput.

(** ** The collaborators of the coordinator (external)

    The workers' grid queries, MeteoIO's grid slicing and arithmetic, the MPI
    layer, the glaciers module and the output schedule. *)

Class Collaborators {mio : MeteoIO} {cm : CellModel} := {
  (** [workers[ii]->getGrid(param)]: empty when the parameter was not computed *)
  worker_getGrid : SnowpackInterfaceWorker -> Parameters -> Grid2DObject;
  (** [Grid2DObject(src, startx, starty, ncols, nrows)]: the sub-grid *)
  subgrid : Grid2DObject -> nat -> nat -> nat -> nat -> Grid2DObject;
  (** [grid *= maskGlacier] *)
  grid_times : Grid2DObject -> Grid2DObject -> Grid2DObject;
  (** MPIControl::instance() *)
  mpi_master : bool;
  mpi_size : nat;
  mpi_rank : nat;
  mpi_master_rank : nat;
  allreduce_sum : Grid2DObject -> Grid2DObject;
  (** the Glaciers object *)
  Glaciers : Type;
  setGlacierMap : Grid2DObject -> Glaciers -> Glaciers;
  correctTemperatures : Glaciers -> Grid2DObject -> Grid2DObject -> Grid2DObject -> Grid2DObject;
  (** [booleanTime(date.getJulian(), grids_days_between, grids_start, dt_main/60.)] *)
  booleanTime_grids : Date -> bool;
  (** the streams and the file system of write_SMET, and what
      writeOutputSpecialPoints takes from elsewhere *)
  smet_world : SmetWorld;
  schedule_world : ScheduleWorld;
  (** [workers[ii]->getOutputSpecialPoints(snow_pixel, meteo_pixel, surface_flux)]:
      the points the worker appends to the three vectors *)
  getOutputSpecialPoints :
    SnowpackInterfaceWorker -> list (StationData * CurrentMeteo * SurfaceFluxes);
  (** [mpicontrol.receive(..., ii)], three times: the points of process ii *)
  mpi_receive_points : Date -> nat -> list (StationData * CurrentMeteo * SurfaceFluxes)
}.

(** ** The coordinator *)

Section Coordinator.
Context {mio : MeteoIO} {cm : CellModel} {ext : Collaborators}.

(** The four readiness flags. *)
Record Flags := mkFlags {
  dataMeteo2D : bool; dataDa : bool; dataSnowDrift : bool; dataRadiation : bool
}.

(** The forcing grids the coordinator stores. *)
Record Forcing := mkForcing {
  mns : Grid2DObject; shortwave : Grid2DObject; longwave : Grid2DObject;
  diffuse : Grid2DObject; psum : Grid2DObject; psum_ph : Grid2DObject;
  vw : Grid2DObject; rh : Grid2DObject; ta : Grid2DObject;
  solarElevation : double
}.

(** The members fixed by the constructor and by the attachment of the other
    modules. A module pointer is modelled by whether it is set. *)
Record Setup := mkSetup {
  dimx : nat; dimy : nat; dem : Grid2DObject;
  output_grids : list Parameters;
  worker_startx : list nat; worker_deltax : list nat;
  timeStep : double;
  drift : bool; eb : bool; da : bool; runoff : bool;
  mask_glaciers : bool; mask_dynamic : bool; glacier_katabatic_flow : bool;
  do_io_locally : bool; grids_write : bool; snow_write : bool;
  pts : list (Z * Z);
  smet_members : SmetMembers; point_schedule : PointSchedule
}.

(** The SnowpackInterface object. Every slot of [workers] holds a worker (the
    constructor builds one for each slice that has at least one column). *)
Record SnowpackInterface := mkInterface {
  setup : Setup;
  forcing : Forcing;
  flags : Flags;
  workers : list SnowpackInterfaceWorker;
  nextStepTimestamp : Date;
  maskGlacier : Grid2DObject;
  glaciers : Glaciers;
  snow_poi_written : bool
}.

Definition with_forcing (f : Forcing) (s : SnowpackInterface) :=
  mkInterface (setup s) f (flags s) (workers s) (nextStepTimestamp s)
              (maskGlacier s) (glaciers s) (snow_poi_written s).
Definition with_flags (f : Flags) (s : SnowpackInterface) :=
  mkInterface (setup s) (forcing s) f (workers s) (nextStepTimestamp s)
              (maskGlacier s) (glaciers s) (snow_poi_written s).
Definition with_workers (w : list SnowpackInterfaceWorker) (s : SnowpackInterface) :=
  mkInterface (setup s) (forcing s) (flags s) w (nextStepTimestamp s)
              (maskGlacier s) (glaciers s) (snow_poi_written s).
Definition with_nextStepTimestamp (d : Date) (s : SnowpackInterface) :=
  mkInterface (setup s) (forcing s) (flags s) (workers s) d
              (maskGlacier s) (glaciers s) (snow_poi_written s).
Definition with_maskGlacier (g : Grid2DObject) (s : SnowpackInterface) :=
  mkInterface (setup s) (forcing s) (flags s) (workers s) (nextStepTimestamp s)
              g (glaciers s) (snow_poi_written s).
Definition with_glaciers (g : Glaciers) (s : SnowpackInterface) :=
  mkInterface (setup s) (forcing s) (flags s) (workers s) (nextStepTimestamp s)
              (maskGlacier s) g (snow_poi_written s).
Definition with_snow_poi_written (b : bool) (s : SnowpackInterface) :=
  mkInterface (setup s) (forcing s) (flags s) (workers s) (nextStepTimestamp s)
              (maskGlacier s) (glaciers s) b.

(** The producers, for the messages that name them. *)
Inductive Producer := Meteo | Radiation | SnowDrift | Assimilation.

(** What the coordinator does to the world outside: the streams, the timer,
    the calls into the workers and the other modules, the files, MPI
    messages, and the end of the process. *)
Inductive Event :=
| Cerr_providing (who : Producer) (timestamp next : Date)
| Cerr_not_available (param : Parameters)
| Cout_updating_state
| Cout_exception (ii : nat)
| Cout_step_done (date : Date)
| Timer_restart
| Timer_stop
| Worker_getGrid (ii : nat) (param : Parameters)
| Worker_runModel (ii : nat) (date : Date)
| Worker_getOutputSpecialPoints (ii : nat)
| Worker_clearSpecialPointsData (ii : nat)
| WriteOutputSpecialPoints (date : Date) (process : nat)
| WriteSnowCover (date : Date) (process : nat)
| Mpi_receive (from : nat)
| Mpi_send (to : nat)
| Drift_setSnowSurfaceData (cH sp rg N3 rb : Grid2DObject)
| Eb_setAlbedo (alb : Grid2DObject)
| Io_write2DGrid (grid : Grid2DObject) (param : Parameters) (date : Date)
| Runoff_output (date : Date) (psum ta : Grid2DObject)
| Std_abort.

(** The exceptions that leave the coordinator. [FileException thrown] is the
    InvalidNameException or the AccessException of write_SMET. *)
Inductive Exception :=
| InvalidArgumentException (who : Producer)
| IndexOutOfBoundsException
| NoDataException
| FileException (thrown : SmetOutcome).

(** The coordinator and the events so far. *)
Record State := mkState { self : SnowpackInterface; trace : list Event }.

(** How a call ends: it returns, it throws, or the process is aborted. *)
Inductive Outcome (A : Type) :=
| Returned (a : A) (st : State)
| Thrown (e : Exception) (st : State)
| Aborted (st : State).
Arguments Returned {A} a st.
Arguments Thrown {A} e st.
Arguments Aborted {A} st.

(** The state a call leaves behind, however it ends. *)
Definition final {A} (o : Outcome A) : State :=
  match o with
  | Returned _ st => st
  | Thrown _ st => st
  | Aborted st => st
  end.

Definition M (A : Type) := State -> Outcome A.

Definition ret {A} (a : A) : M A := fun st => Returned a st.
Definition bind {A B} (m : M A) (k : A -> M B) : M B :=
  fun st => match m st with
            | Returned a st' => k a st'
            | Thrown e st' => Thrown e st'
            | Aborted st' => Aborted st'
            end.
Definition throw {A} (e : Exception) : M A := fun st => Thrown e st.
Definition this : M SnowpackInterface := fun st => Returned (self st) st.
Definition modify (f : SnowpackInterface -> SnowpackInterface) : M unit :=
  fun st => Returned tt (mkState (f (self st)) (trace st)).
Definition emit_all (evs : list Event) : M unit :=
  fun st => Returned tt (mkState (self st) (trace st ++ evs)).
Definition emit (ev : Event) : M unit := emit_all [ev].
Definition std_abort {A} : M A :=
  fun st => Aborted (mkState (self st) (trace st ++ [Std_abort])).
Definition when (b : bool) (m : M unit) : M unit := if b then m else ret tt.

Fixpoint for_each {A} (body : A -> M unit) (l : list A) : M unit :=
  match l with
  | [] => ret tt
  | a :: rest => bind (body a) (fun _ => for_each body rest)
  end.

End Coordinator.

Declare Scope coord_scope.
Delimit Scope coord_scope with coord.
Notation "x <- m ;; k" := (bind m (fun x => k))
  (at level 61, m at next level, right associativity) : coord_scope.
Notation "m ;; k" := (bind m (fun _ => k))
  (at level 61, right associativity) : coord_scope.

Arguments Returned {mio cm ext A} a st.
Arguments Thrown {mio cm ext A} e st.
Arguments Aborted {mio cm ext A} st.

Section Operations.
Context {mio : MeteoIO} {cm : CellModel} {ext : Collaborators}.
Local Open Scope coord_scope.

(** *** getGrid *)

(** The loop of getGrid over the workers, from index ii on: the grid being
    assembled and errCount. The iterations write disjoint columns; they are
    taken in ascending order. *)
Fixpoint gather (su : Setup) (param : Parameters) (ii : nat)
         (ws : list SnowpackInterfaceWorker) (o_grid2D : Grid2DObject) (errCount : nat)
  : Grid2DObject * nat :=
  match ws with
  | [] => (o_grid2D, errCount)
  | w :: rest =>
      let tmp := worker_getGrid w param in
      if negb (grid_empty tmp)
      then gather su param (S ii) rest
             (set_grid2D o_grid2D
                (fill (grid2D o_grid2D) (grid2D tmp)
                      (nth ii (worker_startx su) 0) 0
                      (nth ii (worker_deltax su) 0) (dimy su)))
             errCount
      else gather su param (S ii) rest o_grid2D (S errCount)
  end.

Definition getGrid (param : Parameters) : M Grid2DObject :=
  s <- this ;;
  match param with
  | TA => ret (ta (forcing s))
  | RH => ret (rh (forcing s))
  | VW => ret (vw (forcing s))
  | PSUM => ret (psum (forcing s))
  | PSUM_PH => ret (psum_ph (forcing s))
  | ISWR => ret (shortwave (forcing s))
  | ILWR => ret (longwave (forcing s))
  | _ =>
      emit_all (map (fun ii => Worker_getGrid ii param) (seq 0 (length (workers s)))) ;;
      let (o_grid2D, errCount) :=
        gather (setup s) param 0 (workers s) (grid_like (dem (setup s)) zero) 0 in
      let o_grid2D := allreduce_sum o_grid2D in
      if 0 <? errCount
      then emit (Cerr_not_available param) ;; ret (grid_clear o_grid2D)
      else ret o_grid2D
  end.

(** *** write_special_points *)

Definition poi_snow_cover (date : Date) (process : nat) : M unit :=
  s <- this ;;
  when (negb (snow_write (setup s)) && negb (snow_poi_written s))
       (emit (WriteSnowCover date process)).

(** The call of writeOutputSpecialPoints for the points of a process. The
    exception write_SMET throws for one of them leaves the call: nothing
    catches it up to the producer setter. *)
Definition call_writeOutputSpecialPoints (date : Date) (process : nat)
           (points : list (StationData * CurrentMeteo * SurfaceFluxes)) : M unit :=
  s <- this ;;
  emit (WriteOutputSpecialPoints date process) ;;
  match thrown_in (fst (writeOutputSpecialPoints schedule_world smet_world
                          (smet_members (setup s)) (point_schedule (setup s))
                          date points)) with
  | Some thrown => throw (FileException thrown)
  | None => ret tt
  end.

Definition write_special_points : M unit :=
  s <- this ;;
  let date := nextStepTimestamp s in
  let all := seq 0 (length (workers s)) in
  emit_all (map Worker_getOutputSpecialPoints all) ;;
  let points := flat_map getOutputSpecialPoints (workers s) in
  (if do_io_locally (setup s) then
     call_writeOutputSpecialPoints date mpi_rank points ;;
     when (negb (snow_write (setup s)) && negb (snow_poi_written s))
          (emit (WriteSnowCover date mpi_rank) ;;
           modify (with_snow_poi_written true))
   else if mpi_master then
     call_writeOutputSpecialPoints date mpi_rank points ;;
     poi_snow_cover date mpi_rank ;;
     for_each (fun ii =>
                 if ii =? mpi_master_rank then ret tt
                 else emit_all [Mpi_receive ii; Mpi_receive ii; Mpi_receive ii] ;;
                      call_writeOutputSpecialPoints date ii (mpi_receive_points date ii) ;;
                      poi_snow_cover date ii)
              (seq 0 mpi_size) ;;
     modify (with_snow_poi_written true)
   else
     emit_all [Mpi_send mpi_master_rank; Mpi_send mpi_master_rank;
               Mpi_send mpi_master_rank]) ;;
  emit_all (map Worker_clearSpecialPointsData all).

(** *** writeOutput *)

Definition do_grid_output (s : SnowpackInterface) (date : Date) : bool :=
  grids_write (setup s) && booleanTime_grids date.

Definition writeOutput (date : Date) : M unit :=
  s <- this ;;
  when (do_grid_output s date)
       (for_each (fun param =>
                    grid <- getGrid param ;;
                    when mpi_master
                         (let grid := if mask_glaciers (setup s)
                                      then grid_times grid (maskGlacier s) else grid in
                          emit (Io_write2DGrid grid param date)))
                 (output_grids (setup s))) ;;
  when mpi_master
       (when (runoff (setup s))
             (emit (Runoff_output date (psum (forcing s)) (ta (forcing s))))).

(** *** calcNextStep *)

(** The slices of the forcing grids for worker ii. *)
Definition make_slices (s : SnowpackInterface) (ii : nat) : Slices :=
  let f := forcing s in
  let cut g := subgrid g (nth ii (worker_startx (setup s)) 0) 0
                       (nth ii (worker_deltax (setup s)) 0) (dimy (setup s)) in
  mkSlices (cut (psum f)) (cut (psum_ph f)) (cut (rh f)) (cut (ta f)) (cut (vw f))
           (cut (mns f)) (cut (shortwave f)) (cut (diffuse f)) (cut (longwave f))
           (solarElevation f).

(** The loop of calcNextStep over the workers, from index ii on: the workers
    after their runModel, errCount, and what the loop prints. An exception of
    runModel is caught inside the iteration. The iterations are independent;
    they are taken in ascending order. *)
Fixpoint run_workers (s : SnowpackInterface) (ii : nat) (ws : list SnowpackInterfaceWorker)
  : list SnowpackInterfaceWorker * nat * list Event :=
  match ws with
  | [] => ([], 0, [])
  | w :: rest =>
      let '(w', raised) := runModel (nextStepTimestamp s) (make_slices s ii) w in
      let '(rest', errCount, evs) := run_workers s (S ii) rest in
      (w' :: rest',
       (if raised then S errCount else errCount),
       Worker_runModel ii (nextStepTimestamp s)
         :: (if raised then [Cout_exception ii] else []) ++ evs)
  end.

Definition clear_flags : Flags := mkFlags false false false false.

(** calcNextStep from [timer.restart()] to its end: the step itself. *)
Definition run_step : M unit :=
  emit Timer_restart ;;
  s <- this ;;
  let '(ws, errCount, evs) := run_workers s 0 (workers s) in
  modify (with_workers ws) ;;
  emit_all evs ;;
  when (negb (match pts (setup s) with [] => true | _ => false end))
       write_special_points ;;
  (if 0 <? errCount then std_abort else ret tt) ;;
  when (drift (setup s))
       (cH <- getGrid HS ;; sp <- getGrid SP ;; rg <- getGrid RG ;;
        n3 <- getGrid N3 ;; rb <- getGrid RB ;;
        emit (Drift_setSnowSurfaceData cH sp rg n3 rb)) ;;
  when (eb (setup s))
       (alb <- getGrid TOP_ALB ;; emit (Eb_setAlbedo alb)) ;;
  s' <- this ;;
  writeOutput (nextStepTimestamp s') ;;
  emit Timer_stop ;;
  when mpi_master (emit (Cout_step_done (nextStepTimestamp s'))) ;;
  modify (with_nextStepTimestamp (date_plus (nextStepTimestamp s') (timeStep (setup s')))).

Definition calcNextStep : M unit :=
  s <- this ;;
  if negb (dataMeteo2D (flags s)) then ret tt
  else if drift (setup s) && negb (dataSnowDrift (flags s)) then ret tt
  else if da (setup s) && negb (dataDa (flags s)) then ret tt
  else if eb (setup s) && negb (dataRadiation (flags s)) then ret tt
  else if negb (dataRadiation (flags s)) then throw NoDataException
  else modify (with_flags clear_flags) ;; run_step.

(** *** The producer setters *)

Definition set_flag_meteo (f : Flags) :=
  mkFlags true (dataDa f) (dataSnowDrift f) (dataRadiation f).
Definition set_flag_da (f : Flags) :=
  mkFlags (dataMeteo2D f) true (dataSnowDrift f) (dataRadiation f).
Definition set_flag_drift (f : Flags) :=
  mkFlags (dataMeteo2D f) (dataDa f) true (dataRadiation f).
Definition set_flag_radiation (f : Flags) :=
  mkFlags (dataMeteo2D f) (dataDa f) (dataSnowDrift f) true.

Definition assimilate (daData : Grid2DObject) (timestamp : Date) : M unit :=
  s <- this ;;
  if date_neq (nextStepTimestamp s) timestamp
  then throw (InvalidArgumentException Assimilation)
  else
    emit Cout_updating_state ;;
    modify (fun s => with_flags (set_flag_da (flags s)) s) ;;
    calcNextStep.

Definition setSnowMassChange (new_mns : Grid2DObject) (timestamp : Date) : M unit :=
  s <- this ;;
  if date_neq (nextStepTimestamp s) timestamp
  then
    when mpi_master (emit (Cerr_providing SnowDrift timestamp (nextStepTimestamp s))) ;;
    throw (InvalidArgumentException SnowDrift)
  else if negb (isSameGeolocalization new_mns (dem (setup s)))
  then throw IndexOutOfBoundsException
  else
    modify (fun s =>
      let f := forcing s in
      with_forcing (mkForcing new_mns (shortwave f) (longwave f) (diffuse f) (psum f)
                              (psum_ph f) (vw f) (rh f) (ta f) (solarElevation f)) s) ;;
    modify (fun s => with_flags (set_flag_drift (flags s)) s) ;;
    calcNextStep.

Definition store_ta (new_ta : Grid2DObject) (s : SnowpackInterface) :=
  let f := forcing s in
  with_forcing (mkForcing (mns f) (shortwave f) (longwave f) (diffuse f) (psum f)
                          (psum_ph f) (vw f) (rh f) new_ta (solarElevation f)) s.

Definition setMeteo (new_psum new_psum_ph new_vw new_rh new_ta : Grid2DObject)
           (timestamp : Date) : M unit :=
  s <- this ;;
  if date_neq (nextStepTimestamp s) timestamp
  then
    when mpi_master (emit (Cerr_providing Meteo timestamp (nextStepTimestamp s))) ;;
    throw (InvalidArgumentException Meteo)
  else
    modify (fun s =>
      let f := forcing s in
      with_forcing (mkForcing (mns f) (shortwave f) (longwave f) (diffuse f) new_psum
                              new_psum_ph new_vw new_rh (ta f) (solarElevation f)) s) ;;
    when (mask_dynamic (setup s))
         (g <- getGrid GLACIER ;; modify (with_maskGlacier g)) ;;
    (if negb (glacier_katabatic_flow (setup s))
     then modify (store_ta new_ta)
     else
       when (mask_dynamic (setup s))
            (modify (fun s => with_glaciers (setGlacierMap (maskGlacier s) (glaciers s)) s)) ;;
       tss <- getGrid TSS ;;
       cH <- getGrid HS ;;
       modify (fun s => store_ta (correctTemperatures (glaciers s) cH tss new_ta) s)) ;;
    modify (fun s => with_flags (set_flag_meteo (flags s)) s) ;;
    calcNextStep.

Definition setRadiationComponents (shortwave_in longwave_in diff_in : Array2D)
           (solarElevation_in : double) (timestamp : Date) : M unit :=
  s <- this ;;
  if date_neq (nextStepTimestamp s) timestamp
  then
    when mpi_master (emit (Cerr_providing Radiation timestamp (nextStepTimestamp s))) ;;
    throw (InvalidArgumentException Radiation)
  else
    modify (fun s =>
      let f := forcing s in
      with_forcing (mkForcing (mns f) (set_grid2D (shortwave f) shortwave_in)
                              (set_grid2D (longwave f) longwave_in)
                              (set_grid2D (diffuse f) diff_in) (psum f)
                              (psum_ph f) (vw f) (rh f) (ta f) solarElevation_in) s) ;;
    modify (fun s => with_flags (set_flag_radiation (flags s)) s) ;;
    calcNextStep.

End Operations.

(** ** The vocabulary of the properties

    What a call keeps and emits, the phases of a step, the histories of
    calls. *)

Section Vocabulary.
Context {mio : MeteoIO} {cm : CellModel} {ext : Collaborators}.
Local Open Scope coord_scope.

(** [keeps proj P m]: the call m returns, leaves [proj] of the coordinator as
    it was, and appends to the trace only events that satisfy P. *)
Definition keeps {A X} (proj : SnowpackInterface -> X) (P : Event -> Prop) (m : M A) : Prop :=
  forall st, exists a s' evs,
    m st = Returned a (mkState s' (trace st ++ evs)) /\
    proj s' = proj (self st) /\ Forall P evs.

(** [ends proj P m]: the call m returns or throws; either way it leaves
    [proj] of the coordinator as it was and appends to the trace only
    events that satisfy P. *)
Definition ends {A X} (proj : SnowpackInterface -> X) (P : Event -> Prop) (m : M A) : Prop :=
  forall st, exists s' evs,
    proj s' = proj (self st) /\ Forall P evs /\
    ((exists a, m st = Returned a (mkState s' (trace st ++ evs))) \/
     (exists e, m st = Thrown e (mkState s' (trace st ++ evs)))).

(** What a grid query may emit. *)
Definition is_query (ev : Event) : Prop :=
  match ev with
  | Worker_getGrid _ _ | Cerr_not_available _ => True
  | _ => False
  end.

(** Whether getGrid answers from the coordinator's own storage. *)
Definition is_forcing_parameter (param : Parameters) : bool :=
  match param with
  | TA | RH | VW | PSUM | PSUM_PH | ISWR | ILWR => true
  | _ => false
  end.

(** The grid getGrid answers with for a forcing parameter. *)
Definition stored (param : Parameters) (f : Forcing) : Grid2DObject :=
  match param with
  | TA => ta f | RH => rh f | VW => vw f | PSUM => psum f | PSUM_PH => psum_ph f
  | ISWR => shortwave f | _ => longwave f
  end.

(** The columns of worker ii. *)
Definition owns (su : Setup) (ii x : nat) : bool :=
  in_window (nth ii (worker_startx su) 0) (nth ii (worker_deltax su) 0) x.

(** The queries getGrid sends to the workers. *)
Definition queries (s : SnowpackInterface) (param : Parameters) : list Event :=
  map (fun ii => Worker_getGrid ii param) (seq 0 (length (workers s))).

(** What a setter logs before it rejects a timestamp. *)
Definition timing_log (who : Producer) (timestamp next : Date) : list Event :=
  if mpi_master then [Cerr_providing who timestamp next] else [].

(** Every collaborator that is attached has raised its flag. *)
Definition attached_ready (s : SnowpackInterface) : Prop :=
  (drift (setup s) = true -> dataSnowDrift (flags s) = true) /\
  (da (setup s) = true -> dataDa (flags s) = true) /\
  (eb (setup s) = true -> dataRadiation (flags s) = true).

(** What write_special_points may emit. *)
Definition is_poi_output (ev : Event) : Prop :=
  match ev with
  | Worker_getOutputSpecialPoints _ | Worker_clearSpecialPointsData _
  | WriteOutputSpecialPoints _ _ | WriteSnowCover _ _
  | Mpi_receive _ | Mpi_send _ => True
  | _ => False
  end.

(** What the step may emit once the per-cell failures have been checked. *)
Definition is_publication (ev : Event) : Prop :=
  match ev with
  | Worker_getGrid _ _ | Cerr_not_available _
  | Drift_setSnowSurfaceData _ _ _ _ _ | Eb_setAlbedo _
  | Io_write2DGrid _ _ _ | Runoff_output _ _ _
  | Timer_stop | Cout_step_done _ => True
  | _ => False
  end.

(** Everything of the coordinator but snow_poi_written. *)
Definition but_poi_written (s : SnowpackInterface) : SnowpackInterface :=
  with_snow_poi_written false s.

(** The workers loop. *)
Definition is_run_event (ev : Event) : Prop :=
  match ev with
  | Worker_runModel _ _ | Cout_exception _ => True
  | _ => False
  end.

(** The calls of runModel the loop makes, one per worker. *)
Definition is_runModel (ev : Event) : bool :=
  match ev with Worker_runModel _ _ => true | _ => false end.

(** The special points output of the step, skipped when no point is
    registered. *)
Definition poi_phase (s : SnowpackInterface) : M unit :=
  when (negb (match pts (setup s) with [] => true | _ => false end)) write_special_points.

(** The coordinator and the trace when the workers loop is over. *)
Definition after_workers (st : State) : State :=
  let s := self st in
  let r := run_workers s 0 (workers s) in
  mkState (with_workers (fst (fst r)) s) ((trace st ++ [Timer_restart]) ++ snd r).

Definition advance (s : SnowpackInterface) : SnowpackInterface :=
  with_nextStepTimestamp (date_plus (nextStepTimestamp s) (timeStep (setup s))) s.

(** The gate of calcNextStep: the meteo flag and the flag of every attached
    module. *)
Definition gate_open (s : SnowpackInterface) : bool :=
  dataMeteo2D (flags s)
  && (negb (drift (setup s)) || dataSnowDrift (flags s))
  && (negb (da (setup s)) || dataDa (flags s))
  && (negb (eb (setup s)) || dataRadiation (flags s)).

(** The coordinator when the step starts: the flags are down. *)
Definition flags_cleared (st : State) : State :=
  mkState (with_flags clear_flags (self st)) (trace st).

(** The radiation fields as setRadiationComponents stores them. *)
Definition store_radiation (shortwave_in longwave_in diff_in : Array2D)
           (solarElevation_in : double) (f : Forcing) : Forcing :=
  mkForcing (mns f) (set_grid2D (shortwave f) shortwave_in)
            (set_grid2D (longwave f) longwave_in) (set_grid2D (diffuse f) diff_in)
            (psum f) (psum_ph f) (vw f) (rh f) (ta f) solarElevation_in.

Definition store_mns (new_mns : Grid2DObject) (f : Forcing) : Forcing :=
  mkForcing new_mns (shortwave f) (longwave f) (diffuse f) (psum f) (psum_ph f)
            (vw f) (rh f) (ta f) (solarElevation f).




(** Whether a snow cover file of the special points is still to be written. *)
Definition sno_due (s : SnowpackInterface) : bool :=
  negb (snow_write (setup s)) && negb (snow_poi_written s).

(** The processes whose special points this process writes. *)
Definition special_point_processes (s : SnowpackInterface) : list nat :=
  if do_io_locally (setup s) then [mpi_rank]
  else if mpi_master
       then mpi_rank :: filter (fun ii => negb (ii =? mpi_master_rank)) (seq 0 mpi_size)
       else [].

(** Their points as this process holds them: its own as its workers hand
    them over, those of the other ranks as the master receives them. *)
Definition point_batches (s : SnowpackInterface)
  : list (nat * list (StationData * CurrentMeteo * SurfaceFluxes)) :=
  let own := (mpi_rank, flat_map getOutputSpecialPoints (workers s)) in
  if do_io_locally (setup s) then [own]
  else if mpi_master
       then own :: map (fun ii => (ii, mpi_receive_points (nextStepTimestamp s) ii))
                       (filter (fun ii => negb (ii =? mpi_master_rank)) (seq 0 mpi_size))
       else [].

(** The exception that ends writeOutputSpecialPoints on the given points,
    if one does. *)
Definition points_exception (su : Setup) (date : Date)
           (points : list (StationData * CurrentMeteo * SurfaceFluxes)) : option SmetOutcome :=
  thrown_in (fst (writeOutputSpecialPoints schedule_world smet_world
                    (smet_members su) (point_schedule su) date points)).

(** What is done for the given processes, one after the other, until
    writeOutputSpecialPoints throws for one of them: the points of another
    rank are received first, the snow cover file follows the SMET lines
    when it is due. *)
Fixpoint batches_events (s : SnowpackInterface) (own : bool)
         (batches : list (nat * list (StationData * CurrentMeteo * SurfaceFluxes)))
  : list Event * option SmetOutcome :=
  match batches with
  | [] => ([], None)
  | (process, points) :: rest =>
      let date := nextStepTimestamp s in
      let call := (if own then []
                   else [Mpi_receive process; Mpi_receive process; Mpi_receive process])
                  ++ [WriteOutputSpecialPoints date process] in
      match points_exception (setup s) date points with
      | Some thrown => (call, Some thrown)
      | None =>
          let (evs, failure) := batches_events s false rest in
          (call ++ (if sno_due s then [WriteSnowCover date process] else []) ++ evs, failure)
      end
  end.

(** What write_special_points does between asking the workers for their
    points and clearing them, and the exception that ends it, if one does. *)
Definition special_points_run (s : SnowpackInterface) : list Event * option SmetOutcome :=
  if do_io_locally (setup s) || mpi_master
  then batches_events s true (point_batches s)
  else ([Mpi_send mpi_master_rank; Mpi_send mpi_master_rank; Mpi_send mpi_master_rank], None).

Definition after_special_points (s : SnowpackInterface) : SnowpackInterface :=
  if do_io_locally (setup s)
  then if sno_due s then with_snow_poi_written true s else s
  else if mpi_master then with_snow_poi_written true s else s.

(** What write_SMET throws. *)
Definition is_smet_exception (thrown : SmetOutcome) : Prop :=
  match thrown with
  | InvalidNameException _ | AccessException _ => True
  | Written _ _ _ => False
  end.

(** The special points output that ran to its end: every worker hands over
    its points, in ascending order; the points are written (or sent to the
    master process); every worker clears its buffers. *)
Definition poi_written (s : SnowpackInterface) (evs : list Event) : Prop :=
  let all := seq 0 (length (workers s)) in
  exists middle,
    evs = map Worker_getOutputSpecialPoints all ++ middle
            ++ map Worker_clearSpecialPointsData all /\
    if do_io_locally (setup s) || mpi_master
    then exists rest, middle = WriteOutputSpecialPoints (nextStepTimestamp s) mpi_rank :: rest
    else middle = [Mpi_send mpi_master_rank; Mpi_send mpi_master_rank;
                   Mpi_send mpi_master_rank].

(** The special points output that an exception of write_SMET ended: every
    worker has handed over its points, the call of writeOutputSpecialPoints
    that threw is the last thing done, and no worker has cleared its
    buffers. *)
Definition poi_interrupted (s : SnowpackInterface) (evs : list Event) : Prop :=
  let all := seq 0 (length (workers s)) in
  exists middle process,
    evs = map Worker_getOutputSpecialPoints all ++ middle
            ++ [WriteOutputSpecialPoints (nextStepTimestamp s) process] /\
    forall ii, ~ In (Worker_clearSpecialPointsData ii) evs.

(** The steps started so far: calcNextStep restarts the timer when, and only
    when, it goes on to run the workers. *)
Definition is_Timer_restart (ev : Event) : bool :=
  match ev with Timer_restart => true | _ => false end.

Definition steps_started (tr : list Event) : nat := length (filter is_Timer_restart tr).

(** The calls a producer can make. *)
Inductive Call :=
| Call_setMeteo (new_psum new_psum_ph new_vw new_rh new_ta : Grid2DObject) (timestamp : Date)
| Call_setRadiationComponents (shortwave_in longwave_in diff_in : Array2D)
                              (solarElevation_in : double) (timestamp : Date)
| Call_setSnowMassChange (new_mns : Grid2DObject) (timestamp : Date)
| Call_assimilate (daData : Grid2DObject) (timestamp : Date).

Definition perform (c : Call) : M unit :=
  match c with
  | Call_setMeteo a b c d e t => setMeteo a b c d e t
  | Call_setRadiationComponents a b c d t => setRadiationComponents a b c d t
  | Call_setSnowMassChange a t => setSnowMassChange a t
  | Call_assimilate a t => assimilate a t
  end.

Definition producer_of (c : Call) : Producer :=
  match c with
  | Call_setMeteo _ _ _ _ _ _ => Meteo
  | Call_setRadiationComponents _ _ _ _ _ => Radiation
  | Call_setSnowMassChange _ _ => SnowDrift
  | Call_assimilate _ _ => Assimilation
  end.

Definition timestamp_of (c : Call) : Date :=
  match c with
  | Call_setMeteo _ _ _ _ _ t => t
  | Call_setRadiationComponents _ _ _ _ t => t
  | Call_setSnowMassChange _ t => t
  | Call_assimilate _ t => t
  end.

(** The coordinator after a sequence of calls, each taken from where the
    previous one left it (a caller may catch what a setter throws; after an
    abort there is no caller left, so the sequences of a real run are among
    these). *)
Definition after_calls (history : list Call) (st : State) : State :=
  fold_left (fun st c => final (perform c st)) history st.

Definition flag_of (p : Producer) (f : Flags) : bool :=
  match p with
  | Meteo => dataMeteo2D f
  | Radiation => dataRadiation f
  | SnowDrift => dataSnowDrift f
  | Assimilation => dataDa f
  end.

Definition raise_flag (p : Producer) (f : Flags) : Flags :=
  match p with
  | Meteo => set_flag_meteo f
  | Radiation => set_flag_radiation f
  | SnowDrift => set_flag_drift f
  | Assimilation => set_flag_da f
  end.

(** The producers a step waits for: meteo and radiation always, snow drift
    and data assimilation when their module is attached. *)
Definition awaited (p : Producer) (s : SnowpackInterface) : Prop :=
  match p with
  | Meteo | Radiation => True
  | SnowDrift => drift (setup s) = true
  | Assimilation => da (setup s) = true
  end.

(** Producer p has pushed data tagged with a timestamp that matches date. *)
Definition supplied (history : list Call) (p : Producer) (date : Date) : Prop :=
  exists c, In c history /\ producer_of c = p /\ date_neq date (timestamp_of c) = false.

(** A raised flag stands for data supplied for the expected timestamp. *)
Definition flags_justified (history : list Call) (s : SnowpackInterface) : Prop :=
  forall p, flag_of p (flags s) = true -> supplied history p (nextStepTimestamp s).

End Vocabulary.

(** ** More of SnowpackInterface.cc

    The list of output grids, the choice and the check of the initial snow
    profiles, the distribution of points and stations over the workers, the
    attachment of the other modules, the snow cover output, and the reading
    of the initial snow cover. *)

(** *** std::sort and std::unique *)

Section StdAlgorithms.
Context {A : Type}.

(** std::sort with a comparator, as an insertion sort (the sorted
    permutation is all std::sort promises). *)
Fixpoint insert_sorted (less : A -> A -> bool) (x : A) (l : list A) : list A :=
  match l with
  | [] => [x]
  | y :: l' => if less y x then y :: insert_sorted less x l' else x :: y :: l'
  end.

Fixpoint sort_with (less : A -> A -> bool) (l : list A) : list A :=
  match l with
  | [] => []
  | x :: l' => insert_sorted less x (sort_with less l')
  end.

(** std::unique: an element is kept when it differs from the last element
    kept. *)
Fixpoint unique_from (eqb : A -> A -> bool) (prev : A) (l : list A) : list A :=
  match l with
  | [] => []
  | y :: rest => if eqb prev y then unique_from eqb prev rest
                 else y :: unique_from eqb y rest
  end.

(** The range [begin, it) that std::unique leaves, which is what the
    resize keeps. *)
Definition std_unique (eqb : A -> A -> bool) (l : list A) : list A :=
  match l with
  | [] => []
  | x :: rest => x :: unique_from eqb x rest
  end.

End StdAlgorithms.

(** operator< of std::string: lexicographic, by character code. *)
Definition string_less (a b : String.string) : bool :=
  match OrdersEx.String_as_OT.compare a b with Lt => true | _ => false end.

(** *** uniqueOutputGrids

    IOUtils::toUpper belongs to MeteoIO and is taken as it comes. *)
Definition uniqueOutputGrids (toUpper : String.string -> String.string) (output_grids : list String.string)
  : list String.string :=
  let output_grids := map toUpper output_grids in
  let output_grids := sort_with string_less output_grids in
  std_unique String.eqb output_grids.

(** *** readSnowCover *)

Section ReadSnowCover.
Context {mio : MeteoIO}.

(** The two profile readers the coordinator holds. *)
Inductive SnoReader := SmetIO | AsciiIO.

(** SN_SNOWSOIL_DATA, reduced to what readSnowCover looks at. *)
Record LayerData := mkLayer { depositionDate : Date }.
Record SN_SNOWSOIL_DATA := mkSno { nLayers : nat; Ldata : list LayerData }.

(** What the readers are asked. *)
Inductive SnoCall :=
| SnowCoverExists (reader : SnoReader) (name station : String.string)
| ReadSnowCover (reader : SnoReader) (name station : String.string).

(** The readers (external): whether a profile exists, and what reading it
    gives, a profile or the exception the reader throws. [date_after] is
    operator> of mio::Date. *)
Record SnoFiles := mkSnoFiles {
  ReaderException : Type;
  snowCoverExists : SnoReader -> String.string -> String.string -> bool;
  reader_readSnowCover : SnoReader -> String.string -> String.string -> ReaderException + SN_SNOWSOIL_DATA;
  date_after : Date -> Date -> bool
}.

(** How readSnowCover ends: with the profile in sno, with an exception of
    the reader, with its own IOException, or in front() of an empty Ldata
    (undefined; the readers size Ldata to nLayers). *)
Inductive SnoOutcome (fs : SnoFiles) :=
| Sno_read (sno : SN_SNOWSOIL_DATA)
| Sno_reader_threw (e : ReaderException fs)
| Sno_IOException (msg : String.string)
| Sno_undefined.

(** The members of the coordinator readSnowCover reads; [start_date] is
    nextStepTimestamp, which holds the start time while the constructor runs. *)
Record SnoMembers := mkSnoMembers {
  is_restart : bool;
  station_name : String.string;
  start_date : Date
}.

Definition young_layer_message (m : SnoMembers) (GRID_sno LUS_sno : String.string) : String.string :=
  let ss := "A layer can not be younger than the start date!"%string in
  if is_restart m
  then String.append ss (String.append " Please check profile '"
                                       (String.append GRID_sno "'"))
  else String.append ss (String.append " Please check profile '"
                                       (String.append LUS_sno "'")).

(** The calls to the readers, in order, and the outcome. *)
Definition readSnowCover (fs : SnoFiles) (m : SnoMembers)
           (GRID_sno LUS_sno sno_type : String.string) (is_special_point : bool)
  : list SnoCall * SnoOutcome fs :=
  let reader := if String.eqb sno_type "SMET" then SmetIO else AsciiIO in
  let '(asked, name) :=
    if is_special_point && negb (is_restart m)
    then ([SnowCoverExists reader GRID_sno (station_name m)],
          if snowCoverExists fs reader GRID_sno (station_name m) then GRID_sno else LUS_sno)
    else ([], if is_restart m then GRID_sno else LUS_sno) in
  let calls := asked ++ [ReadSnowCover reader name (station_name m)] in
  match reader_readSnowCover fs reader name (station_name m) with
  | inl e => (calls, Sno_reader_threw fs e)
  | inr sno =>
      if 0 <? nLayers sno
      then match Ldata sno with
           | [] => (calls, Sno_undefined fs)
           | front :: _ =>
               if date_after fs (depositionDate front) (start_date m)
               then (calls, Sno_IOException fs (young_layer_message m GRID_sno LUS_sno))
               else (calls, Sno_read fs sno)
           end
      else (calls, Sno_read fs sno)
  end.

End ReadSnowCover.

(** *** The constructor: points and stations of one worker *)

(** The loop over pts for the worker of the columns
    [offset, offset + thread_nx): the points of its range, their column made
    local. The indices are size_t. *)
Fixpoint worker_sub_pts (pts : list (Z * Z)) (offset endx : Z) : list (Z * Z) :=
  match pts with
  | [] => []
  | p :: rest =>
      if (offset <=? fst p)%Z && (fst p <=? endx)%Z
      then ((fst p - offset) mod 2 ^ 64, snd p)%Z :: worker_sub_pts rest offset endx
      else worker_sub_pts rest offset endx
  end.

(** No worker is built for a slice without columns. *)
Definition constructor_sub_pts (pts : list (Z * Z)) (offset thread_nx : Z)
  : option (list (Z * Z)) :=
  if (0 <? thread_nx)%Z
  then Some (worker_sub_pts pts offset ((thread_nx + offset - 1) mod 2 ^ 64)%Z)
  else None.

(** thread_stations: for every row iy the stations
    [iy*nx + offset, iy*nx + offset + thread_nx) of snow_stations. *)
Definition thread_stations {Station : Type} (snow_stations : list Station)
           (dimy nx offset thread_nx : nat) : list Station :=
  flat_map (fun iy => firstn thread_nx (skipn (iy * nx + offset) snow_stations))
           (seq 0 dimy).

(** *** The attachment of the other modules *)

(** [workers[i]->setUseDrift(true)] and [setUseEBalance(true)]: switches of
    the worker (external). *)
Class WorkerSwitches {mio : MeteoIO} {cm : CellModel} := {
  setUseDrift : bool -> SnowpackInterfaceWorker -> SnowpackInterfaceWorker;
  setUseEBalance : bool -> SnowpackInterfaceWorker -> SnowpackInterfaceWorker
}.

Section Attachment.
Context {mio : MeteoIO} {cm : CellModel} {ext : Collaborators} {sw : WorkerSwitches}.
Local Open Scope coord_scope.

Definition with_setup (su : Setup) (s : SnowpackInterface) :=
  mkInterface su (forcing s) (flags s) (workers s) (nextStepTimestamp s)
              (maskGlacier s) (glaciers s) (snow_poi_written s).

(** The four module pointers, set. *)
Definition with_modules (drift' eb' da' runoff' : bool) (su : Setup) : Setup :=
  mkSetup (dimx su) (dimy su) (dem su) (output_grids su)
          (worker_startx su) (worker_deltax su) (timeStep su)
          drift' eb' da' runoff'
          (mask_glaciers su) (mask_dynamic su) (glacier_katabatic_flow su)
          (do_io_locally su) (grids_write su) (snow_write su) (pts su)
          (smet_members su) (point_schedule su).

Definition setSnowDrift : M unit :=
  modify (fun s => let su := setup s in
                   with_setup (with_modules true (eb su) (da su) (runoff su) su) s) ;;
  s <- this ;;
  when (drift (setup s))
       (modify (fun s => with_workers (map (setUseDrift true) (workers s)) s) ;;
        cH <- getGrid HS ;; sp <- getGrid SP ;; rg <- getGrid RG ;;
        n3 <- getGrid N3 ;; rb <- getGrid RB ;;
        emit (Drift_setSnowSurfaceData cH sp rg n3 rb)).

Definition setEnergyBalance : M unit :=
  modify (fun s => let su := setup s in
                   with_setup (with_modules (drift su) true (da su) (runoff su) su) s) ;;
  s <- this ;;
  when (eb (setup s))
       (modify (fun s => with_workers (map (setUseEBalance true) (workers s)) s) ;;
        alb <- getGrid TOP_ALB ;;
        emit (Eb_setAlbedo alb)).

Definition setDataAssimilation : M unit :=
  modify (fun s => let su := setup s in
                   with_setup (with_modules (drift su) (eb su) true (runoff su) su) s).

Definition setRunoff : M unit :=
  modify (fun s => let su := setup s in
                   with_setup (with_modules (drift su) (eb su) (da su) true su) s).

End Attachment.

(** *** writeOutputSNO *)

Section SnoOutput.
Context {mio : MeteoIO} {cm : CellModel} {ext : Collaborators}.

(** What writeOutputSNO does: it asks a worker for its stations, prints
    which process it writes for, writes the stations of a process (the loop
    of writeSnowCover over them), receives or sends stations. *)
Inductive SnoStep :=
| GetOutputSNO (ii : nat)
| Cout_writing_SNO (process : nat)
| WriteSnowCoverOf (date : Date) (process : nat)
| ReceiveStations (from : nat)
| SendStations (to : nat).

Definition writeOutputSNO (s : SnowpackInterface) (date : Date) : list SnoStep :=
  map GetOutputSNO (seq 0 (length (workers s)))
  ++ (if mpi_master
      then [Cout_writing_SNO mpi_master_rank; WriteSnowCoverOf date mpi_rank]
           ++ flat_map (fun ii =>
                          if (ii =? mpi_master_rank) || do_io_locally (setup s) then []
                          else [Cout_writing_SNO ii; ReceiveStations ii;
                                WriteSnowCoverOf date ii])
                       (seq 0 mpi_size)
      else if do_io_locally (setup s)
           then [Cout_writing_SNO mpi_rank; WriteSnowCoverOf date mpi_rank]
           else [SendStations mpi_master_rank]).

End SnoOutput.

(** *** readInitalSnowCover *)

Section InitialSnowCover.
Context {mio : MeteoIO} {cm : CellModel} {ext : Collaborators}.

(** A SnowStation, reduced to the profile it was initialized from and its
    metadata. *)
Record SnowStation := mkSnowStation {
  station_profile : SN_SNOWSOIL_DATA;
  station_meta : StationData
}.

(** What readInitalSnowCover takes from the configuration, the grids, the
    worker class and the other libraries (external): the key SNOW, the
    slice of a process, the land use and the DEM at a cell, which cells are
    skipped and which are special points, how indices and land use codes are
    printed, whether the initialization of a station throws, the metadata of
    a cell (position and slope) before its names are set, and [what()] of
    the two kinds of exceptions readSnowCover can end with, and the stations
    a process receives from the master. *)
Record InitWorld (fs : SnoFiles) := mkInitWorld {
  sno_type_key : String.string;
  getArraySliceParams : nat -> nat -> nat * nat;
  landuse_at : nat -> nat -> double;
  dem_at : nat -> nat -> double;
  skipThisCell : double -> double -> bool;
  is_special : list (Z * Z) -> nat -> nat -> bool;
  show_index : nat -> String.string;
  show_landuse : Z -> String.string;
  initialize_throws : SN_SNOWSOIL_DATA -> bool;
  cell_meta : nat -> nat -> StationData;
  what_reader : ReaderException fs -> String.string;
  what_IOException : String.string -> String.string;
  received_stations : list (option SnowStation)
}.

Inductive InitStep :=
| Readers (ix iy : nat) (calls : list SnoCall)
| Cout_what (text : String.string)
| Cout_could_not_initialize (ix iy : nat)
| Smet_header (ix iy : nat) (outcome : SmetOutcome)
| Send_stations (to : nat) (stations : list (option SnowStation))
| Receive_stations (from : nat)
| Cout_read_initial (rank : nat).

(** How it fails: with an IOException of its own, with the exception of
    write_SMET_header, or in the undefined case of readSnowCover. *)
Inductive InitFailure :=
| Init_IOException (msg : String.string)
| Init_smet (outcome : SmetOutcome)
| Init_undefined.

Definition with_names (name id : String.string) (meta : StationData) : StationData :=
  mkStationData name id (getAltitude meta) (getLat meta) (getLon meta)
                (getEasting meta) (getNorthing meta) (getEPSG meta)
                (getSlopeAngle meta) (getAzimuth meta).

Section Cells.
Variables (fs : SnoFiles) (iw : InitWorld fs) (w : SmetWorld) (m : SnoMembers)
          (sm : SmetMembers) (pts : list (Z * Z)).

(** [ix << "_" << iy] *)
Definition station_idx (ix iy : nat) : String.string :=
  String.append (show_index iw ix) (String.append "_"%string (show_index iw iy)).

Definition LUS_sno_of (ix iy : nat) : String.string :=
  String.append (station_name m)
    (String.append "_"%string (show_landuse iw (round_landuse w (landuse_at iw ix iy)))).

Definition GRID_sno_of (ix iy : nat) : String.string :=
  String.append (station_idx ix iy) (String.append "_"%string (station_name m)).

(** The body of the two loops for the cell (ix, iy): the station pushed
    (None for NULL), or how the function ends. *)
Definition read_cell (ix iy : nat) : list InitStep * (InitFailure + option SnowStation) :=
  if skipThisCell iw (landuse_at iw ix iy) (dem_at iw ix iy) then ([], inr None)
  else
    let is_special_point := is_special iw pts ix iy in
    match readSnowCover fs m (GRID_sno_of ix iy) (LUS_sno_of ix iy)
                        (sno_type_key iw) is_special_point with
    | (calls, Sno_reader_threw _ e) =>
        ([Readers ix iy calls; Cout_what (what_reader iw e)],
         inl (Init_IOException "Can not read snow files"%string))
    | (calls, Sno_IOException _ msg) =>
        ([Readers ix iy calls; Cout_what (what_IOException iw msg)],
         inl (Init_IOException "Can not read snow files"%string))
    | (calls, Sno_undefined _) => ([Readers ix iy calls], inl Init_undefined)
    | (calls, Sno_read _ snow_soil) =>
        if initialize_throws iw snow_soil
        then ([Readers ix iy calls; Cout_could_not_initialize ix iy],
              inl (Init_IOException "Can not initialize snow pixel"%string))
        else
          let meta := with_names (String.append (station_idx ix iy)
                                                (String.append "_"%string (station_name m)))
                                 (station_idx ix iy) (cell_meta iw ix iy) in
          let snowPixel := mkSnowStation snow_soil meta in
          if is_special_point
          then match write_SMET_header w sm meta (landuse_at iw ix iy) with
               | Written mode filename text =>
                   ([Readers ix iy calls; Smet_header ix iy (Written mode filename text)],
                    inr (Some snowPixel))
               | thrown =>
                   ([Readers ix iy calls; Smet_header ix iy thrown], inl (Init_smet thrown))
               end
          else ([Readers ix iy calls], inr (Some snowPixel))
    end.

(** The two loops over the cells of a slice, in the order they visit them. *)
Fixpoint read_cells (cells : list (nat * nat))
  : list InitStep * (InitFailure + list (option SnowStation)) :=
  match cells with
  | [] => ([], inr [])
  | (ix, iy) :: rest =>
      match read_cell ix iy with
      | (steps, inl failure) => (steps, inl failure)
      | (steps, inr station) =>
          match read_cells rest with
          | (steps', inl failure) => (steps ++ steps', inl failure)
          | (steps', inr stations) => (steps ++ steps', inr (station :: stations))
          end
      end
  end.

(** The cells of the slice [startx, startx+deltax), row by row. *)
Definition slice_cells (dimy startx deltax : nat) : list (nat * nat) :=
  flat_map (fun iy => map (fun ix => (ix, iy)) (seq startx deltax)) (seq 0 dimy).

(** The loop over the processes, from the given ones on; snow_stations is
    what has been kept so far. *)
Fixpoint read_processes (dimx dimy : nat) (do_io_locally : bool) (processes : list nat)
         (snow_stations : list (option SnowStation))
  : list InitStep * (InitFailure + list (option SnowStation)) :=
  match processes with
  | [] => ([], inr snow_stations)
  | ii :: rest =>
      if do_io_locally && negb (ii =? mpi_rank)
      then read_processes dimx dimy do_io_locally rest snow_stations
      else
        let (startx, deltax) := getArraySliceParams iw dimx ii in
        match read_cells (slice_cells dimy startx deltax) with
        | (steps, inl failure) => (steps, inl failure)
        | (steps, inr snow_stations_tmp) =>
            let kept := (ii =? mpi_master_rank) || do_io_locally in
            let sent := if kept then [] else [Send_stations ii snow_stations_tmp] in
            match read_processes dimx dimy do_io_locally rest
                                 (if kept then snow_stations_tmp else snow_stations) with
            | (steps', result) => (steps ++ sent ++ steps', result)
            end
        end
  end.

Definition readInitalSnowCover (dimx dimy : nat) (do_io_locally : bool)
  : list InitStep * (InitFailure + list (option SnowStation)) :=
  if mpi_master || do_io_locally
  then match read_processes dimx dimy do_io_locally (seq 0 mpi_size) [] with
       | (steps, inl failure) => (steps, inl failure)
       | (steps, inr snow_stations) =>
           (steps ++ [Cout_read_initial mpi_rank], inr snow_stations)
       end
  else ([Receive_stations mpi_master_rank], inr (received_stations iw)).

End Cells.

End InitialSnowCover.

(** ** The vocabulary of the further properties *)

Section MoreVocabulary.
Context {mio : MeteoIO} {cm : CellModel} {ext : Collaborators} {sw : WorkerSwitches}.
Local Open Scope coord_scope.

(** The reader the key SNOW selects. *)
Definition reader_of (sno_type : String.string) : SnoReader :=
  if String.eqb sno_type "SMET" then SmetIO else AsciiIO.

(** The profile readSnowCover reads: the one of the cell on a restart, and
    for a special point that has one; the one of the land use otherwise. *)
Definition chosen_profile (fs : SnoFiles) (m : SnoMembers)
           (GRID_sno LUS_sno sno_type : String.string) (is_special_point : bool)
  : String.string :=
  if is_restart m
     || (is_special_point
         && snowCoverExists fs (reader_of sno_type) GRID_sno (station_name m))
  then GRID_sno else LUS_sno.

Definition is_read (c : SnoCall) : bool :=
  match c with ReadSnowCover _ _ _ => true | _ => false end.

(** The global coordinates of a point handed to the worker at offset. *)
Definition restore_point (offset : Z) (q : Z * Z) : Z * Z := ((fst q + offset)%Z, snd q).

Definition in_columns (first last_excl : Z) (p : Z * Z) : bool :=
  (first <=? fst p)%Z && (fst p <? last_excl)%Z.

(** The slices (offset, width) follow each other from start on. *)
Fixpoint tiles (start : Z) (slices : list (Z * Z)) : Prop :=
  match slices with
  | [] => True
  | sl :: rest => fst sl = start /\ (0 <= snd sl)%Z /\ tiles (start + snd sl) rest
  end.

Definition total_width (slices : list (Z * Z)) : Z :=
  fold_right (fun sl acc => (snd sl + acc)%Z) 0%Z slices.

(** The points of a slice as its worker receives them, put back in global
    coordinates; nothing for a slice that gets no worker. *)
Definition handed_over (pts : list (Z * Z)) (sl : Z * Z) : list (Z * Z) :=
  match constructor_sub_pts pts (fst sl) (snd sl) with
  | Some sub => map (restore_point (fst sl)) sub
  | None => []
  end.

Definition valid_size_t (p : Z * Z) : Prop := (0 <= fst p < 2 ^ 64)%Z.

(** The coordinator once setEnergyBalance has set the pointer and switched
    the workers. *)
Definition energy_balance_attached (s : SnowpackInterface) : SnowpackInterface :=
  let su := setup s in
  with_workers (map (setUseEBalance true) (workers s))
               (with_setup (with_modules (drift su) true (da su) (runoff su) su) s).

Definition data_assimilation_attached (s : SnowpackInterface) : SnowpackInterface :=
  let su := setup s in
  with_setup (with_modules (drift su) (eb su) true (runoff su) su) s.

Definition is_Eb_setAlbedo (ev : Event) : bool :=
  match ev with Eb_setAlbedo _ => true | _ => false end.

Definition snow_drift_attached (s : SnowpackInterface) : SnowpackInterface :=
  let su := setup s in
  with_workers (map (setUseDrift true) (workers s))
               (with_setup (with_modules true (eb su) (da su) (runoff su) su) s).

Definition is_Drift_setSnowSurfaceData (ev : Event) : bool :=
  match ev with Drift_setSnowSurfaceData _ _ _ _ _ => true | _ => false end.

Definition getGrid_result (s : SnowpackInterface) (param : Parameters) : Grid2DObject :=
  if is_forcing_parameter param then stored param (forcing s)
  else
    let r := gather (setup s) param 0 (workers s) (grid_like (dem (setup s)) zero) 0 in
    if 0 <? snd r then grid_clear (allreduce_sum (fst r)) else allreduce_sum (fst r).

Definition getGrid_events (s : SnowpackInterface) (param : Parameters) : list Event :=
  if is_forcing_parameter param then []
  else
    let r := gather (setup s) param 0 (workers s) (grid_like (dem (setup s)) zero) 0 in
    queries s param ++ (if 0 <? snd r then [Cerr_not_available param] else []).

(** The grid handed to the writer: masked where the glaciers are masked. *)
Definition masked (s : SnowpackInterface) (grid : Grid2DObject) : Grid2DObject :=
  if mask_glaciers (setup s) then grid_times grid (maskGlacier s) else grid.

(** The events of one iteration of the loop over output_grids. *)
Definition grid_output_events (s : SnowpackInterface) (date : Date) (param : Parameters)
  : list Event :=
  getGrid_events s param
  ++ (if mpi_master then [Io_write2DGrid (masked s (getGrid_result s param)) param date]
      else []).

Definition writeOutput_events (s : SnowpackInterface) (date : Date) : list Event :=
  (if do_grid_output s date
   then flat_map (grid_output_events s date) (output_grids (setup s)) else [])
  ++ (if mpi_master && runoff (setup s)
      then [Runoff_output date (psum (forcing s)) (ta (forcing s))] else []).

(** The grids written, with their parameter and date, in the order of the
    calls of write2DGrid. *)
Definition grids_written (evs : list Event) : list (Parameters * Grid2DObject * Date) :=
  flat_map (fun ev => match ev with
                      | Io_write2DGrid grid param date => [(param, grid, date)]
                      | _ => []
                      end) evs.

Definition is_Worker_getGrid (ev : Event) : bool :=
  match ev with Worker_getGrid _ _ => true | _ => false end.

Definition is_Runoff_output (ev : Event) : bool :=
  match ev with Runoff_output _ _ _ => true | _ => false end.

Definition runoff_attached (s : SnowpackInterface) : SnowpackInterface :=
  let su := setup s in
  with_setup (with_modules (drift su) (eb su) (da su) true su) s.

Definition is_WriteSnowCover (ev : Event) : bool :=
  match ev with WriteSnowCover _ _ => true | _ => false end.

Definition is_WriteOutputSpecialPoints (ev : Event) : bool :=
  match ev with WriteOutputSpecialPoints _ _ => true | _ => false end.

Definition is_message (ev : Event) : bool :=
  match ev with Mpi_receive _ | Mpi_send _ => true | _ => false end.

Definition is_Worker_getOutputSpecialPoints (ev : Event) : bool :=
  match ev with Worker_getOutputSpecialPoints _ => true | _ => false end.

Definition is_Worker_clearSpecialPointsData (ev : Event) : bool :=
  match ev with Worker_clearSpecialPointsData _ => true | _ => false end.

(** The processes whose points are written before writeOutputSpecialPoints
    throws: all of them when it never does. *)
Fixpoint written_batches (su : Setup) (date : Date)
         (batches : list (nat * list (StationData * CurrentMeteo * SurfaceFluxes)))
  : list nat :=
  match batches with
  | [] => []
  | (process, points) :: rest =>
      match points_exception su date points with
      | Some _ => []
      | None => process :: written_batches su date rest
      end
  end.

(** The first process for whose points writeOutputSpecialPoints throws, and
    what it throws. *)
Fixpoint failing_batch (su : Setup) (date : Date)
         (batches : list (nat * list (StationData * CurrentMeteo * SurfaceFluxes)))
  : option (nat * SmetOutcome) :=
  match batches with
  | [] => None
  | (process, points) :: rest =>
      match points_exception su date points with
      | Some thrown => Some (process, thrown)
      | None => failing_batch su date rest
      end
  end.

Definition is_Timer_stop (ev : Event) : bool :=
  match ev with Timer_stop => true | _ => false end.

(** The steps that ran to their end. *)
Definition steps_completed (tr : list Event) : nat := length (filter is_Timer_stop tr).

(** The timestamp n time steps after the one the coordinator expects. *)
Definition clock_after (n : nat) (s : SnowpackInterface) : Date :=
  Nat.iter n (fun date => date_plus date (timeStep (setup s))) (nextStepTimestamp s).

(** Events that neither end a step nor write a snow cover file. *)
Definition quiet (ev : Event) : Prop :=
  match ev with
  | Timer_stop | WriteSnowCover _ _ => False
  | _ => True
  end.

(** calcNextStep from the check of errCount to its end. *)
Definition publish (s : SnowpackInterface) (errCount : nat) : M unit :=
  (if 0 <? errCount then std_abort else ret tt) ;;
  when (drift (setup s))
       (cH <- getGrid HS ;; sp <- getGrid SP ;; rg <- getGrid RG ;;
        n3 <- getGrid N3 ;; rb <- getGrid RB ;;
        emit (Drift_setSnowSurfaceData cH sp rg n3 rb)) ;;
  when (eb (setup s))
       (alb <- getGrid TOP_ALB ;; emit (Eb_setAlbedo alb)) ;;
  s' <- this ;;
  writeOutput (nextStepTimestamp s') ;;
  emit Timer_stop ;;
  when mpi_master (emit (Cout_step_done (nextStepTimestamp s'))) ;;
  modify (with_nextStepTimestamp (date_plus (nextStepTimestamp s') (timeStep (setup s')))).

(** What calls that took the coordinator from s to s' with the events evs
    did to the clock and to the snow cover files of the special points. *)
Definition effect (s s' : SnowpackInterface) (evs : list Event) : Prop :=
  setup s' = setup s /\
  nextStepTimestamp s' = clock_after (steps_completed evs) s /\
  (snow_poi_written s = true -> snow_poi_written s' = true) /\
  (sno_due s = false -> filter is_WriteSnowCover evs = []) /\
  (do_io_locally (setup s) = true ->
   filter is_WriteSnowCover evs = [] \/
   (sno_due s = true /\ snow_poi_written s' = true /\
    exists date, filter is_WriteSnowCover evs = [WriteSnowCover date mpi_rank])) /\
  (do_io_locally (setup s) = false -> mpi_master = false ->
   filter is_WriteSnowCover evs = []).

(** The names of the columns the header announces. *)
Definition smet_fields (w : SmetWorld) (m : SmetMembers) : list String.string :=
  ["timestamp"; "TA"; "TSS"; "TSG"; "VW"; "DW"; "VW_MAX"; "ISWR"; "OSWR"; "ILWR";
   "PSUM"; "PSUM_PH"; "HS"; "RH"]%string
  ++ (if double_neq w (soil_temp_depth m) (nodata w) then ["TSOIL"%string] else [])
  ++ (if useCanopy m then ["ISWR_can"; "RSWR_can"]%string else []).

(** The line of the header that announces them, and the line that ends the
    header. *)
Definition fields_line (names : list String.string) : String.string :=
  put ["fields       = "%string; String.concat " " names; endl; "[DATA]"%string; endl].

Definition sno_written (steps : list SnoStep) : list nat :=
  flat_map (fun step => match step with WriteSnowCoverOf _ process => [process] | _ => [] end)
           steps.

Definition sno_received (steps : list SnoStep) : list nat :=
  flat_map (fun step => match step with ReceiveStations from => [from] | _ => [] end) steps.

Definition sno_sent (steps : list SnoStep) : list nat :=
  flat_map (fun step => match step with SendStations to => [to] | _ => [] end) steps.

Definition sno_asked (steps : list SnoStep) : list nat :=
  flat_map (fun step => match step with GetOutputSNO ii => [ii] | _ => [] end) steps.

(** Whether the SMET file of a station can be written. *)
Definition writable (w : SmetWorld) (m : SmetMembers) (meta : StationData) : bool :=
  validFileAndPath w (smet_filename m meta) && negb (open_fails w (smet_filename m meta)).

(** The number of points at the head of the list whose file can be written. *)
Fixpoint leading_writable (w : SmetWorld) (m : SmetMembers)
         (points : list (StationData * CurrentMeteo * SurfaceFluxes)) : nat :=
  match points with
  | [] => 0
  | (meta, _, _) :: rest =>
      if writable w m meta then S (leading_writable w m rest) else 0
  end.

Definition smet_lines (steps : list PointStep) : list (nat * SmetOutcome) :=
  flat_map (fun step => match step with Smet_line ii o => [(ii, o)] | _ => [] end) steps.

Definition time_series (steps : list PointStep) : list nat :=
  flat_map (fun step => match step with WriteTimeSeries ii => [ii] | _ => [] end) steps.

Definition profiles (steps : list PointStep) : list nat :=
  flat_map (fun step => match step with WriteProfile _ ii => [ii] | _ => [] end) steps.

(** The line write_SMET is asked to write for a point. *)
Definition smet_of (w : SmetWorld) (m : SmetMembers)
           (point : StationData * CurrentMeteo * SurfaceFluxes) : SmetOutcome :=
  let '(meta, met, surf) := point in write_SMET w m met meta surf.

Definition with_prof_start (x : double) (sched : PointSchedule) : PointSchedule :=
  mkPointSchedule (ts_write sched) (ts_start sched) (ts_days_between sched)
                  (prof_write sched) x (prof_days_between sched).

(** The first cell of the list whose reading fails, with the failure. *)
Fixpoint first_failure (fs : SnoFiles) (iw : InitWorld fs) (w : SmetWorld) (m : SnoMembers)
         (sm : SmetMembers) (pts : list (Z * Z)) (cells : list (nat * nat))
  : option (nat * nat * InitFailure) :=
  match cells with
  | [] => None
  | c :: rest =>
      match snd (read_cell iw w m sm pts (fst c) (snd c)) with
      | inl failure => Some (c, failure)
      | inr _ => first_failure iw w m sm pts rest
      end
  end.

(** The cells a process reads for process ii: its slice, or nothing under
    local I/O when ii is another process. *)
Definition cells_of (fs : SnoFiles) (iw : InitWorld fs) (dimx dimy : nat)
           (do_io_locally : bool) (ii : nat) : list (nat * nat) :=
  if do_io_locally && negb (ii =? mpi_rank) then []
  else slice_cells dimy (fst (getArraySliceParams iw dimx ii))
                   (snd (getArraySliceParams iw dimx ii)).

(** The process whose stations this process keeps. *)
Definition own_process (do_io_locally : bool) : nat :=
  if do_io_locally then mpi_rank else mpi_master_rank.

Definition is_Send_stations (step : InitStep) : bool :=
  match step with Send_stations _ _ => true | _ => false end.

Definition is_Readers (step : InitStep) : bool :=
  match step with Readers _ _ _ => true | _ => false end.

End MoreVocabulary.

(** ** A small configuration to run the coordinator on

    One process, a domain of four columns and one row, two workers of two
    columns each. Values, dates and geolocations are integers; a cell whose
    state is negative makes the snow model raise. The SMET files of the
    special points go to a directory of the file system, which refuses
    [/forbidden]. *)

Module Toy.

#[local] Instance toy_mio : MeteoIO := {|
  double := Z;
  zero := 0%Z;
  Date := Z;
  date_neq := fun a b => negb (a =? b)%Z;
  date_plus := Z.add;
  Geo := Z;
  geo_eqb := Z.eqb
|}.

#[local] Instance toy_cells : CellModel := {|
  Cell := Z;
  cell_step := fun _ _ _ c => if (c <? 0)%Z then None else Some (c + 1)%Z
|}.

Definition cell_value (c : option Z) : Z :=
  match c with Some v => v | None => 0%Z end.

(** The temperature correction of the toy glaciers: never warmer than the
    surface. *)
Definition toy_correct (new_ta tss : Grid2DObject) : Grid2DObject :=
  mkGrid (tabulate (getNx (grid2D new_ta)) (getNy (grid2D new_ta))
            (fun x y => Z.min (cell (grid2D new_ta) x y) (cell (grid2D tss) x y)))
         (geoloc new_ta).

(** A file system that refuses the directory [/forbidden]. *)
Definition toy_world : @SmetWorld toy_mio := {|
  fixed := fun _ _ _ => "0"%string;
  integer := fun _ _ => "0"%string;
  toString_ISO := fun _ => "2000-01-01T00:00"%string;
  validFileAndPath := fun filename => negb (String.prefix "/forbidden" filename);
  open_fails := fun _ => false;
  nodata := (-999)%Z;
  double_neq := fun a b => negb (a =? b)%Z;
  round_landuse := fun code => code;
  A3D_VERSION := "3"%string;
  blkBody_Radiation := fun ea _ => ea;
  hs_over_cos := fun hs _ => hs
|}.

Definition toy_members (outpath : String.string) (depth : Z) : @SmetMembers toy_mio :=
  @mkSmetMembers toy_mio outpath 1%Z false depth "user"%string 0%Z.

Definition toy_station : @StationData toy_mio :=
  @mkStationData toy_mio "poi"%string "poi"%string 0%Z 0%Z 0%Z 0%Z 0%Z 0%Z 0%Z 0%Z.

Definition toy_meteo (ts : list Z) : @CurrentMeteo toy_mio :=
  @mkCurrentMeteo toy_mio 0%Z 0%Z 0%Z 0%Z 0%Z 0%Z 0%Z 0%Z 0%Z 0%Z 0%Z 0%Z 0%Z 0%Z ts.

Definition toy_fluxes : @SurfaceFluxes toy_mio := @mkSurfaceFluxes toy_mio 0%Z 0%Z.

(** Time series and profiles are due at every step. *)
Definition toy_clock : @ScheduleWorld toy_mio := {|
  getJulian := fun date => date;
  booleanTime := fun _ _ _ _ => true;
  dt_main_by_60_point := 1%Z;
  dt_main_by_60 := 1%Z
|}.

Definition toy_schedule : @PointSchedule toy_mio :=
  @mkPointSchedule toy_mio true 0%Z 1%Z true 0%Z 1%Z.

(** A worker hands over the point of its second cell when it holds a model
    there; no other process sends points. *)
#[local] Instance toy_ext : Collaborators := {|
  worker_getGrid := fun w param =>
    match param with
    | OTHER _ => mkGrid array_clear 0%Z
    | _ => mkGrid (mkArray2D (length (cells w)) 1 (map cell_value (cells w))) 0%Z
    end;
  subgrid := fun g sx sy nc nr =>
    mkGrid (tabulate nc nr (fun x y => cell (grid2D g) (sx + x) (sy + y)))
           (geoloc g + Z.of_nat sx)%Z;
  grid_times := fun a b =>
    mkGrid (tabulate (getNx (grid2D a)) (getNy (grid2D a))
              (fun x y => (cell (grid2D a) x y * cell (grid2D b) x y)%Z))
           (geoloc a);
  mpi_master := true;
  mpi_size := 1;
  mpi_rank := 0;
  mpi_master_rank := 0;
  allreduce_sum := fun g => g;
  Glaciers := Grid2DObject;
  setGlacierMap := fun g _ => g;
  correctTemperatures := fun _ _ tss new_ta => toy_correct new_ta tss;
  booleanTime_grids := fun _ => true;
  smet_world := toy_world;
  schedule_world := toy_clock;
  getOutputSpecialPoints := fun w =>
    match nth_error (cells w) 1 with
    | Some (Some v) => [(toy_station, toy_meteo [v], toy_fluxes)]
    | _ => []
    end;
  mpi_receive_points := fun _ _ => []
|}.

Definition row (l : list Z) : Grid2DObject := mkGrid (mkArray2D (length l) 1 l) 0%Z.

Definition toy_worker (cs : list (option Z)) : SnowpackInterfaceWorker :=
  @mkWorker toy_mio toy_cells cs.

Definition toy_dem : Grid2DObject := row [1500; 1600; 1700; 1800]%Z.

Definition nodata : Grid2DObject := grid_like toy_dem (-999)%Z.

(** The coordinator as its constructor leaves it, with the given modules
    attached, the given options, the given cells in the two workers, and
    the SMET files of the points written under the given directory. *)
Definition toy_interface_at (outpath : String.string) (with_eb with_drift katabatic : bool)
           (w0 w1 : list (option Z)) : SnowpackInterface :=
  mkInterface
    (mkSetup 4 1 toy_dem [HS] [0; 2] [2; 2] 1%Z
             with_drift with_eb false false
             false false katabatic
             true true false
             [(1, 0)%Z]
             (toy_members outpath 5%Z) toy_schedule)
    (mkForcing nodata nodata nodata nodata nodata nodata nodata nodata nodata 0%Z)
    (mkFlags false false false false)
    [toy_worker w0; toy_worker w1]
    100%Z
    nodata
    nodata
    false.

Definition toy_interface := toy_interface_at "/out"%string.

Definition toy_state (with_eb with_drift katabatic : bool) (w0 w1 : list (option Z)) : State :=
  mkState (toy_interface with_eb with_drift katabatic w0 w1) [].

Definition healthy0 : list (option Z) := [Some 1; Some 2]%Z.
Definition healthy1 : list (option Z) := [Some 3; None]%Z.

(** The same with the given readiness flags up. *)
Definition toy_waiting (with_eb : bool) (meteo radiation : bool) (w1 : list (option Z)) : State :=
  mkState (with_flags (mkFlags meteo false false radiation)
                      (toy_interface with_eb false false healthy0 w1)) [].

(** Fields on the domain, and one of another size. *)
Definition field_a : Grid2DObject := row [1; 2; 3; 4]%Z.
Definition field_b : Grid2DObject := row [5; 6; 7; 8]%Z.
Definition stray : Grid2DObject := row [7]%Z.


End Toy.

(** ** Small files, names and slices to run the other functions on *)

Module ToyFiles.
Local Open Scope string_scope.
#[local] Existing Instance Toy.toy_mio.
#[local] Existing Instance Toy.toy_cells.

(** toUpper on the letters a to z. *)
Definition upper_ascii (c : Ascii.ascii) : Ascii.ascii :=
  let n := Ascii.nat_of_ascii c in
  if (97 <=? n) && (n <=? 122) then Ascii.ascii_of_nat (n - 32) else c.

Fixpoint toy_toUpper (s : String.string) : String.string :=
  match s with
  | String.EmptyString => String.EmptyString
  | String.String c rest => String.String (upper_ascii c) (toy_toUpper rest)
  end.

(** Three profiles: the one of the cell, with a layer older than the start
    date; the one of the land use, with a layer younger than it; any other
    name is missing. *)
Definition toy_profiles : @SnoFiles Toy.toy_mio := {|
  ReaderException := String.string;
  snowCoverExists := fun _ name _ => String.eqb name "cell";
  reader_readSnowCover := fun _ name _ =>
    if String.eqb name "cell" then inr (mkSno 1 [@mkLayer Toy.toy_mio 50%Z])
    else if String.eqb name "landuse" then inr (mkSno 1 [@mkLayer Toy.toy_mio 150%Z])
    else inl name;
  date_after := Z.gtb
|}.

Definition cold_start : @SnoMembers Toy.toy_mio := @mkSnoMembers Toy.toy_mio false "station" 100%Z.

#[local] Instance toy_switches : @WorkerSwitches Toy.toy_mio Toy.toy_cells := {|
  setUseDrift := fun _ w => w;
  setUseEBalance := fun _ w => w
|}.

(** The registry of three points and two slices of two columns. *)
Definition toy_pts : list (Z * Z) := [(1, 0); (1, 1); (3, 1)]%Z.
Definition toy_slices : list (Z * Z) := [(0, 2); (2, 2)]%Z.

(** An experiment of two cells in one row, read under local I/O by the one
    process there is. The profile of land use 1 is older than the start
    date and the profile of land use 2 younger; land use 0 is skipped. *)
Definition toy_experiment : @SnoMembers Toy.toy_mio := @mkSnoMembers Toy.toy_mio false "exp" 100%Z.

Definition toy_landuse_profiles : @SnoFiles Toy.toy_mio := {|
  ReaderException := String.string;
  snowCoverExists := fun _ _ _ => false;
  reader_readSnowCover := fun _ name _ =>
    if String.eqb name "exp_1" then inr (mkSno 1 [@mkLayer Toy.toy_mio 50%Z])
    else if String.eqb name "exp_2" then inr (mkSno 1 [@mkLayer Toy.toy_mio 150%Z])
    else inl name;
  date_after := Z.gtb
|}.

Definition toy_init (landuse : nat -> Z) : InitWorld toy_landuse_profiles :=
  @mkInitWorld Toy.toy_mio toy_landuse_profiles
    "SMET"
    (fun dimx _ => (0, dimx))
    (fun ix _ => landuse ix)
    (fun _ _ => 0%Z)
    (fun code _ => (code =? 0)%Z)
    (fun pts ix iy =>
       existsb (fun p => (fst p =? Z.of_nat ix)%Z && (snd p =? Z.of_nat iy)%Z) pts)
    (fun n => if n =? 0 then "0" else "1")
    (fun code => if (code =? 1)%Z then "1" else "2")
    (fun _ => false)
    (fun _ _ => Toy.toy_station)
    (fun e => e)
    (fun msg => msg)
    [].

Definition skipped_then_old (ix : nat) : Z := if ix =? 0 then 0%Z else 1%Z.
Definition old_then_young (ix : nat) : Z := if ix =? 0 then 1%Z else 2%Z.

(** readInitalSnowCover on the experiment with the given land use. *)
Definition toy_initial (landuse : nat -> Z) :=
  @readInitalSnowCover Toy.toy_mio Toy.toy_cells Toy.toy_ext toy_landuse_profiles
    (toy_init landuse) Toy.toy_world toy_experiment (Toy.toy_members "/out" 5%Z) toy_pts 2 1 true.

Definition stations_of (landuse : nat -> Z) : list (option SnowStation) :=
  match snd (toy_initial landuse) with inr stations => stations | inl _ => [] end.

End ToyFiles.

(** * Properties *)

(** ** The registry of points of interest *)

Module PoiFacts.
Import Poi.

Lemma double_of_size_t_exact (n : Z) :
  (0 <= n < 2 ^ 53)%Z -> double_of_size_t n = n.
Proof.
  intros H. unfold double_of_size_t.
  destruct (Z.ltb_spec n (2 ^ 53)); [reflexivity | lia].
Qed.

Lemma size_t_of_valid (i : Z) : valid_index i -> size_t_of_int i = i.
Proof.
  unfold valid_index, size_t_of_int. intros H.
  apply Z.mod_small. lia.
Qed.

Lemma pair_eqb_spec (a b : Z * Z) : reflect (a = b) (pair_eqb a b).
Proof.
  destruct a as [a1 a2], b as [b1 b2]. unfold pair_eqb. simpl.
  destruct (Z.eqb_spec a1 b1), (Z.eqb_spec a2 b2); simpl; constructor; congruence.
Qed.

(** The comparator is a strict weak order, whatever the conversion does. *)
Lemma pts_less_asym a b : pts_less a b = true -> pts_less b a = false.
Proof.
  unfold pts_less, pair_comparator. simpl.
  repeat match goal with
         | |- context [Z.eqb ?x ?y] => destruct (Z.eqb_spec x y)
         | |- context [Z.ltb ?x ?y] => destruct (Z.ltb_spec x y)
         end; intros; try reflexivity; try discriminate; lia.
Qed.

Lemma pts_less_negtrans a b c :
  pts_less b a = false -> pts_less c b = false -> pts_less c a = false.
Proof.
  unfold pts_less, pair_comparator. simpl.
  repeat match goal with
         | |- context [Z.eqb ?x ?y] => destruct (Z.eqb_spec x y)
         | |- context [Z.ltb ?x ?y] => destruct (Z.ltb_spec x y)
         end; intros; try reflexivity; try discriminate; lia.
Qed.

Lemma insert_by_perm less x l : Permutation (insert_by less x l) (x :: l).
Proof.
  induction l as [|y l IH]; simpl.
  - apply Permutation_refl.
  - destruct (less y x).
    + eapply perm_trans; [apply perm_skip, IH | apply perm_swap].
    + apply Permutation_refl.
Qed.

Lemma std_sort_perm less l : Permutation (std_sort less l) l.
Proof.
  induction l as [|x l IH]; simpl.
  - constructor.
  - eapply perm_trans; [apply insert_by_perm | apply perm_skip, IH].
Qed.

Lemma insert_by_sorted x l :
  StronglySorted pts_le l -> StronglySorted pts_le (insert_by pts_less x l).
Proof.
  induction 1 as [|y l Hs IH Hall]; simpl.
  - repeat constructor.
  - destruct (pts_less y x) eqn:E.
    + constructor; [exact IH|].
      rewrite Forall_forall in *. intros z Hz.
      apply (Permutation_in _ (insert_by_perm pts_less x l)) in Hz.
      destruct Hz as [<- | Hz]; [apply pts_less_asym, E | apply Hall, Hz].
    + constructor; [constructor; assumption|].
      constructor; [exact E|].
      rewrite Forall_forall in *. intros z Hz.
      unfold pts_le. eapply pts_less_negtrans; [exact E | apply Hall, Hz].
Qed.

Lemma std_sort_sorted l : StronglySorted pts_le (std_sort pts_less l).
Proof.
  induction l as [|x l IH]; simpl; [constructor | apply insert_by_sorted, IH].
Qed.

Lemma pts_le_valid a b :
  valid_cell a -> valid_cell b -> pts_le a b -> a <> b -> row_col_lt a b.
Proof.
  unfold valid_cell, valid_index, pts_le, pts_less, pair_comparator, row_col_lt.
  destruct a as [a1 a2], b as [b1 b2]. simpl. intros [Ha1 Ha2] [Hb1 Hb2].
  rewrite !double_of_size_t_exact by lia.
  destruct (Z.eqb_spec b2 a2), (Z.ltb_spec b1 a1), (Z.ltb_spec b2 a2);
    intros; try discriminate; try lia.
  destruct (Z.eq_dec a1 b1); [subst; congruence | lia].
Qed.

Lemma row_col_lt_asym a b : row_col_lt a b -> row_col_lt b a -> False.
Proof. unfold row_col_lt. lia. Qed.

Lemma strict_of_le l :
  Forall valid_cell l -> NoDup l -> StronglySorted pts_le l ->
  StronglySorted row_col_lt l.
Proof.
  induction l as [|a l IH]; intros Hv Hn Hs; [constructor|].
  inversion Hv as [|? ? Hva Hvl]; subst.
  inversion Hn as [|? ? Hna Hnl]; subst.
  inversion Hs as [|? ? Hsl Hal]; subst.
  constructor; [auto|].
  rewrite Forall_forall in *. intros b Hb.
  apply pts_le_valid; auto.
  intros ->. contradiction.
Qed.

(** A list without duplicates has one order only that is sorted. *)
Lemma sorted_perm_unique l1 : forall l2,
  StronglySorted row_col_lt l1 -> StronglySorted row_col_lt l2 ->
  Permutation l1 l2 -> l1 = l2.
Proof.
  induction l1 as [|a l1 IH]; intros l2 H1 H2 P.
  - apply Permutation_nil in P. now subst.
  - destruct l2 as [|b l2]; [apply Permutation_sym, Permutation_nil in P; discriminate|].
    inversion H1 as [|? ? Hs1 Ha1]; subst.
    inversion H2 as [|? ? Hs2 Ha2]; subst.
    rewrite Forall_forall in Ha1, Ha2.
    assert (a = b) as ->.
    { assert (Hin : In a (b :: l2)) by (eapply Permutation_in; [exact P | now left]).
      assert (Hin' : In b (a :: l1))
        by (eapply Permutation_in; [apply Permutation_sym; exact P | now left]).
      destruct Hin as [-> | Hin]; [reflexivity|].
      destruct Hin' as [-> | Hin']; [reflexivity|].
      exfalso. apply (row_col_lt_asym (a:=a) (b:=b)); auto. }
    f_equal. apply IH; auto. eapply Permutation_cons_inv; exact P.
Qed.

(** std::find. *)
Lemma std_find_some tmp pts pos :
  std_find tmp pts = Some pos ->
  pos < length pts /\ nth pos pts (0, 0)%Z = tmp /\
  forall j, j < pos -> nth j pts (0, 0)%Z <> tmp.
Proof.
  revert pos. induction pts as [|p pts IH]; simpl; intros pos H; [discriminate|].
  destruct (pair_eqb_spec p tmp) as [-> | Hne].
  - injection H as <-. repeat split; [lia | intros j Hj; lia].
  - destruct (std_find tmp pts) as [k|]; [|discriminate].
    injection H as <-. destruct (IH k eq_refl) as (Hk & Hn & Hfirst).
    repeat split; [lia | exact Hn |].
    intros [|j] Hj; [exact Hne | apply Hfirst; lia].
Qed.

Lemma std_find_none tmp pts : std_find tmp pts = None -> ~ In tmp pts.
Proof.
  induction pts as [|p pts IH]; simpl; intros H; [tauto|].
  destruct (pair_eqb_spec p tmp) as [-> | Hne]; [discriminate|].
  destruct (std_find tmp pts); [discriminate|].
  intros [E | Hin]; [contradiction | exact (IH eq_refl Hin)].
Qed.

Lemma nth_app_l {A} (l l' : list A) d k : k < length l -> nth k (l ++ l') d = nth k l d.
Proof. intros. now apply app_nth1. Qed.

Lemma nth_last {A} (l : list A) x d : nth (length l) (l ++ [x]) d = x.
Proof. rewrite app_nth2 by lia. now rewrite Nat.sub_diag. Qed.

Lemma Inv_step master seen st c :
  Inv master seen st ->
  Inv master (seen ++ [cell_of c]) (prepare_step master (length seen) c st).
Proof.
  intros [Hnd Hsame Hlen Hfirst Hwarn Hcount].
  assert (Hwarn' : forall w, In w (l_cout st) ->
      dup_orig_idx w < dup_ii w /\ dup_ii w < length (seen ++ [cell_of c]) /\
      nth (dup_orig_idx w) (seen ++ [cell_of c]) (0, 0)%Z
        = nth (dup_ii w) (seen ++ [cell_of c]) (0, 0)%Z /\
      forall j, j < dup_orig_idx w ->
        nth j (seen ++ [cell_of c]) (0, 0)%Z <> nth (dup_ii w) (seen ++ [cell_of c]) (0, 0)%Z).
  { intros w Hw. destruct (Hwarn w Hw) as (H1 & H2 & H3 & H4).
    rewrite length_app. simpl. repeat split; [lia | lia | |].
    - rewrite !nth_app_l by lia. exact H3.
    - intros j Hj. rewrite !nth_app_l by lia. now apply H4. }
  assert (Hfirst' : forall k, k < length (l_pts st) ->
      let idx := nth k (l_vec_idx st) 0 in
      idx < length (seen ++ [cell_of c]) /\
      nth idx (seen ++ [cell_of c]) (0, 0)%Z = nth k (l_pts st) (0, 0)%Z /\
      forall j, j < idx -> nth j (seen ++ [cell_of c]) (0, 0)%Z <> nth k (l_pts st) (0, 0)%Z).
  { intros k Hk. destruct (Hfirst k Hk) as (H1 & H2 & H3). simpl.
    rewrite length_app. simpl. repeat split; [lia | |].
    - rewrite nth_app_l by lia. exact H2.
    - intros j Hj. rewrite nth_app_l by lia. now apply H3. }
  unfold prepare_step. fold (cell_of c).
  destruct (std_find (cell_of c) (l_pts st)) as [pos|] eqn:Hfind.
  - (* a duplicate *)
    destruct (std_find_some _ _ Hfind) as (Hpos & Hnth & Hbefore).
    assert (Hin : In (cell_of c) seen).
    { apply Hsame. rewrite <- Hnth. now apply nth_In. }
    assert (Hsame' : forall p, In p (l_pts st) <-> In p (seen ++ [cell_of c])).
    { intros p. rewrite in_app_iff, Hsame. simpl. split; [tauto|].
      intros [H | [<- | []]]; assumption. }
    destruct master.
    + constructor; simpl; auto.
      * intros w Hw. apply in_app_or in Hw. destruct Hw as [Hw | [<- | []]]; [auto|].
        simpl. destruct (Hfirst pos Hpos) as (H1 & H2 & H3). simpl in *.
        rewrite length_app. simpl. repeat split; [lia | lia | |].
        -- rewrite nth_app_l by lia. rewrite nth_last. now rewrite H2.
        -- intros j Hj. rewrite nth_app_l by lia. rewrite nth_last.
           rewrite <- Hnth. now apply H3.
      * rewrite !length_app. simpl. lia.
    + constructor; simpl; auto.
  - (* a new cell *)
    pose proof (std_find_none _ _ Hfind) as Hnew.
    assert (Hnew' : forall j, j < length seen -> nth j seen (0, 0)%Z <> cell_of c).
    { intros j Hj E. apply Hnew, Hsame. rewrite <- E. now apply nth_In. }
    constructor; simpl.
    + apply NoDup_app; [exact Hnd | repeat constructor; auto |].
      intros x Hx [<- | []]. contradiction.
    + intros p. rewrite !in_app_iff, Hsame. tauto.
    + rewrite !length_app. simpl. lia.
    + intros k Hk. rewrite length_app in Hk. simpl in Hk.
      destruct (Nat.eq_dec k (length (l_pts st))) as [-> | Hne].
      * assert (E : nth (length (l_pts st)) (l_vec_idx st ++ [length seen]) 0 = length seen)
          by (rewrite <- Hlen; apply nth_last).
        rewrite E, !nth_last, length_app. simpl.
        repeat split; [lia|].
        intros j Hj. rewrite nth_app_l by lia. now apply Hnew'.
      * cbv zeta. rewrite (nth_app_l (l_vec_idx st)), (nth_app_l (l_pts st)) by lia.
        apply (Hfirst' k). lia.
    + exact Hwarn'.
    + destruct master; [|exact Hcount]. rewrite !length_app. simpl. lia.
Qed.

Lemma Inv_loop master rest : forall seen st,
  Inv master seen st ->
  Inv master (seen ++ map cell_of rest) (prepare_loop master (length seen) rest st).
Proof.
  induction rest as [|c rest IH]; intros seen st H; simpl.
  - now rewrite app_nil_r.
  - specialize (IH (seen ++ [cell_of c]) _ (Inv_step c H)).
    rewrite length_app in IH. simpl in IH. rewrite Nat.add_1_r in IH.
    now rewrite <- app_assoc in IH.
Qed.

Lemma Inv_init master : Inv master [] (mkLoop [] [] []).
Proof.
  constructor; simpl; try tauto; try lia.
  - constructor.
  - destruct master; reflexivity.
Qed.

Lemma cell_of_valid c :
  valid_index (getGridI c) -> valid_index (getGridJ c) ->
  cell_of c = (getGridI c, getGridJ c).
Proof. intros. unfold cell_of. now rewrite !size_t_of_valid. Qed.

(** C8. After prepare_pts the registry holds exactly one entry per distinct
    grid cell of the input, sorted ascending by row and then by column; a
    duplicate is not added but reported (on the master process) against the
    first point registered at its cell; whatever order std::sort visits its
    input in, this is the order it leaves. The registered coordinates
    (3,1), (1,1), (1,0) end up as (1,0), (1,1), (3,1). *)
Theorem prepare_pts_registry (master : bool) (vec_pts : list Coords) :
  (forall c, In c vec_pts -> valid_index (getGridI c) /\ valid_index (getGridJ c)) ->
  let pts := fst (prepare_pts master vec_pts) in
  let cout := snd (prepare_pts master vec_pts) in
  let cells := map (fun c => (getGridI c, getGridJ c)) vec_pts in
  NoDup pts /\
  (forall p, In p pts <-> In p cells) /\
  StronglySorted row_col_lt pts /\
  (forall sorted, Permutation sorted pts -> StronglySorted row_col_lt sorted ->
                  sorted = pts) /\
  (forall w, In w cout ->
     dup_orig_idx w < dup_ii w /\ dup_ii w < length vec_pts /\
     nth (dup_orig_idx w) cells (0, 0)%Z = nth (dup_ii w) cells (0, 0)%Z /\
     forall j, j < dup_orig_idx w -> nth j cells (0, 0)%Z <> nth (dup_ii w) cells (0, 0)%Z) /\
  (if master then length pts + length cout = length vec_pts else cout = []) /\
  fst (prepare_pts master [mkCoords 3 1; mkCoords 1 1; mkCoords 1 0])
    = [(1, 0); (1, 1); (3, 1)]%Z.
Proof.
  intros Hvalid. simpl.
  assert (Hcells : map cell_of vec_pts = map (fun c => (getGridI c, getGridJ c)) vec_pts).
  { apply map_ext_in. intros c Hc. destruct (Hvalid c Hc). now apply cell_of_valid. }
  pose proof (Inv_loop vec_pts (Inv_init master)) as H.
  simpl in H. rewrite Hcells in H.
  destruct H as [Hnd Hsame Hlen Hfirst Hwarn Hcount].
  set (st := prepare_loop master 0 vec_pts (mkLoop [] [] [])) in *.
  pose proof (std_sort_perm pts_less (l_pts st)) as Hperm.
  assert (Hnd' : NoDup (std_sort pts_less (l_pts st))).
  { eapply Permutation_NoDup; [apply Permutation_sym, Hperm | exact Hnd]. }
  assert (Hin : forall p, In p (std_sort pts_less (l_pts st)) <->
                          In p (map (fun c => (getGridI c, getGridJ c)) vec_pts)).
  { intros p. rewrite <- Hsame. split; apply Permutation_in;
      [exact Hperm | apply Permutation_sym, Hperm]. }
  assert (Hsorted : StronglySorted row_col_lt (std_sort pts_less (l_pts st))).
  { apply strict_of_le; [| exact Hnd' | apply std_sort_sorted].
    rewrite Forall_forall. intros p Hp. apply Hin in Hp.
    apply in_map_iff in Hp. destruct Hp as (c & <- & Hc). exact (Hvalid c Hc). }
  split; [exact Hnd'|].
  split; [exact Hin|].
  split; [exact Hsorted|].
  split; [intros sorted Hp Hs; apply sorted_perm_unique; assumption|].
  split.
  { intros w Hw. destruct (Hwarn w Hw) as (H1 & H2 & H3 & H4).
    rewrite length_map in H2. auto. }
  split.
  { destruct master; [|exact Hcount].
    rewrite (Permutation_length Hperm). now rewrite length_map in Hcount. }
  destruct master; reflexivity.
Qed.

(** The registration of (3,1), (1,1), (1,0) and of a second point in (1,1). *)
Lemma prepare_pts_registry_witness :
  prepare_pts true [mkCoords 3 1; mkCoords 1 1; mkCoords 1 0; mkCoords 1 1]
    = ([(1, 0); (1, 1); (3, 1)]%Z, [mkWarning 3 1]) /\
  StronglySorted row_col_lt
    (fst (prepare_pts true [mkCoords 3 1; mkCoords 1 1; mkCoords 1 0; mkCoords 1 1])).
Proof.
  split; [reflexivity|].
  apply (prepare_pts_registry true
           [mkCoords 3 1; mkCoords 1 1; mkCoords 1 0; mkCoords 1 1]).
  intros c Hc. unfold valid_index.
  simpl in Hc. destruct Hc as [<- | [<- | [<- | [<- | []]]]]; simpl; lia.
Defined.

End PoiFacts.

(** ** The coordinator *)

Section Facts.
Context {mio : MeteoIO} {cm : CellModel} {ext : Collaborators}.
Local Open Scope coord_scope.

(** *** Arrays *)

Lemma nth_map_seq {A} (g : nat -> A) (n k : nat) (d : A) :
  k < n -> nth k (map g (seq 0 n)) d = g k.
Proof.
  intros Hk.
  rewrite (nth_indep _ d (g 0)) by (rewrite length_map, length_seq; exact Hk).
  rewrite map_nth. f_equal. rewrite seq_nth by exact Hk. reflexivity.
Qed.

Lemma cell_tabulate (nx ny : nat) (f : nat -> nat -> double) (x y : nat) :
  x < nx -> y < ny -> cell (tabulate nx ny f) x y = f x y.
Proof.
  intros Hx Hy. unfold cell, tabulate. simpl.
  rewrite nth_map_seq by nia.
  rewrite Nat.Div0.mod_add, Nat.mod_small by exact Hx.
  rewrite Nat.div_add, Nat.div_small by lia.
  reflexivity.
Qed.

Lemma in_window_true (start len x : nat) :
  in_window start len x = true <-> start <= x < start + len.
Proof.
  unfold in_window. rewrite andb_true_iff, Nat.leb_le, Nat.ltb_lt. tauto.
Qed.

Lemma in_window_false (start len x : nat) :
  in_window start len x = false <-> ~ (start <= x < start + len).
Proof.
  rewrite <- in_window_true. destruct (in_window start len x); split; congruence.
Qed.

Lemma cell_fill (a src : Array2D) (i_nx i_ny i_ncols i_nrows x y : nat) :
  x < getNx a -> y < getNy a ->
  cell (fill a src i_nx i_ny i_ncols i_nrows) x y =
  if in_window i_nx i_ncols x && in_window i_ny i_nrows y
  then cell src (x - i_nx) (y - i_ny) else cell a x y.
Proof. intros. unfold fill. now rewrite cell_tabulate. Qed.

(** *** Calls that return: what they keep and what they emit *)

Section Keeps.
Context {X : Type} (proj : SnowpackInterface -> X) (P : Event -> Prop).

Lemma keeps_ret {A} (a : A) : keeps proj P (ret a).
Proof.
  intros [s tr]. exists a, s, []. simpl. rewrite app_nil_r. auto.
Qed.

Lemma keeps_bind {A B} (m : M A) (k : A -> M B) :
  keeps proj P m -> (forall a, keeps proj P (k a)) -> keeps proj P (bind m k).
Proof.
  intros Hm Hk st. destruct (Hm st) as (a & s1 & e1 & E1 & K1 & F1).
  destruct (Hk a (mkState s1 (trace st ++ e1))) as (b & s2 & e2 & E2 & K2 & F2).
  exists b, s2, (e1 ++ e2). unfold bind. rewrite E1, E2. simpl in *.
  rewrite app_assoc. repeat split; [congruence | now apply Forall_app].
Qed.

Lemma keeps_this : keeps proj P this.
Proof.
  intros [s tr]. exists s, s, []. unfold this. simpl. rewrite app_nil_r. auto.
Qed.

Lemma keeps_modify (f : SnowpackInterface -> SnowpackInterface) :
  (forall s, proj (f s) = proj s) -> keeps proj P (modify f).
Proof.
  intros Hf [s tr]. exists tt, (f s), []. unfold modify. simpl.
  rewrite app_nil_r. auto.
Qed.

Lemma keeps_emit_all (evs : list Event) : Forall P evs -> keeps proj P (emit_all evs).
Proof. intros H [s tr]. exists tt, s, evs. auto. Qed.

Lemma keeps_emit (ev : Event) : P ev -> keeps proj P (emit ev).
Proof. intros H. apply keeps_emit_all. auto. Qed.

Lemma keeps_when (b : bool) (m : M unit) : keeps proj P m -> keeps proj P (when b m).
Proof. destruct b; simpl; [auto | intros; apply keeps_ret]. Qed.

Lemma keeps_for_each {A} (body : A -> M unit) (l : list A) :
  (forall a, keeps proj P (body a)) -> keeps proj P (for_each body l).
Proof.
  intros H. induction l as [|a l IH]; simpl.
  - apply keeps_ret.
  - apply keeps_bind; auto.
Qed.

End Keeps.

Lemma keeps_weaken {A X Y} (proj : SnowpackInterface -> X) (proj' : SnowpackInterface -> Y)
      (P Q : Event -> Prop) (m : M A) :
  (forall s s', proj s' = proj s -> proj' s' = proj' s) ->
  (forall ev, P ev -> Q ev) ->
  keeps proj P m -> keeps proj' Q m.
Proof.
  intros Hp Hq H st. destruct (H st) as (a & s' & evs & E & K & F).
  exists a, s', evs. repeat split; auto. eapply Forall_impl; eauto.
Qed.

Lemma Forall_map_seq {A} (P : A -> Prop) (g : nat -> A) (l : list nat) :
  (forall k, P (g k)) -> Forall P (map g l).
Proof. intros H. apply Forall_forall. intros x Hx. apply in_map_iff in Hx. destruct Hx as (k & <- & _). apply H. Qed.

(** Breaks a call into its parts. *)
Ltac keeps_steps_with known :=
  repeat first
    [ known
    | apply keeps_ret
    | apply keeps_this
    | apply keeps_bind; [|intros ?]
    | apply keeps_when
    | apply keeps_for_each; intros ?
    | apply keeps_modify; intros ?; reflexivity
    | apply keeps_emit; solve [simpl; tauto]
    | apply keeps_emit_all;
      solve [ repeat constructor; simpl; tauto
            | apply Forall_map_seq; intros; simpl; tauto ]
    | match goal with
      | |- keeps _ _ (if ?b then _ else _) => destruct b
      | |- keeps _ _ (let (_, _) := ?p in _) => destruct p
      end ].

Ltac keeps_steps := keeps_steps_with fail.

(** *** Calls that return or throw *)

Section Ends.
Context {X : Type} (proj : SnowpackInterface -> X) (P : Event -> Prop).

Lemma keeps_ends {A} (m : M A) : keeps proj P m -> ends proj P m.
Proof.
  intros H st. destruct (H st) as (a & s' & evs & E & K & F).
  exists s', evs. eauto.
Qed.

Lemma ends_throw {A} (e : Exception) : ends proj P (@throw _ _ _ A e).
Proof.
  intros [s tr]. exists s, []. unfold throw. simpl. rewrite app_nil_r. eauto.
Qed.

Lemma ends_bind {A B} (m : M A) (k : A -> M B) :
  ends proj P m -> (forall a, ends proj P (k a)) -> ends proj P (bind m k).
Proof.
  intros Hm Hk st. destruct (Hm st) as (s1 & e1 & K1 & F1 & [[a E1] | [e E1]]).
  - destruct (Hk a (mkState s1 (trace st ++ e1))) as (s2 & e2 & K2 & F2 & H2).
    exists s2, (e1 ++ e2). unfold bind. rewrite E1. simpl in *.
    rewrite app_assoc. split; [congruence|]. split; [now apply Forall_app|]. exact H2.
  - exists s1, e1. unfold bind. rewrite E1. eauto.
Qed.

Lemma ends_when (b : bool) (m : M unit) : ends proj P m -> ends proj P (when b m).
Proof. destruct b; simpl; [auto | intros; apply keeps_ends, keeps_ret]. Qed.

Lemma ends_for_each {A} (body : A -> M unit) (l : list A) :
  (forall a, ends proj P (body a)) -> ends proj P (for_each body l).
Proof.
  intros H. induction l as [|a l IH]; simpl.
  - apply keeps_ends, keeps_ret.
  - apply ends_bind; auto.
Qed.

End Ends.

Lemma ends_weaken {A X Y} (proj : SnowpackInterface -> X) (proj' : SnowpackInterface -> Y)
      (P Q : Event -> Prop) (m : M A) :
  (forall s s', proj s' = proj s -> proj' s' = proj' s) ->
  (forall ev, P ev -> Q ev) ->
  ends proj P m -> ends proj' Q m.
Proof.
  intros Hp Hq H st. destruct (H st) as (s' & evs & K & F & E).
  exists s', evs. repeat split; auto. eapply Forall_impl; eauto.
Qed.

(** Breaks a call that may throw into its parts. *)
Ltac ends_steps_with known :=
  repeat first
    [ known
    | apply ends_throw
    | apply ends_bind; [|intros ?]
    | apply ends_when
    | apply ends_for_each; intros ?
    | match goal with
      | |- ends _ _ (if ?b then _ else _) => destruct b
      | |- ends _ _ (match ?o with Some _ => _ | None => _ end) => destruct o
      end
    | apply keeps_ends; solve [keeps_steps] ].

(** *** getGrid *)

Lemma getGrid_keeps (param : Parameters) : keeps (fun s => s) is_query (getGrid param).
Proof.
  unfold getGrid. apply keeps_bind; [apply keeps_this|]. intros s.
  destruct param; keeps_steps.
Qed.

Lemma getGrid_forcing (param : Parameters) (st : State) :
  is_forcing_parameter param = true ->
  getGrid param st = Returned (stored param (forcing (self st))) st.
Proof. destruct param; simpl; intros H; try discriminate; reflexivity. Qed.

(** getGrid for a parameter the workers compute. *)
Lemma getGrid_workers (param : Parameters) (st : State) :
  is_forcing_parameter param = false ->
  getGrid param st =
  let s := self st in
  let queries := map (fun ii => Worker_getGrid ii param) (seq 0 (length (workers s))) in
  let r := gather (setup s) param 0 (workers s) (grid_like (dem (setup s)) zero) 0 in
  if 0 <? snd r
  then Returned (grid_clear (allreduce_sum (fst r)))
                (mkState s ((trace st ++ queries) ++ [Cerr_not_available param]))
  else Returned (allreduce_sum (fst r)) (mkState s (trace st ++ queries)).
Proof.
  intros H. destruct st as [s tr].
  destruct param; try discriminate H; cbn -[gather Nat.ltb seq];
    destruct (gather _ _ _ _ _ _) as [o e]; cbn -[Nat.ltb seq];
    destruct (0 <? e); reflexivity.
Qed.

(** C10. getGrid is read-only on the coordinator: for every parameter the
    call returns and leaves the whole object as it was, in particular the
    stored forcing grids, the four readiness flags, the partition of the
    workers and the timestamp of the next step; all it adds to the world is
    its queries to the workers and its warning. *)
Theorem getGrid_read_only (param : Parameters) (st : State) :
  exists grid evs,
    getGrid param st = Returned grid (mkState (self st) (trace st ++ evs)) /\
    Forall is_query evs /\
    let s' := self (final (getGrid param st)) in
    forcing s' = forcing (self st) /\
    flags s' = flags (self st) /\
    worker_startx (setup s') = worker_startx (setup (self st)) /\
    worker_deltax (setup s') = worker_deltax (setup (self st)) /\
    nextStepTimestamp s' = nextStepTimestamp (self st).
Proof.
  destruct (getGrid_keeps param st) as (g & s' & evs & E & K & F).
  simpl in K. subst s'. exists g, evs. rewrite E. simpl. auto 10.
Qed.

(** *** The loop of getGrid *)

Lemma gather_errCount su param : forall ws ii o e,
  snd (gather su param ii ws o e) =
  e + length (filter (fun w => grid_empty (worker_getGrid w param)) ws).
Proof.
  induction ws as [|w ws IH]; intros ii o e; simpl.
  - lia.
  - destruct (grid_empty (worker_getGrid w param)); simpl; rewrite IH; lia.
Qed.

Lemma gather_shape su param : forall ws ii o e,
  let o' := fst (gather su param ii ws o e) in
  getNx (grid2D o') = getNx (grid2D o) /\
  getNy (grid2D o') = getNy (grid2D o) /\
  geoloc o' = geoloc o.
Proof.
  induction ws as [|w ws IH]; intros ii o e; simpl.
  - auto.
  - destruct (grid_empty (worker_getGrid w param)); simpl.
    + apply IH.
    + destruct (IH (S ii)
                  (set_grid2D o (fill (grid2D o) (grid2D (worker_getGrid w param))
                     (nth ii (worker_startx su) 0) 0 (nth ii (worker_deltax su) 0) (dimy su)))
                  e) as (H1 & H2 & H3).
      simpl in *. auto.
Qed.

Lemma gather_cells su param : forall ws ii o e,
  getNy (grid2D o) = dimy su ->
  (forall w, In w ws -> grid_empty (worker_getGrid w param) = false) ->
  (forall k k' x, k < length ws -> k' < length ws -> k <> k' ->
                  owns su (ii + k) x = true -> owns su (ii + k') x = false) ->
  forall x y, x < getNx (grid2D o) -> y < getNy (grid2D o) ->
    let o' := fst (gather su param ii ws o e) in
    (forall k w, nth_error ws k = Some w -> owns su (ii + k) x = true ->
       cell (grid2D o') x y
       = cell (grid2D (worker_getGrid w param)) (x - nth (ii + k) (worker_startx su) 0) y) /\
    ((forall k, k < length ws -> owns su (ii + k) x = false) ->
       cell (grid2D o') x y = cell (grid2D o) x y).
Proof.
  induction ws as [|w ws IH]; intros ii o e Hny Hav Hdisj x y Hx Hy; simpl.
  - split; [intros [|k] w' H; discriminate | reflexivity].
  - rewrite (Hav w (or_introl eq_refl)). simpl.
    set (o1 := set_grid2D o (fill (grid2D o) (grid2D (worker_getGrid w param))
                 (nth ii (worker_startx su) 0) 0 (nth ii (worker_deltax su) 0) (dimy su))).
    assert (Hcell1 : cell (grid2D o1) x y =
                     if owns su ii x
                     then cell (grid2D (worker_getGrid w param))
                               (x - nth ii (worker_startx su) 0) y
                     else cell (grid2D o) x y).
    { unfold o1. simpl. rewrite cell_fill by assumption.
      assert (Hwy : in_window 0 (dimy su) y = true) by (apply in_window_true; lia).
      rewrite Hwy, andb_true_r, Nat.sub_0_r. reflexivity. }
    destruct (IH (S ii) o1 e) with (x := x) (y := y) as [IH1 IH2]; auto.
    { intros w' Hw'. apply Hav. now right. }
    { intros k k' x' Hk Hk' Hne Hown.
      replace (S ii + k) with (ii + S k) in Hown by lia.
      replace (S ii + k') with (ii + S k') by lia.
      apply (Hdisj (S k) (S k')) in Hown; simpl; auto; lia. }
    split.
    + intros [|k] w' Hw' Hown; simpl in Hw'.
      * injection Hw' as <-. rewrite Nat.add_0_r in *.
        rewrite IH2, Hcell1, Hown; [reflexivity|].
        intros k Hk. replace (S ii + k) with (ii + S k) by lia.
        apply (Hdisj 0 (S k)); simpl; try lia. now rewrite Nat.add_0_r.
      * replace (ii + S k) with (S ii + k) in * by lia. now apply IH1.
    + intros Hnone. rewrite IH2.
      * rewrite Hcell1. specialize (Hnone 0). rewrite Nat.add_0_r in Hnone.
        rewrite Hnone; [reflexivity | simpl; lia].
      * intros k Hk. replace (S ii + k) with (ii + S k) by lia.
        apply Hnone. simpl. lia.
Qed.

Lemma filter_none {A} (f : A -> bool) (l : list A) :
  (forall a, In a l -> f a = false) -> filter f l = [].
Proof.
  induction l as [|a l IH]; simpl; intros H; [reflexivity|].
  rewrite (H a (or_introl eq_refl)). apply IH. intros b Hb. apply H. now right.
Qed.

(** C5. For a parameter the workers compute and every worker reports, over
    workers that own non-overlapping column ranges of the domain, getGrid
    returns the cross-process sum-reduction of a full-domain grid that holds
    each worker's sub-grid at that worker's column offset and zero in the
    columns no worker owns: every cell comes from the one worker owning its
    column. *)
Theorem getGrid_aggregation (param : Parameters) (st : State) :
  let s := self st in
  let su := setup s in
  is_forcing_parameter param = false ->
  (forall w, In w (workers s) -> grid_empty (worker_getGrid w param) = false) ->
  dimx su = getNx (grid2D (dem su)) ->
  dimy su = getNy (grid2D (dem su)) ->
  (forall ii w, nth_error (workers s) ii = Some w ->
     getNx (grid2D (worker_getGrid w param)) = nth ii (worker_deltax su) 0 /\
     getNy (grid2D (worker_getGrid w param)) = dimy su /\
     nth ii (worker_startx su) 0 + nth ii (worker_deltax su) 0 <= dimx su) ->
  (forall ii jj x, ii < length (workers s) -> jj < length (workers s) -> ii <> jj ->
     owns su ii x = true -> owns su jj x = false) ->
  exists o,
    getGrid param st = Returned (allreduce_sum o) (mkState s (trace st ++ queries s param)) /\
    geoloc o = geoloc (dem su) /\
    getNx (grid2D o) = dimx su /\ getNy (grid2D o) = dimy su /\
    (forall ii w u v, nth_error (workers s) ii = Some w ->
       u < getNx (grid2D (worker_getGrid w param)) ->
       v < getNy (grid2D (worker_getGrid w param)) ->
       cell (grid2D o) (nth ii (worker_startx su) 0 + u) v
       = cell (grid2D (worker_getGrid w param)) u v) /\
    (forall x y, x < dimx su -> y < dimy su ->
       (forall ii, ii < length (workers s) -> owns su ii x = false) ->
       cell (grid2D o) x y = zero).
Proof.
  intros s su Hparam Hav Hdimx Hdimy Hslice Hdisj.
  rewrite (getGrid_workers _ st Hparam). cbv zeta. fold s su.
  set (o0 := grid_like (dem su) zero).
  rewrite gather_errCount.
  assert (Hnone : filter (fun w => grid_empty (worker_getGrid w param)) (workers s) = []).
  { apply filter_none. exact Hav. }
  rewrite Hnone. simpl.
  exists (fst (gather su param 0 (workers s) o0 0)).
  destruct (gather_shape su param (workers s) 0 o0 0) as (Hnx & Hny & Hgeo).
  simpl in Hnx, Hny, Hgeo.
  assert (Hcells := fun x y => @gather_cells su param (workers s) 0 o0 0
                       (eq_sym Hdimy) Hav
                       (fun k k' x => Hdisj k k' x) x y).
  simpl in Hcells.
  split; [reflexivity|]. split; [exact Hgeo|].
  split; [congruence|]. split; [congruence|]. split.
  - intros ii w u v Hw Hu Hv.
    destruct (Hslice ii w Hw) as (Hwx & Hwy & Hfit).
    destruct (Hcells (nth ii (worker_startx su) 0 + u) v) as [H1 _]; [lia | lia |].
    rewrite (H1 ii w Hw).
    + f_equal. lia.
    + apply in_window_true. lia.
  - intros x y Hx Hy Hout.
    destruct (Hcells x y) as [_ H2]; [lia | lia |].
    rewrite H2 by exact Hout.
    unfold o0, grid_like. simpl. apply cell_tabulate; lia.
Qed.

(** C6. When a worker reports the requested parameter as unavailable (its
    local grid is empty), getGrid warns and returns an empty grid: the call
    returns normally, nothing of the grid assembled so far is handed out, and
    the coordinator is left as it was. *)
Theorem getGrid_unavailable (param : Parameters) (st : State) :
  is_forcing_parameter param = false ->
  (exists w, In w (workers (self st)) /\ grid_empty (worker_getGrid w param) = true) ->
  exists grid,
    getGrid param st
    = Returned grid (mkState (self st)
                             ((trace st ++ queries (self st) param)
                                ++ [Cerr_not_available param])) /\
    grid_empty grid = true /\
    getNx (grid2D grid) = 0 /\ getNy (grid2D grid) = 0 /\ vecData (grid2D grid) = [].
Proof.
  intros Hparam (w & Hw & Hempty).
  rewrite (getGrid_workers _ st Hparam). cbv zeta.
  rewrite gather_errCount. simpl.
  assert (Hin : In w (filter (fun w => grid_empty (worker_getGrid w param))
                             (workers (self st)))).
  { apply filter_In. auto. }
  destruct (filter _ _) as [|w0 l] eqn:E; [contradiction|].
  simpl. eexists. split; [reflexivity|]. simpl. auto.
Qed.

(** *** The setters: timing *)

Section Rejected.
Variables (st : State) (timestamp : Date).
Hypothesis mismatch : date_neq (nextStepTimestamp (self st)) timestamp = true.

Lemma setMeteo_rejects new_psum new_psum_ph new_vw new_rh new_ta :
  setMeteo new_psum new_psum_ph new_vw new_rh new_ta timestamp st
  = Thrown (InvalidArgumentException Meteo)
           (mkState (self st)
                    (trace st ++ timing_log Meteo timestamp (nextStepTimestamp (self st)))).
Proof.
  destruct st as [s tr]. simpl in *. unfold setMeteo, timing_log, bind, this. simpl.
  rewrite mismatch. destruct mpi_master; simpl; rewrite ?app_nil_r; reflexivity.
Qed.

Lemma setRadiationComponents_rejects shortwave_in longwave_in diff_in solarElevation_in :
  setRadiationComponents shortwave_in longwave_in diff_in solarElevation_in timestamp st
  = Thrown (InvalidArgumentException Radiation)
           (mkState (self st)
                    (trace st ++ timing_log Radiation timestamp (nextStepTimestamp (self st)))).
Proof.
  destruct st as [s tr]. simpl in *.
  unfold setRadiationComponents, timing_log, bind, this. simpl.
  rewrite mismatch. destruct mpi_master; simpl; rewrite ?app_nil_r; reflexivity.
Qed.

Lemma setSnowMassChange_rejects new_mns :
  setSnowMassChange new_mns timestamp st
  = Thrown (InvalidArgumentException SnowDrift)
           (mkState (self st)
                    (trace st ++ timing_log SnowDrift timestamp (nextStepTimestamp (self st)))).
Proof.
  destruct st as [s tr]. simpl in *.
  unfold setSnowMassChange, timing_log, bind, this. simpl.
  rewrite mismatch. destruct mpi_master; simpl; rewrite ?app_nil_r; reflexivity.
Qed.

Lemma assimilate_rejects daData :
  assimilate daData timestamp st = Thrown (InvalidArgumentException Assimilation) st.
Proof.
  destruct st as [s tr]. simpl in *. unfold assimilate, bind, this. simpl.
  now rewrite mismatch.
Qed.

End Rejected.

(** C2. A producer setter called with a timestamp that differs from the
    coordinator's expected one fails with the timing-mismatch error of its
    producer and leaves the coordinator as it was: readiness flags, stored
    forcing grids and expected timestamp unchanged, no step run; the master
    process logs the two timestamps (assimilate logs nothing). *)
Theorem timing_mismatch_rejected (st : State) (timestamp : Date) :
  date_neq (nextStepTimestamp (self st)) timestamp = true ->
  let next := nextStepTimestamp (self st) in
  (forall new_psum new_psum_ph new_vw new_rh new_ta,
     setMeteo new_psum new_psum_ph new_vw new_rh new_ta timestamp st
     = Thrown (InvalidArgumentException Meteo)
              (mkState (self st) (trace st ++ timing_log Meteo timestamp next))) /\
  (forall shortwave_in longwave_in diff_in solarElevation_in,
     setRadiationComponents shortwave_in longwave_in diff_in solarElevation_in timestamp st
     = Thrown (InvalidArgumentException Radiation)
              (mkState (self st) (trace st ++ timing_log Radiation timestamp next))) /\
  (forall new_mns,
     setSnowMassChange new_mns timestamp st
     = Thrown (InvalidArgumentException SnowDrift)
              (mkState (self st) (trace st ++ timing_log SnowDrift timestamp next))) /\
  (forall daData,
     assimilate daData timestamp st = Thrown (InvalidArgumentException Assimilation) st).
Proof.
  intros H next. repeat split; intros.
  - now apply setMeteo_rejects.
  - now apply setRadiationComponents_rejects.
  - now apply setSnowMassChange_rejects.
  - now apply assimilate_rejects.
Qed.

(** *** calcNextStep: the gate *)

(** C3. When calcNextStep finds the meteo flag set and the flag of every
    attached optional producer set, but the radiation flag unset, it throws
    the no-data error and does nothing else: no flag is cleared, no step
    runs. This happens only when no energy-balance module is attached. *)
Theorem radiation_is_mandatory (st : State) :
  dataMeteo2D (flags (self st)) = true ->
  attached_ready (self st) ->
  dataRadiation (flags (self st)) = false ->
  calcNextStep st = Thrown NoDataException st /\ eb (setup (self st)) = false.
Proof.
  intros Hm (Hdrift & Hda & Heb) Hrad. destruct st as [s tr]. simpl in *.
  assert (Heb' : eb (setup s) = false).
  { destruct (eb (setup s)); [|reflexivity]. rewrite Heb in Hrad; congruence. }
  split; [|exact Heb'].
  unfold calcNextStep, bind, this. simpl.
  rewrite Hm, Hrad, Heb'. simpl.
  destruct (drift (setup s)); [rewrite Hdrift by reflexivity|]; simpl;
    (destruct (da (setup s)); [rewrite Hda by reflexivity|]); reflexivity.
Qed.

(** *** The step *)

Lemma bind_keeps {A B X} (proj : SnowpackInterface -> X) (P : Event -> Prop)
      (m : M A) (k : A -> M B) (st : State) :
  keeps proj P m ->
  exists a s' evs,
    proj s' = proj (self st) /\ Forall P evs /\
    bind m k st = k a (mkState s' (trace st ++ evs)).
Proof.
  intros H. destruct (H st) as (a & s' & evs & E & K & F).
  exists a, s', evs. unfold bind. rewrite E. auto.
Qed.

Lemma bind_ret {A B} (a : A) (k : A -> M B) (st : State) : bind (ret a) k st = k a st.
Proof. reflexivity. Qed.

Lemma bind_returned {A B} (m : M A) (k : A -> M B) (st st' : State) (a : A) :
  m st = Returned a st' -> bind m k st = k a st'.
Proof. intros H. unfold bind. now rewrite H. Qed.

Lemma bind_thrown {A B} (m : M A) (k : A -> M B) (st st' : State) (e : Exception) :
  m st = Thrown e st' -> bind m k st = Thrown e st'.
Proof. intros H. unfold bind. now rewrite H. Qed.

Lemma bind_aborted {A B} (m : M A) (k : A -> M B) (st st' : State) :
  m st = Aborted st' -> bind m k st = Aborted st'.
Proof. intros H. unfold bind. now rewrite H. Qed.

Lemma bind_this {B} (k : SnowpackInterface -> M B) (st : State) :
  bind this k st = k (self st) st.
Proof. reflexivity. Qed.

Lemma bind_modify {B} (f : SnowpackInterface -> SnowpackInterface) (k : unit -> M B)
      (st : State) :
  bind (modify f) k st = k tt (mkState (f (self st)) (trace st)).
Proof. reflexivity. Qed.

Lemma bind_emit_all {B} (evs : list Event) (k : unit -> M B) (st : State) :
  bind (emit_all evs) k st = k tt (mkState (self st) (trace st ++ evs)).
Proof. reflexivity. Qed.

Lemma bind_emit {B} (ev : Event) (k : unit -> M B) (st : State) :
  bind (emit ev) k st = k tt (mkState (self st) (trace st ++ [ev])).
Proof. reflexivity. Qed.

Lemma is_query_publication ev : is_query ev -> is_publication ev.
Proof. destruct ev; simpl; tauto. Qed.

Lemma getGrid_publication (param : Parameters) :
  keeps (fun s => s) is_publication (getGrid param).
Proof.
  eapply keeps_weaken; [| apply is_query_publication | apply getGrid_keeps]. auto.
Qed.

Lemma poi_snow_cover_keeps date process :
  keeps (fun s => s) is_poi_output (poi_snow_cover date process).
Proof. unfold poi_snow_cover. keeps_steps. Qed.

Lemma call_writeOutputSpecialPoints_ends date process points :
  ends (fun s => s) is_poi_output (call_writeOutputSpecialPoints date process points).
Proof.
  unfold call_writeOutputSpecialPoints.
  apply ends_bind; [apply keeps_ends, keeps_this|]. intros s.
  ends_steps_with fail.
Qed.

(** The special points output returns or throws; it changes nothing of the
    coordinator but snow_poi_written. *)
Lemma write_special_points_ends : ends but_poi_written is_poi_output write_special_points.
Proof.
  unfold write_special_points. apply ends_bind; [apply keeps_ends, keeps_this|]. intros s.
  ends_steps_with
    ltac:(first [ eapply ends_weaken; [| | apply call_writeOutputSpecialPoints_ends];
                  [intros ? ? ->; reflexivity | auto]
                | apply keeps_ends; eapply keeps_weaken; [| | apply poi_snow_cover_keeps];
                  [intros ? ? ->; reflexivity | auto] ]).
Qed.

Lemma writeOutput_keeps date : keeps (fun s => s) is_publication (writeOutput date).
Proof.
  unfold writeOutput. apply keeps_bind; [apply keeps_this|]. intros s.
  keeps_steps_with ltac:(apply getGrid_publication).
Qed.

Lemma run_workers_events s : forall ws ii,
  Forall is_run_event (snd (run_workers s ii ws)).
Proof.
  induction ws as [|w ws IH]; intros ii; simpl; [constructor|].
  destruct (runModel _ _ w) as [w' raised].
  specialize (IH (S ii)). destruct (run_workers s (S ii) ws) as [[ws' n] evs].
  simpl in *. constructor; [exact I|].
  apply Forall_app. split; [destruct raised; repeat constructor | exact IH].
Qed.



Lemma run_workers_calls s : forall ws ii,
  filter is_runModel (snd (run_workers s ii ws))
  = map (fun ii => Worker_runModel ii (nextStepTimestamp s)) (seq ii (length ws)).
Proof.
  induction ws as [|w ws IH]; intros ii; simpl; [reflexivity|].
  destruct (runModel _ _ w) as [w' raised].
  specialize (IH (S ii)). destruct (run_workers s (S ii) ws) as [[ws' n] evs].
  simpl in *. f_equal. rewrite filter_app, IH. now destruct raised.
Qed.

Lemma poi_phase_ends s : ends but_poi_written is_poi_output (poi_phase s).
Proof. unfold poi_phase. apply ends_when, write_special_points_ends. Qed.

(** How the step ends: after the workers loop the special points are
    written. If that output throws, the exception leaves the step. If it
    returns, either the process is aborted, or the results are published
    and the clock advances. *)
Lemma run_step_outcome (st : State) :
  let errCount := snd (fst (run_workers (self st) 0 (workers (self st)))) in
  exists st_poi,
    but_poi_written (self st_poi) = but_poi_written (self (after_workers st)) /\
    (exists evs, trace st_poi = trace (after_workers st) ++ evs /\ Forall is_poi_output evs) /\
    ((exists e, poi_phase (self st) (after_workers st) = Thrown e st_poi /\
                run_step st = Thrown e st_poi) \/
     (poi_phase (self st) (after_workers st) = Returned tt st_poi /\
      if 0 <? errCount
      then run_step st = Aborted (mkState (self st_poi) (trace st_poi ++ [Std_abort]))
      else exists evs,
          Forall is_publication evs /\
          run_step st = Returned tt (mkState (advance (self st_poi)) (trace st_poi ++ evs)))).
Proof.
  destruct st as [s tr]. unfold after_workers. cbn [self trace].
  destruct (poi_phase_ends s
              (mkState (with_workers (fst (fst (run_workers s 0 (workers s)))) s)
                       ((tr ++ [Timer_restart]) ++ snd (run_workers s 0 (workers s)))))
    as (s1 & e1 & K1 & F1 & [[[] E1] | [e E1]]);
    cbn [self trace] in *;
    (exists (mkState s1 (((tr ++ [Timer_restart]) ++ snd (run_workers s 0 (workers s))) ++ e1));
     split; [exact K1|]; split; [cbn [trace]; eauto|]).
  2: { left. exists e. split; [exact E1|].
       unfold run_step.
       rewrite bind_emit, bind_this. cbn [self trace].
       destruct (run_workers s 0 (workers s)) as [[ws errCount] evs] eqn:Erun.
       cbn [fst snd] in *.
       rewrite bind_modify, bind_emit_all. cbn [self trace].
       fold (poi_phase s). unfold bind at 1. now rewrite E1. }
  right. split; [exact E1|].
  unfold run_step.
  rewrite bind_emit, bind_this. cbn [self trace].
  destruct (run_workers s 0 (workers s)) as [[ws errCount] evs] eqn:Erun.
  cbn [fst snd] in *.
  rewrite bind_modify, bind_emit_all. cbn [self trace].
  fold (poi_phase s). rewrite (@bind_returned _ _ _ _ _ _ _ E1).
  destruct (0 <? errCount).
  - reflexivity.
  - rewrite bind_ret.
    (* the exchange with SnowDrift *)
    match goal with |- context [bind ?m ?k ?st0] =>
      destruct (@bind_keeps _ _ _ (fun s => s) is_publication m k st0) as (a2 & s2 & e2 & K2 & F2 & E2)
    end.
    { keeps_steps_with ltac:(apply getGrid_publication). }
    cbn [self trace] in *. subst s2. rewrite E2. clear E2.
    (* the exchange with EnergyBalance *)
    match goal with |- context [bind ?m ?k ?st0] =>
      destruct (@bind_keeps _ _ _ (fun s => s) is_publication m k st0) as (a3 & s3 & e3 & K3 & F3 & E3)
    end.
    { keeps_steps_with ltac:(apply getGrid_publication). }
    cbn [self trace] in *. subst s3. rewrite E3. clear E3.
    rewrite bind_this. cbn [self trace].
    (* the output *)
    match goal with |- context [bind ?m ?k ?st0] =>
      destruct (@bind_keeps _ _ _ (fun s => s) is_publication m k st0) as (a4 & s4 & e4 & K4 & F4 & E4)
    end.
    { apply writeOutput_keeps. }
    cbn [self trace] in *. subst s4. rewrite E4. clear E4.
    rewrite bind_emit. cbn [self trace].
    match goal with |- context [bind ?m ?k ?st0] =>
      destruct (@bind_keeps _ _ _ (fun s => s) is_publication m k st0) as (a5 & s5 & e5 & K5 & F5 & E5)
    end.
    { keeps_steps. }
    cbn [self trace] in *. subst s5. rewrite E5. clear E5.
    unfold modify. cbn [self trace].
    exists (e2 ++ e3 ++ e4 ++ [Timer_stop] ++ e5).
    split.
    + repeat (apply Forall_app; split); auto. repeat constructor.
    + unfold advance. repeat rewrite <- app_assoc. reflexivity.
Qed.

Lemma gate_open_spec s :
  gate_open s = true <-> dataMeteo2D (flags s) = true /\ attached_ready s.
Proof.
  unfold gate_open, attached_ready.
  destruct (dataMeteo2D (flags s)), (drift (setup s)), (dataSnowDrift (flags s)),
    (da (setup s)), (dataDa (flags s)), (eb (setup s)), (dataRadiation (flags s));
    simpl; intuition congruence.
Qed.

Lemma calcNextStep_gate (st : State) :
  calcNextStep st =
  if gate_open (self st)
  then if dataRadiation (flags (self st))
       then run_step (flags_cleared st)
       else Thrown NoDataException st
  else Returned tt st.
Proof.
  destruct st as [s tr]. unfold calcNextStep, gate_open. rewrite bind_this. simpl.
  destruct (dataMeteo2D (flags s)), (drift (setup s)), (dataSnowDrift (flags s)),
    (da (setup s)), (dataDa (flags s)), (eb (setup s)), (dataRadiation (flags s));
    reflexivity.
Qed.

(** What a step leaves untouched, however it ends. *)
Lemma but_poi_written_fields s s' :
  but_poi_written s' = but_poi_written s ->
  setup s' = setup s /\ forcing s' = forcing s /\ flags s' = flags s /\
  workers s' = workers s /\ nextStepTimestamp s' = nextStepTimestamp s /\
  maskGlacier s' = maskGlacier s /\ glaciers s' = glaciers s.
Proof.
  destruct s, s'. unfold but_poi_written, with_snow_poi_written. simpl.
  intros H. injection H. intros; subst. auto 10.
Qed.

Lemma run_step_frame (st : State) :
  let s' := self (final (run_step st)) in
  setup s' = setup (self st) /\ forcing s' = forcing (self st) /\
  flags s' = flags (self st) /\
  maskGlacier s' = maskGlacier (self st) /\ glaciers s' = glaciers (self st).
Proof.
  destruct (run_step_outcome st) as (st_poi & K & _ & [(e & _ & H) | (_ & H)]);
    apply but_poi_written_fields in K; unfold after_workers in K; simpl in K;
    destruct K as (K1 & K2 & K3 & K4 & K5 & K6 & K7).
  - rewrite H. simpl. auto.
  - destruct (0 <? _).
    + rewrite H. simpl. auto.
    + destruct H as (evs & _ & H). rewrite H. simpl. auto.
Qed.

Lemma calcNextStep_frame (st : State) :
  let s' := self (final (calcNextStep st)) in
  setup s' = setup (self st) /\ forcing s' = forcing (self st) /\
  maskGlacier s' = maskGlacier (self st) /\ glaciers s' = glaciers (self st).
Proof.
  rewrite calcNextStep_gate.
  destruct (gate_open (self st)); [|simpl; auto].
  destruct (dataRadiation (flags (self st))); [|simpl; auto].
  destruct (run_step_frame (flags_cleared st)) as (H1 & H2 & _ & H3 & H4).
  simpl in *. auto.
Qed.

(** *** What the setters store *)

Lemma bind_assoc {A B C} (m : M A) (f : A -> M B) (k : B -> M C) (st : State) :
  bind (bind m f) k st = bind m (fun a => bind (f a) k) st.
Proof. unfold bind. destruct (m st); reflexivity. Qed.

Lemma bind_getGrid {B} (param : Parameters) (k : Grid2DObject -> M B) (st : State) :
  exists grid evs,
    Forall is_query evs /\
    bind (getGrid param) k st = k grid (mkState (self st) (trace st ++ evs)).
Proof.
  destruct (bind_keeps k st (getGrid_keeps param)) as (g & s' & evs & K & F & E).
  simpl in K. subst s'. eauto.
Qed.

Ltac run_binds :=
  repeat (match goal with
          | |- context [bind (bind ?m ?f) ?k ?st] => rewrite (bind_assoc m f k st)
          | |- context [bind this ?k ?st] => rewrite (bind_this k st)
          | |- context [bind (modify ?f) ?k ?st] => rewrite (bind_modify f k st)
          | |- context [bind (emit ?ev) ?k ?st] => rewrite (bind_emit ev k st)
          | |- context [bind (emit_all ?evs) ?k ?st] => rewrite (bind_emit_all evs k st)
          | |- context [bind (ret ?a) ?k ?st] => rewrite (bind_ret a k st)
          end; cbn [self trace]).

Ltac query_grid :=
  match goal with
  | |- context [bind (getGrid ?param) ?k ?st0] =>
      let g := fresh "g" in
      let evs := fresh "evs" in
      let F := fresh "F" in
      let E := fresh "E" in
      destruct (bind_getGrid param k st0) as (g & evs & F & E);
      rewrite E; clear E; cbn [self trace]
  end.

(** setMeteo up to its call of calcNextStep. *)
Lemma setMeteo_stores (new_psum new_psum_ph new_vw new_rh new_ta : Grid2DObject)
      (timestamp : Date) (st : State) :
  date_neq (nextStepTimestamp (self st)) timestamp = false ->
  exists st1 evs,
    setMeteo new_psum new_psum_ph new_vw new_rh new_ta timestamp st = calcNextStep st1 /\
    trace st1 = trace st ++ evs /\ Forall is_query evs /\
    setup (self st1) = setup (self st) /\
    workers (self st1) = workers (self st) /\
    nextStepTimestamp (self st1) = nextStepTimestamp (self st) /\
    flags (self st1) = set_flag_meteo (flags (self st)) /\
    (let f := forcing (self st) in
     exists stored_ta,
       forcing (self st1)
       = mkForcing (mns f) (shortwave f) (longwave f) (diffuse f) new_psum new_psum_ph
                   new_vw new_rh stored_ta (solarElevation f) /\
       if glacier_katabatic_flow (setup (self st))
       then exists gl cH tss, stored_ta = correctTemperatures gl cH tss new_ta
       else stored_ta = new_ta).
Proof.
  intros Ht. destruct st as [s tr]. simpl in *.
  unfold setMeteo. rewrite bind_this. simpl. rewrite Ht.
  rewrite bind_modify. simpl.
  destruct (mask_dynamic (setup s)) eqn:Emd, (glacier_katabatic_flow (setup s)) eqn:Ek;
    cbn [when negb];
    repeat first [ progress run_binds | query_grid ];
    (eexists; eexists; split; [reflexivity|]); cbn [self trace];
    rewrite <- ?app_assoc;
    (split; [first [reflexivity | symmetry; apply app_nil_r]|]);
    (split; [repeat (apply Forall_app; split); solve [assumption | constructor]|]);
    cbn [self setup workers nextStepTimestamp flags forcing maskGlacier glaciers
         with_flags with_forcing with_maskGlacier with_glaciers store_ta];
    simpl; rewrite ?Ek; repeat split; try reflexivity;
    (eexists; split; [reflexivity|]; eauto).
Qed.

Lemma setRadiationComponents_stores (shortwave_in longwave_in diff_in : Array2D)
      (solarElevation_in : double) (timestamp : Date) (st : State) :
  date_neq (nextStepTimestamp (self st)) timestamp = false ->
  setRadiationComponents shortwave_in longwave_in diff_in solarElevation_in timestamp st
  = calcNextStep
      (mkState (with_flags (set_flag_radiation (flags (self st)))
                  (with_forcing (store_radiation shortwave_in longwave_in diff_in
                                                 solarElevation_in (forcing (self st)))
                                (self st)))
               (trace st)).
Proof.
  intros Ht. destruct st as [s tr]. simpl in *.
  unfold setRadiationComponents. rewrite bind_this. simpl. rewrite Ht.
  reflexivity.
Qed.

Lemma setSnowMassChange_stores (new_mns : Grid2DObject) (timestamp : Date) (st : State) :
  date_neq (nextStepTimestamp (self st)) timestamp = false ->
  isSameGeolocalization new_mns (dem (setup (self st))) = true ->
  setSnowMassChange new_mns timestamp st
  = calcNextStep
      (mkState (with_flags (set_flag_drift (flags (self st)))
                  (with_forcing (store_mns new_mns (forcing (self st))) (self st)))
               (trace st)).
Proof.
  intros Ht Hgeo. destruct st as [s tr]. simpl in *.
  unfold setSnowMassChange. rewrite bind_this. simpl. rewrite Ht, Hgeo.
  reflexivity.
Qed.

Lemma setSnowMassChange_refuses (new_mns : Grid2DObject) (timestamp : Date) (st : State) :
  date_neq (nextStepTimestamp (self st)) timestamp = false ->
  isSameGeolocalization new_mns (dem (setup (self st))) = false ->
  setSnowMassChange new_mns timestamp st = Thrown IndexOutOfBoundsException st.
Proof.
  intros Ht Hgeo. destruct st as [s tr]. simpl in *.
  unfold setSnowMassChange. rewrite bind_this. simpl. rewrite Ht, Hgeo. reflexivity.
Qed.

Lemma assimilate_stores (daData : Grid2DObject) (timestamp : Date) (st : State) :
  date_neq (nextStepTimestamp (self st)) timestamp = false ->
  assimilate daData timestamp st
  = calcNextStep
      (mkState (with_flags (set_flag_da (flags (self st))) (self st))
               (trace st ++ [Cout_updating_state])).
Proof.
  intros Ht. destruct st as [s tr]. simpl in *.
  unfold assimilate. rewrite bind_this. simpl. rewrite Ht.
  reflexivity.
Qed.

(** C7 (as amended). A forcing grid stored by its setter, called with the
    expected timestamp, is what getGrid returns right afterwards, from the
    coordinator's own storage and without a query to any worker: the grids
    of PSUM, PSUM_PH, VW and RH given to setMeteo, the arrays of ISWR and
    ILWR given to setRadiationComponents (under the geolocation the
    coordinator holds), and the grid of TA given to setMeteo unless the
    katabatic flow of glaciers is enabled; then getGrid returns the
    temperatures as the glaciers module corrected them. *)
Theorem forcing_round_trip (st : State) (timestamp : Date) :
  date_neq (nextStepTimestamp (self st)) timestamp = false ->
  (forall new_psum new_psum_ph new_vw new_rh new_ta,
     let st' := final (setMeteo new_psum new_psum_ph new_vw new_rh new_ta timestamp st) in
     getGrid PSUM st' = Returned new_psum st' /\
     getGrid PSUM_PH st' = Returned new_psum_ph st' /\
     getGrid VW st' = Returned new_vw st' /\
     getGrid RH st' = Returned new_rh st' /\
     if glacier_katabatic_flow (setup (self st))
     then exists gl cH tss,
         getGrid TA st' = Returned (correctTemperatures gl cH tss new_ta) st'
     else getGrid TA st' = Returned new_ta st') /\
  (forall shortwave_in longwave_in diff_in solarElevation_in,
     let st' := final (setRadiationComponents shortwave_in longwave_in diff_in
                                              solarElevation_in timestamp st) in
     getGrid ISWR st'
     = Returned (mkGrid shortwave_in (geoloc (shortwave (forcing (self st))))) st' /\
     getGrid ILWR st'
     = Returned (mkGrid longwave_in (geoloc (longwave (forcing (self st))))) st').
Proof.
  intros Ht. split.
  - intros new_psum new_psum_ph new_vw new_rh new_ta.
    destruct (setMeteo_stores new_psum new_psum_ph new_vw new_rh new_ta _ st Ht)
      as (st1 & evs & E & _ & _ & _ & _ & _ & _ & stored_ta & Hf & Hta).
    rewrite E. cbv zeta.
    destruct (calcNextStep_frame st1) as (_ & Hforcing & _).
    rewrite !getGrid_forcing by reflexivity.
    rewrite Hforcing, Hf. simpl.
    repeat split.
    destruct (glacier_katabatic_flow (setup (self st))).
    + destruct Hta as (gl & cH & tss & ->). eauto.
    + now subst.
  - intros shortwave_in longwave_in diff_in solarElevation_in.
    rewrite (setRadiationComponents_stores _ _ _ _ _ st Ht). cbv zeta.
    match goal with |- context [calcNextStep ?st1] =>
      destruct (calcNextStep_frame st1) as (_ & Hforcing & _)
    end.
    rewrite !getGrid_forcing by reflexivity.
    rewrite Hforcing. simpl. split; reflexivity.
Qed.

(** C9 (as amended). Of the producer setters, setSnowMassChange validates
    its grid: called with the expected timestamp and a grid whose dimensions
    or geolocation differ from the DEM's, it fails with the index-out-of-
    bounds error and leaves the coordinator as it was, nothing stored, no
    flag raised, no step run. assimilate never stores its grid, whatever the
    grid is. *)
Theorem geolocation_validated (st : State) (timestamp : Date) (grid : Grid2DObject) :
  date_neq (nextStepTimestamp (self st)) timestamp = false ->
  isSameGeolocalization grid (dem (setup (self st))) = false ->
  setSnowMassChange grid timestamp st = Thrown IndexOutOfBoundsException st /\
  forcing (self (final (assimilate grid timestamp st))) = forcing (self st).
Proof.
  intros Ht Hgeo. split.
  - now apply setSnowMassChange_refuses.
  - rewrite (assimilate_stores grid _ st Ht).
    match goal with |- context [calcNextStep ?st1] =>
      destruct (calcNextStep_frame st1) as (_ & Hforcing & _)
    end.
    exact Hforcing.
Qed.

(** *** Failures of the snow model *)








(** *** The special points output *)

Lemma call_writeOutputSpecialPoints_run date process points (st : State) :
  call_writeOutputSpecialPoints date process points st
  = let st' := mkState (self st) (trace st ++ [WriteOutputSpecialPoints date process]) in
    match points_exception (setup (self st)) date points with
    | Some thrown => Thrown (FileException thrown) st'
    | None => Returned tt st'
    end.
Proof.
  destruct st as [s tr]. unfold call_writeOutputSpecialPoints, points_exception.
  rewrite bind_this, bind_emit. cbn [self trace].
  destruct (thrown_in _); reflexivity.
Qed.

Lemma poi_snow_cover_pure (date : Date) (process : nat) (st : State) :
  poi_snow_cover date process st
  = Returned tt (mkState (self st)
                         (trace st ++ if sno_due (self st)
                                      then [WriteSnowCover date process] else [])).
Proof.
  destruct st as [s tr]. unfold poi_snow_cover, sno_due. rewrite bind_this. cbn [self trace].
  destruct (negb (snow_write (setup s)) && negb (snow_poi_written s)); cbn [when].
  - reflexivity.
  - unfold ret. now rewrite app_nil_r.
Qed.

(** The loop of the master over the other ranks. *)
Lemma special_points_loop (s : SnowpackInterface) : forall l tr,
  let date := nextStepTimestamp s in
  let r := batches_events s false
             (map (fun ii => (ii, mpi_receive_points date ii))
                  (filter (fun ii => negb (ii =? mpi_master_rank)) l)) in
  for_each (fun ii =>
              if ii =? mpi_master_rank then ret tt
              else emit_all [Mpi_receive ii; Mpi_receive ii; Mpi_receive ii] ;;
                   call_writeOutputSpecialPoints date ii (mpi_receive_points date ii) ;;
                   poi_snow_cover date ii)
           l (mkState s tr)
  = match snd r with
    | Some thrown => Thrown (FileException thrown) (mkState s (tr ++ fst r))
    | None => Returned tt (mkState s (tr ++ fst r))
    end.
Proof.
  cbv zeta. induction l as [|ii l IH]; intros tr; cbn [for_each filter map].
  - cbn. unfold ret. now rewrite app_nil_r.
  - destruct (ii =? mpi_master_rank); cbn [negb].
    + rewrite bind_ret. apply IH.
    + cbn [map batches_events]. run_binds.
      unfold bind at 1. rewrite call_writeOutputSpecialPoints_run. cbn [self trace].
      destruct (points_exception (setup s) (nextStepTimestamp s) _).
      * cbn [fst snd]. now rewrite <- !app_assoc.
      * unfold bind at 1. rewrite poi_snow_cover_pure. cbn [self trace].
        rewrite IH.
        destruct (batches_events s false _) as [evs failure]. cbn [fst snd].
        destruct failure; now rewrite <- !app_assoc.
Qed.

(** write_special_points, event by event. When writeOutputSpecialPoints
    throws, the coordinator is left as it was: snow_poi_written is not
    set and no worker clears its buffers. *)
Lemma write_special_points_run (st : State) :
  let s := self st in
  let all := seq 0 (length (workers s)) in
  let r := special_points_run s in
  write_special_points st
  = match snd r with
    | Some thrown =>
        Thrown (FileException thrown)
               (mkState s (trace st ++ map Worker_getOutputSpecialPoints all ++ fst r))
    | None =>
        Returned tt
          (mkState (after_special_points s)
                   (trace st ++ map Worker_getOutputSpecialPoints all
                      ++ fst r ++ map Worker_clearSpecialPointsData all))
    end.
Proof.
  destruct st as [s tr]. cbn [self trace]. unfold write_special_points.
  rewrite bind_this. cbn [self]. rewrite bind_emit_all. cbn [self trace].
  unfold special_points_run, after_special_points, point_batches.
  destruct (do_io_locally (setup s)); cbn [orb].
  - cbn [batches_events]. rewrite bind_assoc.
    unfold bind at 1. rewrite call_writeOutputSpecialPoints_run. cbn [self trace].
    destruct (points_exception (setup s) (nextStepTimestamp s) _); cbn [fst snd].
    + now rewrite <- !app_assoc.
    + fold (sno_due s). destruct (sno_due s); cbn [when]; run_binds;
        unfold emit_all; cbn [self trace app]; now rewrite <- !app_assoc.
  - destruct mpi_master.
    + cbn [batches_events]. rewrite bind_assoc.
      unfold bind at 1. rewrite call_writeOutputSpecialPoints_run. cbn [self trace].
      destruct (points_exception (setup s) (nextStepTimestamp s) _); cbn [fst snd].
      * now rewrite <- !app_assoc.
      * rewrite bind_assoc. unfold bind at 1. rewrite poi_snow_cover_pure.
        cbn [self trace]. rewrite bind_assoc. unfold bind at 1.
        rewrite special_points_loop.
        destruct (batches_events s false _) as [evs failure]. cbn [fst snd].
        destruct failure.
        -- now rewrite <- !app_assoc.
        -- run_binds. unfold emit_all. cbn [self trace app].
           now rewrite <- !app_assoc.
    + run_binds. unfold emit_all. cbn [self trace fst snd].
      now rewrite <- !app_assoc.
Qed.

Lemma thrown_in_points_loop (w : SmetWorld) (m : SmetMembers) (TS PR : bool) (date : Date)
      (thrown : SmetOutcome) : forall points ii,
  thrown_in (fst (points_loop w m TS PR date ii points)) = Some thrown ->
  is_smet_exception thrown /\
  exists meta met surf, In (meta, met, surf) points /\ write_SMET w m met meta surf = thrown.
Proof.
  induction points as [|[[meta met] surf] points IH]; intros ii; cbn [points_loop].
  - discriminate.
  - destruct (write_SMET w m met meta surf) as [f | f | mode f text] eqn:E.
    + cbn. intros [= <-]. split; [exact I|]. exists meta, met, surf. split; [now left | exact E].
    + cbn. intros [= <-]. split; [exact I|]. exists meta, met, surf. split; [now left | exact E].
    + specialize (IH (S ii)).
      destruct (points_loop w m TS PR date (S ii) points) as [steps completed].
      cbn [fst thrown_in] in *.
      assert (Hskip : thrown_in ((if TS then [WriteTimeSeries ii] else [])
                                   ++ (if PR then [WriteProfile date ii] else []) ++ steps)
                      = thrown_in steps) by (destruct TS, PR; reflexivity).
      rewrite Hskip. intros H. destruct (IH H) as (Hx & meta' & met' & surf' & Hin & E').
      split; [exact Hx|]. exists meta', met', surf'. split; [now right | exact E'].
Qed.



(** The events of the batches: they start with the call for the first
    process; when a call throws it is the last of them, and what it throws is
    an exception of write_SMET. No worker is cleared in between. *)
Lemma batches_events_shape (s : SnowpackInterface) : forall batches own,
  let r := batches_events s own batches in
  Forall is_poi_output (fst r) /\
  (forall ii, ~ In (Worker_clearSpecialPointsData ii) (fst r)) /\
  match snd r with
  | Some thrown =>
      is_smet_exception thrown /\
      exists middle process,
        fst r = middle ++ [WriteOutputSpecialPoints (nextStepTimestamp s) process]
  | None => True
  end.
Proof.
  cbv zeta. induction batches as [|[process points] batches IH]; intros own;
    cbn [batches_events].
  - cbn. repeat split; auto.
  - assert (Hcall : forall ii,
               ~ In (Worker_clearSpecialPointsData ii)
                    ((if own then []
                      else [Mpi_receive process; Mpi_receive process; Mpi_receive process])
                       ++ [WriteOutputSpecialPoints (nextStepTimestamp s) process])).
    { intros ii H. destruct own; simpl in H; intuition discriminate. }
    assert (Fcall : Forall is_poi_output
                      ((if own then []
                        else [Mpi_receive process; Mpi_receive process; Mpi_receive process])
                         ++ [WriteOutputSpecialPoints (nextStepTimestamp s) process])).
    { destruct own; repeat constructor. }
    destruct (points_exception (setup s) (nextStepTimestamp s) points) as [thrown|] eqn:E.
    + cbn [fst snd]. split; [exact Fcall|]. split; [exact Hcall|]. split.
      * unfold points_exception, writeOutputSpecialPoints in E.
        apply thrown_in_points_loop in E. apply E.
      * eauto.
    + specialize (IH false).
      destruct (batches_events s false batches) as [evs failure]. cbn [fst snd] in *.
      destruct IH as (F & Hno & Hend).
      split.
      { apply Forall_app; split; [exact Fcall|]. apply Forall_app; split; [|exact F].
        destruct (sno_due s); repeat constructor. }
      split.
      { intros ii H. apply in_app_or in H. destruct H as [H | H]; [exact (Hcall ii H)|].
        apply in_app_or in H. destruct H as [H | H]; [|exact (Hno ii H)].
        destruct (sno_due s); simpl in H; intuition discriminate. }
      destruct failure as [thrown|]; [|exact I].
      destruct Hend as (Hx & middle & p & ->). split; [exact Hx|].
      eexists. exists p. rewrite !app_assoc. reflexivity.
Qed.

(** How write_special_points ends: it returns with the output written, or
    an exception of write_SMET leaves it. *)
Lemma write_special_points_output (st : State) :
  exists s' evs,
    but_poi_written s' = but_poi_written (self st) /\
    Forall is_poi_output evs /\
    ((write_special_points st = Returned tt (mkState s' (trace st ++ evs)) /\
      poi_written (self st) evs) \/
     (exists thrown,
         write_special_points st = Thrown (FileException thrown) (mkState s' (trace st ++ evs)) /\
         is_smet_exception thrown /\ poi_interrupted (self st) evs)).
Proof.
  pose proof (write_special_points_run st) as E. cbv zeta in E.
  set (s := self st) in *. set (all := seq 0 (length (workers s))) in *.
  assert (Hr : Forall is_poi_output (fst (special_points_run s)) /\
               (forall ii, ~ In (Worker_clearSpecialPointsData ii) (fst (special_points_run s))) /\
               match snd (special_points_run s) with
               | Some thrown =>
                   is_smet_exception thrown /\
                   exists middle process,
                     fst (special_points_run s)
                     = middle ++ [WriteOutputSpecialPoints (nextStepTimestamp s) process]
               | None =>
                   if do_io_locally (setup s) || mpi_master
                   then exists rest,
                       fst (special_points_run s)
                       = WriteOutputSpecialPoints (nextStepTimestamp s) mpi_rank :: rest
                   else fst (special_points_run s)
                        = [Mpi_send mpi_master_rank; Mpi_send mpi_master_rank;
                           Mpi_send mpi_master_rank]
               end).
  { unfold special_points_run.
    destruct (do_io_locally (setup s) || mpi_master) eqn:Eio.
    - pose proof (batches_events_shape s (point_batches s) true) as H. cbv zeta in H.
      destruct H as (F & Hno & Hend). split; [exact F|]. split; [exact Hno|].
      destruct (snd (batches_events s true (point_batches s))) eqn:Es; [exact Hend|].
      unfold point_batches in *.
      destruct (do_io_locally (setup s)); [|destruct mpi_master; [|discriminate Eio]];
        cbn [batches_events] in *;
        destruct (points_exception _ _ _); try discriminate Es;
        try (destruct (batches_events s false _)); cbn [fst snd app] in *; eauto.
    - cbn [fst snd]. split; [repeat constructor|]. split; [|reflexivity].
      intros ii H. simpl in H. intuition discriminate. }
  destruct Hr as (F & Hno & Hend).
  assert (Fget : Forall is_poi_output (map Worker_getOutputSpecialPoints all))
    by (apply Forall_map_seq; intros; exact I).
  assert (Fclear : Forall is_poi_output (map Worker_clearSpecialPointsData all))
    by (apply Forall_map_seq; intros; exact I).
  destruct (snd (special_points_run s)) as [thrown|].
  - exists s, (map Worker_getOutputSpecialPoints all ++ fst (special_points_run s)).
    split; [reflexivity|]. split; [apply Forall_app; auto|].
    right. exists thrown. split; [exact E|].
    destruct Hend as (Hx & middle & p & Hm). split; [exact Hx|].
    exists middle, p. split; [now rewrite Hm|].
    intros ii H. apply in_app_or in H. destruct H as [H | H]; [|exact (Hno ii H)].
    apply in_map_iff in H. destruct H as (k & Hk & _). discriminate Hk.
  - exists (after_special_points s),
      (map Worker_getOutputSpecialPoints all ++ fst (special_points_run s)
         ++ map Worker_clearSpecialPointsData all).
    split.
    { unfold after_special_points, but_poi_written.
      destruct (do_io_locally (setup s)), (sno_due s), mpi_master; reflexivity. }
    split; [repeat (apply Forall_app; split); auto|].
    left. split; [exact E|].
    exists (fst (special_points_run s)). split; [reflexivity | exact Hend].
Qed.



(** *** Step gating *)

Lemma steps_started_app tr evs :
  steps_started (tr ++ evs) = steps_started tr + steps_started evs.
Proof. unfold steps_started. now rewrite filter_app, length_app. Qed.

Lemma steps_started_one ev : is_Timer_restart ev = false -> steps_started [ev] = 0.
Proof. unfold steps_started. simpl. now intros ->. Qed.

Lemma steps_started_none (P : Event -> Prop) evs :
  (forall ev, P ev -> is_Timer_restart ev = false) ->
  Forall P evs -> steps_started evs = 0.
Proof.
  intros HP H. unfold steps_started. rewrite filter_none; [reflexivity|].
  intros ev Hev. apply HP. rewrite Forall_forall in H. auto.
Qed.

Lemma runModel_calls_none (P : Event -> Prop) evs :
  (forall ev, P ev -> is_runModel ev = false) ->
  Forall P evs -> filter is_runModel evs = [].
Proof.
  intros HP H. apply filter_none. intros ev Hev. apply HP.
  rewrite Forall_forall in H. auto.
Qed.

Lemma query_no_restart ev : is_query ev -> is_Timer_restart ev = false.
Proof. destruct ev; simpl; tauto. Qed.
Lemma run_no_restart ev : is_run_event ev -> is_Timer_restart ev = false.
Proof. destruct ev; simpl; tauto. Qed.
Lemma poi_no_restart ev : is_poi_output ev -> is_Timer_restart ev = false.
Proof. destruct ev; simpl; tauto. Qed.
Lemma publication_no_restart ev : is_publication ev -> is_Timer_restart ev = false.
Proof. destruct ev; simpl; tauto. Qed.
Lemma query_no_runModel ev : is_query ev -> is_runModel ev = false.
Proof. destruct ev; simpl; tauto. Qed.
Lemma poi_no_runModel ev : is_poi_output ev -> is_runModel ev = false.
Proof. destruct ev; simpl; tauto. Qed.
Lemma publication_no_runModel ev : is_publication ev -> is_runModel ev = false.
Proof. destruct ev; simpl; tauto. Qed.

(** A step, however it ends, is one step: the timer is restarted once and
    runModel is called once on each worker. *)
Lemma run_step_once (st : State) :
  let o := run_step st in
  steps_started (trace (final o)) = S (steps_started (trace st)) /\
  filter is_runModel (trace (final o))
  = filter is_runModel (trace st)
      ++ map (fun ii => Worker_runModel ii (nextStepTimestamp (self st)))
             (seq 0 (length (workers (self st)))).
Proof.
  destruct (run_step_outcome st) as (st_poi & _ & (evs & Etr & Fevs) & Hend).
  unfold after_workers in Etr. cbn [trace self] in Etr.
  assert (Hs : steps_started (trace st_poi) = S (steps_started (trace st))).
  { rewrite Etr, !steps_started_app.
    rewrite (steps_started_none poi_no_restart Fevs).
    rewrite (steps_started_none run_no_restart (run_workers_events _ _ _)).
    change (steps_started [Timer_restart]) with 1. lia. }
  assert (Hr : filter is_runModel (trace st_poi)
               = filter is_runModel (trace st)
                   ++ map (fun ii => Worker_runModel ii (nextStepTimestamp (self st)))
                          (seq 0 (length (workers (self st))))).
  { rewrite Etr, !filter_app, run_workers_calls.
    rewrite (runModel_calls_none poi_no_runModel Fevs). simpl.
    now rewrite !app_nil_r. }
  cbv zeta. destruct Hend as [(e & _ & Hend) | (_ & Hend)].
  { rewrite Hend. cbn [final]. split; [exact Hs | exact Hr]. }
  destruct (0 <? _).
  - rewrite Hend. cbn [final trace]. rewrite steps_started_app, filter_app, Hs, Hr.
    change (steps_started [Std_abort]) with 0.
    change (filter is_runModel [Std_abort]) with (@nil Event).
    rewrite app_nil_r. split; [lia | reflexivity].
  - destruct Hend as (evs' & F' & E'). rewrite E'. cbn [final trace].
    rewrite steps_started_app, filter_app, Hs, Hr.
    rewrite (steps_started_none publication_no_restart F').
    rewrite (runModel_calls_none publication_no_runModel F').
    rewrite app_nil_r. split; [lia | reflexivity].
Qed.

(** calcNextStep runs a step exactly when the gate is open and the radiation
    is there. *)
Lemma calcNextStep_steps (st : State) :
  steps_started (trace (final (calcNextStep st)))
  = if gate_open (self st) && dataRadiation (flags (self st))
    then S (steps_started (trace st)) else steps_started (trace st).
Proof.
  rewrite calcNextStep_gate.
  destruct (gate_open (self st)); [|reflexivity].
  destruct (dataRadiation (flags (self st))); [|reflexivity].
  simpl andb. cbv iota. apply (run_step_once (flags_cleared st)).
Qed.

Lemma flag_of_raise p q f :
  flag_of q (raise_flag p f) = true -> q = p \/ flag_of q f = true.
Proof. destruct p, q; simpl; auto. Qed.

Lemma gate_awaited s :
  gate_open s && dataRadiation (flags s) = true ->
  forall p, awaited p s -> flag_of p (flags s) = true.
Proof.
  rewrite andb_true_iff, gate_open_spec. unfold attached_ready.
  intros ((Hm & Hd & Ha & _) & Hr) [] H; simpl in *; auto.
Qed.

(** A call is either rejected, the coordinator left as it was, or accepted:
    the flag of its producer is raised and calcNextStep is entered. *)
Lemma perform_cases (c : Call) (st : State) :
  (self (final (perform c st)) = self st /\
   steps_started (trace (final (perform c st))) = steps_started (trace st)) \/
  (date_neq (nextStepTimestamp (self st)) (timestamp_of c) = false /\
   exists st1,
     perform c st = calcNextStep st1 /\
     flags (self st1) = raise_flag (producer_of c) (flags (self st)) /\
     nextStepTimestamp (self st1) = nextStepTimestamp (self st) /\
     setup (self st1) = setup (self st) /\
     steps_started (trace st1) = steps_started (trace st)).
Proof.
  destruct (date_neq (nextStepTimestamp (self st)) (timestamp_of c)) eqn:Ht.
  - left.
    destruct c; cbn [perform timestamp_of] in *;
      first [ rewrite (setMeteo_rejects st _ Ht)
            | rewrite (setRadiationComponents_rejects st _ Ht)
            | rewrite (setSnowMassChange_rejects st _ Ht)
            | rewrite (assimilate_rejects st _ Ht) ];
      cbn [final self trace]; split; try reflexivity;
      rewrite steps_started_app; unfold timing_log; destruct mpi_master;
      unfold steps_started; simpl; lia.
  - destruct c as [a b c d e t | a b c d t | a t | a t];
      cbn [perform timestamp_of producer_of] in *.
    + right. split; [reflexivity|].
      destruct (setMeteo_stores a b c d e t st Ht)
        as (st1 & evs & E & Etr & F & Hsu & _ & Hn & Hf & _).
      exists st1. repeat split; auto.
      rewrite Etr, steps_started_app, (steps_started_none query_no_restart F). lia.
    + right. split; [reflexivity|].
      rewrite (setRadiationComponents_stores a b c d t st Ht).
      eexists. split; [reflexivity|]. simpl. auto.
    + destruct (isSameGeolocalization a (dem (setup (self st)))) eqn:Hgeo.
      * right. split; [reflexivity|].
        rewrite (setSnowMassChange_stores a t st Ht Hgeo).
        eexists. split; [reflexivity|]. simpl. auto.
      * left. rewrite (setSnowMassChange_refuses a t st Ht Hgeo). simpl. auto.
    + right. split; [reflexivity|].
      rewrite (assimilate_stores a t st Ht).
      eexists. split; [reflexivity|]. simpl.
      repeat split. rewrite steps_started_app. unfold steps_started. simpl. lia.
Qed.

Lemma supplied_more history c p date :
  supplied history p date -> supplied (history ++ [c]) p date.
Proof. intros (c' & Hin & H). exists c'. rewrite in_app_iff. auto. Qed.

Lemma supplied_now history c date :
  date_neq date (timestamp_of c) = false ->
  supplied (history ++ [c]) (producer_of c) date.
Proof. intros H. exists c. rewrite in_app_iff. simpl. auto. Qed.

Lemma flags_justified_step history c st :
  flags_justified history (self st) ->
  flags_justified (history ++ [c]) (self (final (perform c st))).
Proof.
  intros Hj. destruct (perform_cases c st) as [[Hsame _] | (Ht & st1 & E & Hf & Hn & Hsu & _)].
  - rewrite Hsame. intros p Hp. apply supplied_more. auto.
  - rewrite E, calcNextStep_gate.
    assert (Hj1 : flags_justified (history ++ [c]) (self st1)).
    { intros p Hp. rewrite Hn. rewrite Hf in Hp.
      apply flag_of_raise in Hp. destruct Hp as [-> | Hp].
      - now apply supplied_now.
      - apply supplied_more. auto. }
    destruct (gate_open (self st1)); [|exact Hj1].
    destruct (dataRadiation (flags (self st1))); [|exact Hj1].
    destruct (run_step_frame (flags_cleared st1)) as (_ & _ & Hfl & _).
    intros p Hp. rewrite Hfl in Hp. destruct p; discriminate.
Qed.

Lemma flags_justified_after history : forall st done,
  flags_justified done (self st) ->
  flags_justified (done ++ history) (self (after_calls history st)).
Proof.
  induction history as [|c history IH]; intros st done H; simpl.
  - now rewrite app_nil_r.
  - replace (done ++ c :: history) with ((done ++ [c]) ++ history)
      by (now rewrite <- app_assoc).
    apply IH. now apply flags_justified_step.
Qed.

(** A step runs only on data of the current timestamp. *)
Lemma step_needs_everyone (st0 : State) (history : list Call) (c : Call) :
  flags (self st0) = clear_flags ->
  let st := after_calls history st0 in
  steps_started (trace (final (perform c st))) <> steps_started (trace st) ->
  forall p, awaited p (self st) ->
            supplied (history ++ [c]) p (nextStepTimestamp (self st)).
Proof.
  intros H0 st Hstep p Hp.
  assert (Hj : flags_justified history (self st)).
  { apply (flags_justified_after history st0 (done := [])).
    intros q Hq. rewrite H0 in Hq. destruct q; discriminate. }
  destruct (perform_cases c st) as [[_ Hsame] | (Ht & st1 & E & Hf & Hn & Hsu & Hs1)].
  - congruence.
  - rewrite E, calcNextStep_steps, Hs1 in Hstep.
    destruct (gate_open (self st1) && dataRadiation (flags (self st1))) eqn:Hg;
      [|congruence].
    assert (Hp1 : awaited p (self st1)) by (destruct p; simpl in *; congruence).
    pose proof (gate_awaited _ Hg p Hp1) as Hflag.
    rewrite Hf in Hflag. apply flag_of_raise in Hflag. destruct Hflag as [-> | Hflag].
    + now apply supplied_now.
    + apply supplied_more. auto.
Qed.

(** C1. With an energy-balance module attached and no radiation pushed yet,
    setMeteo alone raises the meteo flag and returns without a step. When
    setRadiationComponents follows with the expected timestamp (any other
    attached module having pushed its data), calcNextStep clears the four
    flags and then runs exactly one step: one restart of the timer, one
    runModel per worker, the flags still down when the call ends. In general
    a step runs only when the meteo flag and the flag of every attached
    module are up, and so, at any point of a run that began with the flags
    down, only when every producer the step waits for has pushed data tagged
    with the timestamp the coordinator expects. *)
Theorem step_gating (st : State) (timestamp : Date) :
  let s := self st in
  eb (setup s) = true ->
  date_neq (nextStepTimestamp s) timestamp = false ->
  dataRadiation (flags s) = false ->
  (drift (setup s) = true -> dataSnowDrift (flags s) = true) ->
  (da (setup s) = true -> dataDa (flags s) = true) ->
  (forall new_psum new_psum_ph new_vw new_rh new_ta
          shortwave_in longwave_in diff_in solarElevation_in,
     exists st1,
       setMeteo new_psum new_psum_ph new_vw new_rh new_ta timestamp st = Returned tt st1 /\
       steps_started (trace st1) = steps_started (trace st) /\
       filter is_runModel (trace st1) = filter is_runModel (trace st) /\
       flags (self st1) = set_flag_meteo (flags s) /\
       nextStepTimestamp (self st1) = nextStepTimestamp s /\
       workers (self st1) = workers s /\
       let o := setRadiationComponents shortwave_in longwave_in diff_in
                                       solarElevation_in timestamp st1 in
       (exists st2, o = run_step st2 /\ flags (self st2) = clear_flags /\
                    trace st2 = trace st1) /\
       steps_started (trace (final o)) = S (steps_started (trace st)) /\
       filter is_runModel (trace (final o))
       = filter is_runModel (trace st)
           ++ map (fun ii => Worker_runModel ii (nextStepTimestamp s))
                  (seq 0 (length (workers s))) /\
       flags (self (final o)) = clear_flags) /\
  (forall st', steps_started (trace (final (calcNextStep st'))) <> steps_started (trace st') ->
               dataMeteo2D (flags (self st')) = true /\ attached_ready (self st') /\
               dataRadiation (flags (self st')) = true) /\
  (forall st0 history c,
     flags (self st0) = clear_flags ->
     let st' := after_calls history st0 in
     steps_started (trace (final (perform c st'))) <> steps_started (trace st') ->
     forall p, awaited p (self st') ->
               supplied (history ++ [c]) p (nextStepTimestamp (self st'))).
Proof.
  intros s Heb Ht Hrad Hdrift Hda. split; [|split].
  - intros new_psum new_psum_ph new_vw new_rh new_ta
           shortwave_in longwave_in diff_in solarElevation_in.
    destruct (setMeteo_stores new_psum new_psum_ph new_vw new_rh new_ta _ st Ht)
      as (st1 & evs & E & Etr & F & Hsu & Hw & Hn & Hf & _).
    fold s in Hsu, Hw, Hn, Hf.
    assert (Hclosed : gate_open (self st1) = false).
    { unfold gate_open. rewrite Hsu, Hf, Heb. simpl. rewrite Hrad.
      now rewrite !andb_false_r. }
    exists st1. rewrite E, calcNextStep_gate, Hclosed.
    split; [reflexivity|].
    split; [rewrite Etr, steps_started_app, (steps_started_none query_no_restart F); lia|].
    split; [rewrite Etr, filter_app, (runModel_calls_none query_no_runModel F);
            apply app_nil_r|].
    split; [exact Hf|]. split; [exact Hn|]. split; [exact Hw|].
    assert (Ht1 : date_neq (nextStepTimestamp (self st1)) timestamp = false)
      by (rewrite Hn; exact Ht).
    rewrite (setRadiationComponents_stores _ _ _ _ _ st1 Ht1). cbv zeta.
    set (st1' := mkState _ (trace st1)).
    assert (Hopen : gate_open (self st1') = true).
    { apply gate_open_spec. unfold st1', attached_ready. simpl.
      rewrite Hsu, Hf. simpl. auto. }
    assert (Hrad' : dataRadiation (flags (self st1')) = true) by reflexivity.
    rewrite calcNextStep_gate, Hopen, Hrad'.
    destruct (run_step_once (flags_cleared st1')) as (Hs & Hr).
    destruct (run_step_frame (flags_cleared st1')) as (_ & _ & Hfl & _).
    split; [exists (flags_cleared st1'); auto|].
    split.
    { rewrite Hs. unfold st1'. simpl.
      rewrite Etr, steps_started_app, (steps_started_none query_no_restart F). lia. }
    split; [|exact Hfl].
    rewrite Hr. unfold st1'. simpl. rewrite Hn, Hw.
    rewrite Etr, filter_app, (runModel_calls_none query_no_runModel F), app_nil_r.
    reflexivity.
  - intros st' Hstep. rewrite calcNextStep_steps in Hstep.
    destruct (gate_open (self st') && dataRadiation (flags (self st'))) eqn:Hg;
      [|congruence].
    apply andb_true_iff in Hg. destruct Hg as (Hg & Hr).
    apply gate_open_spec in Hg. tauto.
  - intros st0 history c H0. apply step_needs_everyone. exact H0.
Qed.

(** ** Further properties of SnowpackInterface.cc *)

Section MoreFacts.
Context {sw : WorkerSwitches}.

(** *** uniqueOutputGrids *)

Section SortUnique.
Context {A : Type} (less eqb : A -> A -> bool).
Hypothesis less_irrefl : forall a, less a a = false.
Hypothesis less_trans : forall a b c, less a b = true -> less b c = true -> less a c = true.
Hypothesis less_total : forall a b, less a b = false -> less b a = false -> a = b.
Hypothesis eqb_eq : forall a b, eqb a b = true <-> a = b.

Lemma less_asym a b : less a b = true -> less b a = false.
Proof.
  intros H. destruct (less b a) eqn:E; [|reflexivity].
  rewrite <- (less_irrefl a). symmetry. eapply less_trans; eauto.
Qed.

Lemma not_less_trans a b c : less b a = false -> less c b = false -> less c a = false.
Proof.
  intros Hba Hcb. destruct (less c a) eqn:Hca; [|reflexivity].
  destruct (less a b) eqn:Hab.
  - rewrite <- Hcb. symmetry. eapply less_trans; eauto.
  - rewrite (less_total Hab Hba) in Hca. congruence.
Qed.

Lemma not_less_strict a b : less b a = false -> a <> b -> less a b = true.
Proof.
  intros H Hne. destruct (less a b) eqn:E; [reflexivity|].
  exfalso. apply Hne. now apply less_total.
Qed.

Lemma insert_sorted_perm x l : Permutation (insert_sorted less x l) (x :: l).
Proof.
  induction l as [|y l IH]; simpl; [apply Permutation_refl|].
  destruct (less y x).
  - eapply perm_trans; [apply perm_skip, IH | apply perm_swap].
  - apply Permutation_refl.
Qed.

Lemma sort_with_perm l : Permutation (sort_with less l) l.
Proof.
  induction l as [|x l IH]; simpl; [constructor|].
  eapply perm_trans; [apply insert_sorted_perm | apply perm_skip, IH].
Qed.

Lemma insert_sorted_sorted x l :
  StronglySorted (fun a b => less b a = false) l ->
  StronglySorted (fun a b => less b a = false) (insert_sorted less x l).
Proof.
  induction 1 as [|y l Hs IH Hall]; simpl; [repeat constructor|].
  destruct (less y x) eqn:E.
  - constructor; [exact IH|].
    rewrite Forall_forall in *. intros z Hz.
    apply (Permutation_in _ (insert_sorted_perm x l)) in Hz.
    destruct Hz as [<- | Hz]; [now apply less_asym | now apply Hall].
  - constructor; [now constructor|]. constructor; [exact E|].
    rewrite Forall_forall in *. intros z Hz.
    eapply not_less_trans; [exact E | now apply Hall].
Qed.

Lemma sort_with_sorted l : StronglySorted (fun a b => less b a = false) (sort_with less l).
Proof.
  induction l as [|x l IH]; simpl; [constructor | now apply insert_sorted_sorted].
Qed.

Lemma unique_from_spec : forall l prev,
  StronglySorted (fun a b => less b a = false) l ->
  Forall (fun b => less b prev = false) l ->
  StronglySorted (fun a b => less a b = true) (unique_from eqb prev l) /\
  Forall (fun b => less prev b = true) (unique_from eqb prev l) /\
  forall x, In x (unique_from eqb prev l) <-> In x l /\ x <> prev.
Proof.
  induction l as [|y l IH]; intros prev Hs Hp; simpl.
  - repeat split; try constructor; tauto.
  - inversion Hs as [|? ? Hsl Hyl]; subst. inversion Hp as [|? ? Hpy Hpl]; subst.
    destruct (eqb prev y) eqn:E.
    + apply eqb_eq in E. subst y.
      destruct (IH prev Hsl Hpl) as (H1 & H2 & H3).
      split; [exact H1|]. split; [exact H2|].
      intros x. rewrite H3. intuition congruence.
    + assert (Hne : y <> prev).
      { intros ->. rewrite (proj2 (eqb_eq prev prev) eq_refl) in E. discriminate. }
      assert (Hlt : less prev y = true) by (apply not_less_strict; auto).
      destruct (IH y Hsl Hyl) as (H1 & H2 & H3).
      split; [constructor; assumption|].
      split.
      * constructor; [exact Hlt|].
        rewrite Forall_forall in *. intros z Hz. eapply less_trans; eauto.
      * intros x. simpl. rewrite H3. split.
        -- intros [<- | [Hin Hxy]]; [auto|].
           split; [auto|]. intros ->.
           rewrite Forall_forall in Hyl. specialize (Hyl _ Hin).
           assert (less y prev = true) by (apply not_less_strict; auto).
           rewrite (less_asym Hlt) in H. discriminate.
        -- intros [[<- | Hin] Hx]; [auto|].
           destruct (eqb y x) eqn:Eyx.
           ++ left. now apply eqb_eq.
           ++ right. split; [exact Hin|]. intros ->.
              rewrite (proj2 (eqb_eq y y) eq_refl) in Eyx. discriminate.
Qed.

Lemma std_unique_spec l :
  StronglySorted (fun a b => less b a = false) l ->
  StronglySorted (fun a b => less a b = true) (std_unique eqb l) /\
  forall x, In x (std_unique eqb l) <-> In x l.
Proof.
  destruct l as [|x l]; simpl; intros Hs.
  - split; [constructor | tauto].
  - inversion Hs as [|? ? Hsl Hxl]; subst.
    destruct (unique_from_spec Hsl Hxl) as (H1 & H2 & H3).
    split; [constructor; assumption|].
    intros y. rewrite H3. split.
    + intros [<- | [Hin _]]; auto.
    + intros [<- | Hin]; [auto|].
      destruct (eqb x y) eqn:E; [left; now apply eqb_eq|].
      right. split; [exact Hin|]. intros ->.
      rewrite (proj2 (eqb_eq x x) eq_refl) in E. discriminate.
Qed.

Lemma strictly_sorted_nodup l :
  StronglySorted (fun a b => less a b = true) l -> NoDup l.
Proof.
  induction 1 as [|a l Hs IH Hall]; constructor; [|exact IH].
  intros Hin. rewrite Forall_forall in Hall. specialize (Hall _ Hin).
  rewrite less_irrefl in Hall. discriminate.
Qed.

(** A strictly sorted list is determined by its elements. *)
Lemma strictly_sorted_unique : forall l1 l2,
  StronglySorted (fun a b => less a b = true) l1 ->
  StronglySorted (fun a b => less a b = true) l2 ->
  (forall x, In x l1 <-> In x l2) -> l1 = l2.
Proof.
  induction l1 as [|a l1 IH]; intros l2 H1 H2 Hsame.
  - destruct l2 as [|b l2]; [reflexivity|]. exfalso. apply (Hsame b). now left.
  - destruct l2 as [|b l2]; [exfalso; apply (Hsame a); now left|].
    inversion H1 as [|? ? Hs1 Ha1]; subst. inversion H2 as [|? ? Hs2 Ha2]; subst.
    rewrite Forall_forall in Ha1, Ha2.
    assert (a = b) as ->.
    { destruct (proj1 (Hsame a) (or_introl eq_refl)) as [-> | Ha]; [reflexivity|].
      destruct (proj2 (Hsame b) (or_introl eq_refl)) as [-> | Hb]; [reflexivity|].
      specialize (Ha1 _ Hb). specialize (Ha2 _ Ha).
      rewrite (less_asym Ha1) in Ha2. discriminate. }
    f_equal. apply IH; auto. intros x. split; intros Hx.
    + destruct (proj1 (Hsame x) (or_intror Hx)) as [-> | H]; [|exact H].
      specialize (Ha1 _ Hx). rewrite less_irrefl in Ha1. discriminate.
    + destruct (proj2 (Hsame x) (or_intror Hx)) as [-> | H]; [|exact H].
      specialize (Ha2 _ Hx). rewrite less_irrefl in Ha2. discriminate.
Qed.

End SortUnique.

Lemma string_less_irrefl a : string_less a a = false.
Proof.
  unfold string_less. destruct (OrdersEx.String_as_OT.compare a a) eqn:E; try reflexivity.
  exfalso. apply (RelationClasses.StrictOrder_Irreflexive (R := OrdersEx.String_as_OT.lt) a). exact E.
Qed.

Lemma string_less_lt a b : string_less a b = true <-> OrdersEx.String_as_OT.lt a b.
Proof.
  unfold string_less, OrdersEx.String_as_OT.lt.
  destruct (OrdersEx.String_as_OT.compare a b); split; congruence.
Qed.

Lemma string_less_trans a b c :
  string_less a b = true -> string_less b c = true -> string_less a c = true.
Proof.
  rewrite !string_less_lt. apply (RelationClasses.StrictOrder_Transitive (R := OrdersEx.String_as_OT.lt)).
Qed.

Lemma string_less_total a b :
  string_less a b = false -> string_less b a = false -> a = b.
Proof.
  intros Hab Hba.
  destruct (OrdersEx.String_as_OT.compare_spec a b) as [H | H | H].
  - exact H.
  - apply string_less_lt in H. congruence.
  - apply string_less_lt in H. congruence.
Qed.

Ltac string_order :=
  first [ exact string_less_irrefl | exact string_less_trans
        | exact string_less_total | exact String.eqb_eq ].

Lemma uniqueOutputGrids_sorted (toUpper : String.string -> String.string)
      (output_grids : list String.string) :
  StronglySorted (fun a b => string_less a b = true)
                 (uniqueOutputGrids toUpper output_grids) /\
  forall name, In name (uniqueOutputGrids toUpper output_grids)
               <-> In name (map toUpper output_grids).
Proof.
  unfold uniqueOutputGrids. cbv zeta.
  assert (Hsorted : StronglySorted (fun a b => string_less b a = false)
                      (sort_with string_less (map toUpper output_grids)))
    by (apply sort_with_sorted; string_order).
  destruct (@std_unique_spec _ string_less String.eqb string_less_irrefl string_less_trans
              string_less_total String.eqb_eq _ Hsorted) as (Hs & Hin).
  split; [exact Hs|]. intros name. rewrite Hin. split.
  - apply Permutation_in, sort_with_perm.
  - apply Permutation_in, Permutation_sym, sort_with_perm.
Qed.

Lemma string_sorted_nodup l :
  StronglySorted (fun a b => string_less a b = true) l -> NoDup l.
Proof. apply strictly_sorted_nodup. string_order. Qed.

Lemma string_sorted_unique l1 l2 :
  StronglySorted (fun a b => string_less a b = true) l1 ->
  StronglySorted (fun a b => string_less a b = true) l2 ->
  (forall x, In x l1 <-> In x l2) -> l1 = l2.
Proof. apply strictly_sorted_unique; string_order. Qed.

(** X1. uniqueOutputGrids leaves the requested names in upper case, each once,
    in strictly ascending order. *)
Theorem uniqueOutputGrids_canonical (toUpper : String.string -> String.string)
        (output_grids : list String.string) :
  let result := uniqueOutputGrids toUpper output_grids in
  StronglySorted (fun a b => string_less a b = true) result /\
  NoDup result /\
  forall name, In name result <-> exists g, In g output_grids /\ name = toUpper g.
Proof.
  cbv zeta. destruct (uniqueOutputGrids_sorted toUpper output_grids) as (Hs & Hin).
  split; [exact Hs|]. split; [exact (string_sorted_nodup Hs)|].
  intros name. rewrite Hin, in_map_iff. split.
  - intros (g & <- & Hg). eauto.
  - intros (g & Hg & ->). eauto.
Qed.

(** X2. The list uniqueOutputGrids leaves depends only on which upper-case names
    are requested, not on their order or number; and on its own output it
    changes nothing when toUpper leaves upper-case names alone. *)
Theorem uniqueOutputGrids_by_names (toUpper : String.string -> String.string)
        (grids1 grids2 : list String.string) :
  (forall name, In name (map toUpper grids1) <-> In name (map toUpper grids2)) ->
  uniqueOutputGrids toUpper grids1 = uniqueOutputGrids toUpper grids2 /\
  ((forall name, toUpper (toUpper name) = toUpper name) ->
   uniqueOutputGrids toUpper (uniqueOutputGrids toUpper grids1)
   = uniqueOutputGrids toUpper grids1).
Proof.
  intros Hsame.
  assert (Hcanon : forall g1 g2,
            (forall name, In name (map toUpper g1) <-> In name (map toUpper g2)) ->
            uniqueOutputGrids toUpper g1 = uniqueOutputGrids toUpper g2).
  { intros g1 g2 H.
    destruct (uniqueOutputGrids_sorted toUpper g1) as (S1 & I1).
    destruct (uniqueOutputGrids_sorted toUpper g2) as (S2 & I2).
    apply (string_sorted_unique S1 S2).
    intros x. rewrite I1, I2. apply H. }
  split; [now apply Hcanon|].
  intros Hidem. apply Hcanon. intros name.
  destruct (uniqueOutputGrids_sorted toUpper grids1) as (_ & I1).
  rewrite !in_map_iff. split.
  - intros (g & <- & Hg). apply I1, in_map_iff in Hg. destruct Hg as (g0 & <- & Hg0).
    exists g0. split; [now rewrite Hidem | exact Hg0].
  - intros (g & <- & Hg). exists (toUpper g). split; [apply Hidem|].
    apply I1. now apply in_map.
Qed.

(** *** readSnowCover *)

Lemma readSnowCover_calls fs m GRID_sno LUS_sno sno_type is_special_point :
  let reader := reader_of sno_type in
  let name := chosen_profile fs m GRID_sno LUS_sno sno_type is_special_point in
  fst (readSnowCover fs m GRID_sno LUS_sno sno_type is_special_point)
  = (if is_special_point && negb (is_restart m)
     then [SnowCoverExists reader GRID_sno (station_name m)] else [])
    ++ [ReadSnowCover reader name (station_name m)].
Proof.
  unfold readSnowCover, chosen_profile, reader_of.
  destruct (String.eqb sno_type "SMET"), is_special_point, (is_restart m); simpl;
    repeat match goal with
           | |- context [snowCoverExists ?f ?r ?n ?s] => destruct (snowCoverExists f r n s)
           | |- context [reader_readSnowCover ?f ?r ?n ?s] =>
               destruct (reader_readSnowCover f r n s) as [e | sno]
           | |- context [0 <? nLayers ?sno] => destruct (0 <? nLayers sno)
           | |- context [Ldata ?sno] => destruct (Ldata sno)
           | |- context [date_after ?f ?a ?b] => destruct (date_after f a b)
           end; reflexivity.
Qed.

Lemma readSnowCover_outcome fs m GRID_sno LUS_sno sno_type is_special_point :
  let name := chosen_profile fs m GRID_sno LUS_sno sno_type is_special_point in
  snd (readSnowCover fs m GRID_sno LUS_sno sno_type is_special_point)
  = match reader_readSnowCover fs (reader_of sno_type) name (station_name m) with
    | inl e => Sno_reader_threw fs e
    | inr sno =>
        if 0 <? nLayers sno
        then match Ldata sno with
             | [] => Sno_undefined fs
             | front :: _ =>
                 if date_after fs (depositionDate front) (start_date m)
                 then Sno_IOException fs (young_layer_message m GRID_sno LUS_sno)
                 else Sno_read fs sno
             end
        else Sno_read fs sno
    end.
Proof.
  unfold readSnowCover, chosen_profile, reader_of.
  destruct (String.eqb sno_type "SMET"), is_special_point, (is_restart m); simpl;
    repeat match goal with
           | |- context [snowCoverExists ?f ?r ?n ?s] => destruct (snowCoverExists f r n s)
           | |- context [reader_readSnowCover ?f ?r ?n ?s] =>
               destruct (reader_readSnowCover f r n s) as [e | sno]
           | |- context [0 <? nLayers ?sno] => destruct (0 <? nLayers sno)
           | |- context [Ldata ?sno] => destruct (Ldata sno)
           | |- context [date_after ?f ?a ?b] => destruct (date_after f a b)
           end; reflexivity.
Qed.

(** X3. A profile readSnowCover hands out was read from exactly one file, the
    cell's own on a restart and the land use's for an ordinary cell of a
    cold start, by the reader the key SNOW selects; and it has no layer, or
    a first layer that is not younger than the start date. *)
Theorem readSnowCover_accepts (fs : SnoFiles) (m : SnoMembers)
        (GRID_sno LUS_sno sno_type : String.string) (is_special_point : bool)
        (calls : list SnoCall) (sno : SN_SNOWSOIL_DATA) :
  readSnowCover fs m GRID_sno LUS_sno sno_type is_special_point = (calls, Sno_read fs sno) ->
  exists name,
    filter is_read calls = [ReadSnowCover (reader_of sno_type) name (station_name m)] /\
    reader_readSnowCover fs (reader_of sno_type) name (station_name m) = inr sno /\
    (name = GRID_sno \/ name = LUS_sno) /\
    (is_restart m = true -> name = GRID_sno) /\
    (is_restart m = false -> is_special_point = false -> name = LUS_sno) /\
    (is_restart m = false -> is_special_point = true ->
     name = if snowCoverExists fs (reader_of sno_type) GRID_sno (station_name m)
            then GRID_sno else LUS_sno) /\
    (nLayers sno = 0 \/
     exists front rest, Ldata sno = front :: rest /\
                        date_after fs (depositionDate front) (start_date m) = false).
Proof.
  intros H.
  pose proof (readSnowCover_calls fs m GRID_sno LUS_sno sno_type is_special_point) as Hc.
  pose proof (readSnowCover_outcome fs m GRID_sno LUS_sno sno_type is_special_point) as Ho.
  rewrite H in Hc, Ho. cbv zeta in Hc, Ho. simpl fst in Hc. simpl snd in Ho.
  exists (chosen_profile fs m GRID_sno LUS_sno sno_type is_special_point).
  split.
  { rewrite Hc, filter_app. destruct (is_special_point && negb (is_restart m)); reflexivity. }
  destruct (reader_readSnowCover fs (reader_of sno_type) _ (station_name m))
    as [e | sno'] eqn:Er; [discriminate|].
  assert (Hsno : sno' = sno /\
                 (nLayers sno = 0 \/
                  exists front rest, Ldata sno = front :: rest /\
                    date_after fs (depositionDate front) (start_date m) = false)).
  { destruct (0 <? nLayers sno') eqn:En.
    - destruct (Ldata sno') as [|front rest] eqn:El; [discriminate|].
      destruct (date_after fs (depositionDate front) (start_date m)) eqn:Ed; [discriminate|].
      injection Ho as ->. split; [reflexivity|]. right. eauto.
    - injection Ho as ->. split; [reflexivity|]. left.
      apply Nat.ltb_ge in En. lia. }
  destruct Hsno as (-> & Hage).
  split; [reflexivity|].
  unfold chosen_profile.
  split; [destruct (_ || _); auto|].
  split; [intros ->; reflexivity|].
  split; [intros -> ->; reflexivity|].
  split; [intros -> ->; reflexivity|].
  exact Hage.
Qed.

(** X4. A profile with a first layer younger than the start date is refused with
    an IOException, whichever file it came from. The message names the
    profile of the cell on a restart and the profile of the land use
    otherwise, also when it is the cell's own profile of a special point
    that was read. *)
Theorem readSnowCover_refuses_young (fs : SnoFiles) (m : SnoMembers)
        (GRID_sno LUS_sno sno_type : String.string) (is_special_point : bool)
        (sno : SN_SNOWSOIL_DATA) (front : LayerData) (rest : list LayerData) :
  let name := chosen_profile fs m GRID_sno LUS_sno sno_type is_special_point in
  reader_readSnowCover fs (reader_of sno_type) name (station_name m) = inr sno ->
  0 < nLayers sno ->
  Ldata sno = front :: rest ->
  date_after fs (depositionDate front) (start_date m) = true ->
  snd (readSnowCover fs m GRID_sno LUS_sno sno_type is_special_point)
  = Sno_IOException fs (young_layer_message m GRID_sno LUS_sno) /\
  (is_restart m = false ->
   young_layer_message m GRID_sno LUS_sno
   = String.append "A layer can not be younger than the start date!"
       (String.append " Please check profile '" (String.append LUS_sno "'"))) /\
  (is_restart m = false -> is_special_point = true ->
   snowCoverExists fs (reader_of sno_type) GRID_sno (station_name m) = true ->
   In (ReadSnowCover (reader_of sno_type) GRID_sno (station_name m))
      (fst (readSnowCover fs m GRID_sno LUS_sno sno_type is_special_point))).
Proof.
  intros name Hr Hn Hl Hd. split; [|split].
  - rewrite readSnowCover_outcome. cbv zeta. fold name. rewrite Hr.
    apply Nat.ltb_lt in Hn. rewrite Hn, Hl, Hd. reflexivity.
  - intros Hrestart. unfold young_layer_message. now rewrite Hrestart.
  - intros Hrestart Hsp Hex. rewrite readSnowCover_calls. cbv zeta.
    apply in_or_app. right. left.
    unfold chosen_profile. now rewrite Hrestart, Hsp, Hex.
Qed.

(** *** The constructor: points and stations of the workers *)

Lemma worker_sub_pts_spec (pts : list (Z * Z)) (offset thread_nx : Z) :
  (0 <= offset)%Z -> (0 < thread_nx)%Z -> (offset + thread_nx <= 2 ^ 64)%Z ->
  Forall valid_size_t pts ->
  let sub := worker_sub_pts pts offset ((thread_nx + offset - 1) mod 2 ^ 64)%Z in
  map (restore_point offset) sub = filter (in_columns offset (offset + thread_nx)) pts /\
  Forall (fun q => (0 <= fst q < thread_nx)%Z) sub.
Proof.
  intros Ho Hn Hfit Hv. cbv zeta.
  rewrite (Z.mod_small (thread_nx + offset - 1)) by lia.
  induction Hv as [|p pts Hp Hv IH]; simpl; [auto|].
  destruct IH as (IH1 & IH2). unfold valid_size_t in Hp.
  unfold in_columns at 1.
  destruct (Z.leb_spec offset (fst p)), (Z.leb_spec (fst p) (thread_nx + offset - 1)),
    (Z.ltb_spec (fst p) (offset + thread_nx)); simpl; try lia; auto.
  rewrite Z.mod_small by lia. split.
  - rewrite IH1. unfold restore_point at 1. simpl. f_equal.
    destruct p as [x y]. simpl. f_equal. lia.
  - constructor; [simpl; lia | exact IH2].
Qed.

Lemma constructor_points_of_worker_aux (pts : list (Z * Z)) (offset thread_nx : Z) :
  (0 <= offset)%Z -> (0 < thread_nx)%Z -> (offset + thread_nx <= 2 ^ 64)%Z ->
  Forall valid_size_t pts ->
  exists sub,
    constructor_sub_pts pts offset thread_nx = Some sub /\
    map (restore_point offset) sub = filter (in_columns offset (offset + thread_nx)) pts /\
    Forall (fun q => (0 <= fst q < thread_nx)%Z) sub.
Proof.
  intros Ho Hn Hfit Hv. unfold constructor_sub_pts.
  destruct (Z.ltb_spec 0 thread_nx); [|lia].
  eexists. split; [reflexivity|]. now apply worker_sub_pts_spec.
Qed.

(** X5. A worker receives the registered points of its columns, all of them and
    no other, in the order of the registry, with their column counted from
    the first column of the worker. *)
Theorem constructor_points_of_worker (pts : list (Z * Z)) (offset thread_nx : Z) :
  (0 <= offset)%Z -> (0 < thread_nx)%Z -> (offset + thread_nx <= 2 ^ 64)%Z ->
  Forall valid_size_t pts ->
  exists sub,
    constructor_sub_pts pts offset thread_nx = Some sub /\
    map (restore_point offset) sub = filter (in_columns offset (offset + thread_nx)) pts /\
    Forall (fun q => (0 <= fst q < thread_nx)%Z) sub.
Proof.
  intros Ho Hn Hfit Hv. unfold constructor_sub_pts.
  destruct (Z.ltb_spec 0 thread_nx) as [_ | Hle]; [|lia].
  eexists. split; [reflexivity|].
  now apply worker_sub_pts_spec.
Qed.

Lemma filter_disjoint_union {A} (f g : A -> bool) (l : list A) :
  (forall a, In a l -> f a = true -> g a = false) ->
  Permutation (filter f l ++ filter g l) (filter (fun a => f a || g a) l).
Proof.
  induction l as [|a l IH]; intros H; simpl; [constructor|].
  assert (IH' := IH (fun b Hb => H b (or_intror Hb))).
  destruct (f a) eqn:Ef; simpl.
  - rewrite (H a (or_introl eq_refl) Ef). now constructor.
  - destruct (g a); [|exact IH'].
    eapply perm_trans; [apply Permutation_sym, Permutation_middle|]. now constructor.
Qed.

Lemma total_width_nonneg start slices : tiles start slices -> (0 <= total_width slices)%Z.
Proof.
  revert start. induction slices as [|sl slices IH]; simpl; intros start H; [lia|].
  destruct H as (_ & Hn & Ht). specialize (IH _ Ht). lia.
Qed.

Lemma handed_over_tiles (pts : list (Z * Z)) : forall slices start,
  tiles start slices -> (0 <= start)%Z -> (start + total_width slices <= 2 ^ 64)%Z ->
  Forall valid_size_t pts ->
  Permutation (flat_map (handed_over pts) slices)
              (filter (in_columns start (start + total_width slices)) pts).
Proof.
  induction slices as [|[o n] slices IH]; intros start Ht Hs Hfit Hv.
  - simpl. rewrite filter_none; [constructor|].
    intros p _. unfold in_columns.
    destruct (Z.leb_spec start (fst p)), (Z.ltb_spec (fst p) (start + 0)); simpl; try lia;
      reflexivity.
  - simpl in Ht. destruct Ht as (-> & Hn & Ht). simpl total_width in *.
    pose proof (total_width_nonneg _ _ Ht) as Hw.
    assert (IH' := IH (start + n)%Z Ht ltac:(lia) ltac:(lia) Hv).
    cbn [flat_map]. unfold handed_over at 1. cbn [fst snd].
    destruct (Z.eq_dec n 0) as [-> | Hpos].
    + simpl. rewrite Z.add_0_r in IH'. exact IH'.
    + destruct (@constructor_points_of_worker_aux pts start n) as (sub & -> & Hmap & _);
        try lia; auto.
      rewrite Hmap.
      eapply perm_trans; [apply Permutation_app_head, IH'|].
      eapply perm_trans; [apply filter_disjoint_union|].
      * intros p _. unfold in_columns.
        destruct (Z.leb_spec start (fst p)), (Z.ltb_spec (fst p) (start + n)),
          (Z.leb_spec (start + n) (fst p)),
          (Z.ltb_spec (fst p) (start + n + total_width slices)); simpl; intros; try lia;
          reflexivity.
      * rewrite (filter_ext (fun a => in_columns start (start + n) a
                                      || in_columns (start + n)
                                           (start + n + total_width slices) a)
                            (in_columns start (start + (n + total_width slices))));
          [apply Permutation_refl|].
        intros p. unfold in_columns.
        destruct (Z.leb_spec start (fst p)), (Z.ltb_spec (fst p) (start + n)),
          (Z.leb_spec (start + n) (fst p)),
          (Z.ltb_spec (fst p) (start + n + total_width slices)),
          (Z.ltb_spec (fst p) (start + (n + total_width slices))); simpl; try lia;
          reflexivity.
Qed.

(** X6. Over slices that follow each other from column 0, every registered
    point of the first nx columns is handed to exactly one worker, and a
    point beyond them to none. *)
Theorem constructor_points_distribution (pts : list (Z * Z)) (slices : list (Z * Z)) :
  tiles 0 slices -> (total_width slices <= 2 ^ 64)%Z -> Forall valid_size_t pts ->
  Permutation (flat_map (handed_over pts) slices)
              (filter (fun p => (fst p <? total_width slices)%Z) pts).
Proof.
  intros Ht Hfit Hv.
  eapply perm_trans; [apply (@handed_over_tiles pts slices 0); auto; lia|].
  rewrite (filter_ext_in (in_columns 0 (0 + total_width slices))
                         (fun p => (fst p <? total_width slices)%Z));
    [apply Permutation_refl|].
  intros p Hp. rewrite Forall_forall in Hv. specialize (Hv _ Hp).
  unfold valid_size_t in Hv. unfold in_columns.
  destruct (Z.leb_spec 0 (fst p)); [|lia]. reflexivity.
Qed.

Lemma flat_map_chunks {B} (f : nat -> list B) (c : nat) : forall n k,
  (forall i, k <= i < k + n -> length (f i) = c) ->
  length (flat_map f (seq k n)) = n * c /\
  forall j i, j < n -> i < c ->
    nth_error (flat_map f (seq k n)) (j * c + i) = nth_error (f (k + j)) i.
Proof.
  induction n as [|n IH]; intros k Hlen; simpl.
  - split; [reflexivity | intros; lia].
  - destruct (IH (S k)) as (IH1 & IH2); [intros; apply Hlen; lia|].
    assert (Hk : length (f k) = c) by (apply Hlen; lia).
    split; [rewrite length_app, IH1, Hk; lia|].
    intros [|j] i Hj Hi.
    + simpl. rewrite Nat.add_0_r. apply nth_error_app1. lia.
    + rewrite nth_error_app2 by (rewrite Hk; simpl; lia).
      rewrite Hk. replace (S j * c + i - c) with (j * c + i) by (simpl; lia).
      rewrite IH2 by lia. f_equal. f_equal. lia.
Qed.

(** X7. The stations of a worker: thread_nx of them per row, the station of the
    local cell (ix, iy) being the station of the cell (offset + ix, iy) of
    the process. *)
Theorem constructor_stations_of_worker {Station : Type} (snow_stations : list Station)
        (dimy nx offset thread_nx : nat) :
  offset + thread_nx <= nx ->
  nx * dimy <= length snow_stations ->
  let mine := thread_stations snow_stations dimy nx offset thread_nx in
  length mine = dimy * thread_nx /\
  forall ix iy, ix < thread_nx -> iy < dimy ->
    nth_error mine (iy * thread_nx + ix) = nth_error snow_stations (iy * nx + offset + ix).
Proof.
  intros Hfit Hlen. cbv zeta. unfold thread_stations.
  destruct (@flat_map_chunks Station
              (fun iy => firstn thread_nx (skipn (iy * nx + offset) snow_stations))
              thread_nx dimy 0) as (H1 & H2).
  - intros i Hi. rewrite length_firstn, length_skipn. nia.
  - split; [exact H1|]. intros ix iy Hx Hy.
    rewrite (H2 iy ix Hy Hx). simpl.
    rewrite nth_error_firstn, nth_error_skipn.
    destruct (Nat.ltb_spec ix thread_nx); [reflexivity | lia].
Qed.

(** *** The attachment of the other modules *)

Lemma setEnergyBalance_spec (st : State) :
  exists alb evs,
    setEnergyBalance st
    = Returned tt (mkState (energy_balance_attached (self st))
                           ((trace st ++ evs) ++ [Eb_setAlbedo alb])) /\
    Forall is_query evs /\
    getGrid TOP_ALB (mkState (energy_balance_attached (self st)) (trace st))
    = Returned alb (mkState (energy_balance_attached (self st)) (trace st ++ evs)).
Proof.
  destruct st as [s tr]. unfold setEnergyBalance. run_binds. cbn [setup with_setup with_modules eb when].
  run_binds.
  destruct (getGrid_keeps TOP_ALB
              (mkState (energy_balance_attached s) tr)) as (alb & s' & evs & E & K & F).
  cbn [self trace] in *. subst s'.
  exists alb, evs. split; [|split; [exact F | exact E]].
  change (with_workers (map (setUseEBalance true) (workers _)) _)
    with (energy_balance_attached s).
  rewrite (@bind_returned _ _ _ _ _ _ _ E). reflexivity.
Qed.

(** X8. setEnergyBalance attaches the module, hands it the current albedo of
    the workers once, and runs no step; of the coordinator it changes only
    the module pointer and the switch of the workers. From then on meteo
    fields pushed while the radiation of the step is missing are kept and
    the call returns, where without any module attached the same call ends
    in the no-data error. *)
Theorem energy_balance_makes_meteo_wait (st : State) (timestamp : Date)
        (new_psum new_psum_ph new_vw new_rh new_ta : Grid2DObject) :
  date_neq (nextStepTimestamp (self st)) timestamp = false ->
  dataRadiation (flags (self st)) = false ->
  (exists st1 alb,
     setEnergyBalance st = Returned tt st1 /\
     self st1 = energy_balance_attached (self st) /\
     filter is_Eb_setAlbedo (trace st1) = filter is_Eb_setAlbedo (trace st) ++ [Eb_setAlbedo alb] /\
     (exists st', getGrid TOP_ALB (mkState (self st1) (trace st)) = Returned alb st') /\
     steps_started (trace st1) = steps_started (trace st) /\
     exists st2,
       setMeteo new_psum new_psum_ph new_vw new_rh new_ta timestamp st1 = Returned tt st2 /\
       steps_started (trace st2) = steps_started (trace st) /\
       dataMeteo2D (flags (self st2)) = true /\
       psum (forcing (self st2)) = new_psum) /\
  (eb (setup (self st)) = false -> drift (setup (self st)) = false ->
   da (setup (self st)) = false ->
   exists st', setMeteo new_psum new_psum_ph new_vw new_rh new_ta timestamp st
               = Thrown NoDataException st').
Proof.
  intros Ht Hrad. split.
  - destruct (setEnergyBalance_spec st) as (alb & evs & E & F & Eg).
    eexists. exists alb. split; [exact E|]. cbn [self trace].
    split; [reflexivity|].
    split.
    { rewrite !filter_app. rewrite (@filter_none _ is_Eb_setAlbedo evs).
      - now rewrite app_nil_r.
      - intros ev Hev. rewrite Forall_forall in F. specialize (F _ Hev).
        destruct ev; simpl in *; tauto. }
    split; [eauto|].
    split.
    { rewrite !steps_started_app, (steps_started_none query_no_restart F).
      unfold steps_started. simpl. lia. }
    match goal with |- context [setMeteo _ _ _ _ _ _ ?st1] =>
      destruct (setMeteo_stores new_psum new_psum_ph new_vw new_rh new_ta timestamp st1)
        as (st2 & evs2 & E2 & Etr2 & F2 & Hsu & _ & _ & Hf & stored_ta & Hfor & _)
    end; [exact Ht|].
    cbn [self trace] in *.
    assert (Hclosed : gate_open (self st2) = false).
    { unfold gate_open. rewrite Hsu, Hf. simpl. rewrite Hrad. now rewrite !andb_false_r. }
    exists st2. rewrite E2, calcNextStep_gate, Hclosed.
    split; [reflexivity|].
    split.
    { rewrite Etr2, !steps_started_app, (steps_started_none query_no_restart F2),
        (steps_started_none query_no_restart F).
      unfold steps_started. simpl. lia. }
    split; [now rewrite Hf | now rewrite Hfor].
  - intros Heb Hdrift Hda.
    destruct (setMeteo_stores new_psum new_psum_ph new_vw new_rh new_ta timestamp st Ht)
      as (st1 & evs & E & _ & _ & Hsu & _ & _ & Hf & _).
    exists st1. rewrite E, calcNextStep_gate.
    unfold gate_open. rewrite Hsu, Hf, Heb, Hdrift, Hda. simpl. now rewrite Hrad.
Qed.

(** X9. Once a data-assimilation module is attached the step waits for it:
    after setMeteo and setRadiationComponents for the expected timestamp no
    step has run, and the step runs, once, in the call of assimilate for
    that timestamp. *)
Theorem data_assimilation_is_awaited (st : State) (timestamp : Date)
        (new_psum new_psum_ph new_vw new_rh new_ta daData : Grid2DObject)
        (shortwave_in longwave_in diff_in : Array2D) (solarElevation_in : double) :
  date_neq (nextStepTimestamp (self st)) timestamp = false ->
  dataDa (flags (self st)) = false ->
  (drift (setup (self st)) = true -> dataSnowDrift (flags (self st)) = true) ->
  exists st0 st1 st2,
    setDataAssimilation st = Returned tt st0 /\
    da (setup (self st0)) = true /\
    setMeteo new_psum new_psum_ph new_vw new_rh new_ta timestamp st0 = Returned tt st1 /\
    setRadiationComponents shortwave_in longwave_in diff_in solarElevation_in timestamp st1
    = Returned tt st2 /\
    steps_started (trace st2) = steps_started (trace st) /\
    nextStepTimestamp (self st2) = nextStepTimestamp (self st) /\
    steps_started (trace (final (assimilate daData timestamp st2)))
    = S (steps_started (trace st)).
Proof.
  intros Ht Hda Hdrift. destruct st as [s tr]. cbn [self trace] in *.
  exists (mkState (data_assimilation_attached s) tr).
  destruct (setMeteo_stores new_psum new_psum_ph new_vw new_rh new_ta timestamp
              (mkState (data_assimilation_attached s) tr) Ht)
    as (st1 & evs & E & Etr & F & Hsu & _ & Hn & Hf & _).
  cbn [self trace] in *.
  assert (Hclosed1 : gate_open (self st1) = false).
  { unfold gate_open. rewrite Hsu, Hf. simpl. rewrite Hda. now rewrite !andb_false_r. }
  exists st1.
  assert (Ht1 : date_neq (nextStepTimestamp (self st1)) timestamp = false)
    by (rewrite Hn; exact Ht).
  pose proof (setRadiationComponents_stores shortwave_in longwave_in diff_in
                solarElevation_in timestamp st1 Ht1) as E2.
  set (st2 := mkState _ (trace st1)) in E2.
  assert (Hclosed2 : gate_open (self st2) = false).
  { unfold gate_open, st2. simpl. rewrite Hsu, Hf. simpl. rewrite Hda.
    now rewrite !andb_false_r. }
  exists st2.
  split; [reflexivity|]. split; [reflexivity|].
  split; [rewrite E, calcNextStep_gate, Hclosed1; reflexivity|].
  split; [rewrite E2, calcNextStep_gate, Hclosed2; reflexivity|].
  split.
  { unfold st2. cbn [trace]. rewrite Etr, steps_started_app,
      (steps_started_none query_no_restart F). lia. }
  split; [unfold st2; simpl; exact Hn|].
  assert (Ht2 : date_neq (nextStepTimestamp (self st2)) timestamp = false)
    by (unfold st2; simpl; rewrite Hn; exact Ht).
  rewrite (assimilate_stores daData timestamp st2 Ht2), calcNextStep_steps.
  cbn [self trace].
  assert (Hopen : gate_open (with_flags (set_flag_da (flags (self st2))) (self st2))
                  && dataRadiation (flags (with_flags (set_flag_da (flags (self st2)))
                                                      (self st2))) = true).
  { unfold gate_open, st2. simpl. rewrite Hsu, Hf. simpl.
    destruct (drift (setup s)) eqn:Ed; simpl.
    - rewrite (Hdrift eq_refl). simpl. now destruct (eb (setup s)).
    - now destruct (eb (setup s)). }
  rewrite Hopen. unfold st2. cbn [trace].
  rewrite steps_started_app, Etr, steps_started_app,
    (steps_started_none query_no_restart F).
  change (steps_started [Cout_updating_state]) with 0. lia.
Qed.

Lemma setSnowDrift_spec (st : State) :
  exists evs cH sp rg n3 rb,
    setSnowDrift st
    = Returned tt (mkState (snow_drift_attached (self st))
                           ((trace st ++ evs)
                              ++ [Drift_setSnowSurfaceData cH sp rg n3 rb])) /\
    Forall is_query evs.
Proof.
  destruct st as [s tr]. unfold setSnowDrift. run_binds.
  cbn [setup with_setup with_modules drift when]. run_binds.
  change (with_workers (map (setUseDrift true) (workers _)) _)
    with (snow_drift_attached s).
  repeat first [ progress run_binds | query_grid ].
  unfold emit, emit_all. cbn [self trace].
  exists (evs ++ evs0 ++ evs1 ++ evs2 ++ evs3). do 5 eexists.
  split.
  - rewrite <- !app_assoc. reflexivity.
  - repeat (apply Forall_app; split); assumption.
Qed.

(** X10. setSnowDrift attaches the module, switches the workers and hands the
    module the snow surface once, without a step. From then on the step
    waits for the snow drift: with meteo and radiation pushed for the
    expected timestamp nothing runs; the step runs in the call of
    setSnowMassChange for that timestamp when its grid lies on the DEM, and
    a grid that does not is refused with the coordinator left waiting. *)
Theorem snow_drift_is_awaited (st : State) (timestamp : Date)
        (new_psum new_psum_ph new_vw new_rh new_ta new_mns : Grid2DObject)
        (shortwave_in longwave_in diff_in : Array2D) (solarElevation_in : double) :
  date_neq (nextStepTimestamp (self st)) timestamp = false ->
  dataSnowDrift (flags (self st)) = false ->
  (da (setup (self st)) = true -> dataDa (flags (self st)) = true) ->
  exists st0 st1 st2,
    setSnowDrift st = Returned tt st0 /\
    self st0 = snow_drift_attached (self st) /\
    length (filter is_Drift_setSnowSurfaceData (trace st0))
    = S (length (filter is_Drift_setSnowSurfaceData (trace st))) /\
    setMeteo new_psum new_psum_ph new_vw new_rh new_ta timestamp st0 = Returned tt st1 /\
    setRadiationComponents shortwave_in longwave_in diff_in solarElevation_in timestamp st1
    = Returned tt st2 /\
    steps_started (trace st2) = steps_started (trace st) /\
    (if isSameGeolocalization new_mns (dem (setup (self st)))
     then steps_started (trace (final (setSnowMassChange new_mns timestamp st2)))
          = S (steps_started (trace st))
     else setSnowMassChange new_mns timestamp st2 = Thrown IndexOutOfBoundsException st2).
Proof.
  intros Ht Hflag Hda.
  destruct (setSnowDrift_spec st) as (e0 & cH & sp & rg & n3 & rb & E0 & F0).
  match type of E0 with _ = Returned tt ?x => set (st0 := x) in * end.
  assert (Ht0 : date_neq (nextStepTimestamp (self st0)) timestamp = false) by exact Ht.
  destruct (setMeteo_stores new_psum new_psum_ph new_vw new_rh new_ta timestamp st0 Ht0)
    as (st1 & e1 & E1 & Etr1 & F1 & Hsu1 & _ & Hn1 & Hf1 & _).
  assert (Hclosed1 : gate_open (self st1) = false).
  { unfold gate_open. rewrite Hsu1, Hf1. simpl. rewrite Hflag. reflexivity. }
  exists st0, st1.
  assert (Ht1 : date_neq (nextStepTimestamp (self st1)) timestamp = false)
    by (rewrite Hn1; exact Ht).
  pose proof (setRadiationComponents_stores shortwave_in longwave_in diff_in
                solarElevation_in timestamp st1 Ht1) as E2.
  match type of E2 with _ = calcNextStep ?x => set (st2 := x) in * end.
  assert (Hclosed2 : gate_open (self st2) = false).
  { unfold gate_open, st2. simpl. rewrite Hsu1, Hf1. simpl. rewrite Hflag.
    reflexivity. }
  exists st2.
  assert (Hsteps : steps_started (trace st2) = steps_started (trace st)).
  { unfold st2. cbn [trace]. rewrite Etr1. unfold st0. cbn [trace].
    rewrite !steps_started_app, (steps_started_none query_no_restart F1),
      (steps_started_none query_no_restart F0).
    change (steps_started [Drift_setSnowSurfaceData cH sp rg n3 rb]) with 0. lia. }
  split; [exact E0|]. split; [reflexivity|].
  split.
  { unfold st0. cbn [trace]. rewrite !filter_app, length_app, length_app.
    rewrite (@filter_none _ is_Drift_setSnowSurfaceData e0).
    - simpl. lia.
    - intros ev Hev. rewrite Forall_forall in F0. specialize (F0 _ Hev).
      destruct ev; simpl in *; tauto. }
  split; [rewrite E1, calcNextStep_gate, Hclosed1; reflexivity|].
  split; [rewrite E2, calcNextStep_gate, Hclosed2; reflexivity|].
  split; [exact Hsteps|].
  assert (Ht2 : date_neq (nextStepTimestamp (self st2)) timestamp = false)
    by (unfold st2; simpl; rewrite Hn1; exact Ht).
  assert (Hdem : dem (setup (self st2)) = dem (setup (self st)))
    by (unfold st2; simpl; rewrite Hsu1; reflexivity).
  destruct (isSameGeolocalization new_mns (dem (setup (self st)))) eqn:Hgeo.
  - rewrite <- Hdem in Hgeo.
    rewrite (setSnowMassChange_stores new_mns timestamp st2 Ht2 Hgeo), calcNextStep_steps.
    cbn [self trace].
    assert (Hopen : forall s2,
               setup s2 = setup (self st0) ->
               flags s2 = set_flag_drift (set_flag_radiation (set_flag_meteo (flags (self st)))) ->
               gate_open s2 && dataRadiation (flags s2) = true).
    { intros s2 Hs2 Hf2. unfold gate_open. rewrite Hs2, Hf2. simpl.
      destruct (da (setup (self st))) eqn:Ea; [rewrite (Hda eq_refl)|]; simpl;
        now destruct (eb (setup (self st))). }
    rewrite Hopen.
    + fold st2. now rewrite Hsteps.
    + unfold st2. simpl. exact Hsu1.
    + unfold st2. simpl. rewrite Hf1. reflexivity.
  - rewrite <- Hdem in Hgeo.
    exact (setSnowMassChange_refuses new_mns timestamp st2 Ht2 Hgeo).
Qed.

(** *** What getGrid returns and asks, as functions of the coordinator *)

Lemma getGrid_pure (param : Parameters) (st : State) :
  getGrid param st
  = Returned (getGrid_result (self st) param)
             (mkState (self st) (trace st ++ getGrid_events (self st) param)).
Proof.
  unfold getGrid_result, getGrid_events.
  destruct (is_forcing_parameter param) eqn:E.
  - rewrite (getGrid_forcing _ st E). destruct st. simpl. now rewrite app_nil_r.
  - rewrite (getGrid_workers _ st E). cbv zeta. unfold queries.
    destruct (0 <? _); [now rewrite app_assoc | now rewrite app_nil_r].
Qed.

(** *** writeOutput *)

Lemma filter_flat_map {A B} (f : B -> bool) (g : A -> list B) (l : list A) :
  filter f (flat_map g l) = flat_map (fun a => filter f (g a)) l.
Proof.
  induction l as [|a l IH]; simpl; [reflexivity|]. now rewrite filter_app, IH.
Qed.

Lemma flat_map_flat_map {A B C} (h : B -> list C) (g : A -> list B) (l : list A) :
  flat_map h (flat_map g l) = flat_map (fun a => flat_map h (g a)) l.
Proof.
  induction l as [|a l IH]; simpl; [reflexivity|]. now rewrite flat_map_app, IH.
Qed.

Lemma flat_map_when {A B} (c : A -> bool) (g : A -> list B) (l : list A) :
  flat_map (fun a => if c a then g a else []) l = flat_map g (filter c l).
Proof.
  induction l as [|a l IH]; simpl; [reflexivity|].
  destruct (c a); simpl; now rewrite IH.
Qed.

Lemma flat_map_one {A B} (g : A -> B) (l : list A) :
  flat_map (fun a => [g a]) l = map g l.
Proof. induction l as [|a l IH]; simpl; [reflexivity|]. now rewrite IH. Qed.

Lemma flat_map_nothing {A B} (l : list A) : flat_map (fun _ : A => @nil B) l = [].
Proof. induction l; simpl; auto. Qed.

Lemma writeOutput_loop (s : SnowpackInterface) (date : Date) : forall l tr,
  for_each (fun param =>
              grid <- getGrid param ;;
              when mpi_master
                   (let grid := if mask_glaciers (setup s)
                                then grid_times grid (maskGlacier s) else grid in
                    emit (Io_write2DGrid grid param date)))
           l (mkState s tr)
  = Returned tt (mkState s (tr ++ flat_map (grid_output_events s date) l)).
Proof.
  induction l as [|p l IH]; intros tr; cbn [for_each flat_map].
  - unfold ret. now rewrite app_nil_r.
  - rewrite bind_assoc.
    rewrite (@bind_returned _ _ _ _ _ _ _ (getGrid_pure p (mkState s tr))).
    cbn [self trace]. unfold grid_output_events at 1, masked.
    destruct mpi_master; cbn [when].
    + rewrite bind_emit. cbn [self trace]. rewrite IH. now rewrite <- !app_assoc.
    + rewrite bind_ret, IH. now rewrite app_nil_r, <- app_assoc.
Qed.

Lemma writeOutput_pure (date : Date) (st : State) :
  writeOutput date st
  = Returned tt (mkState (self st) (trace st ++ writeOutput_events (self st) date)).
Proof.
  destruct st as [s tr]. unfold writeOutput, writeOutput_events. rewrite bind_this.
  cbn [self trace].
  destruct (do_grid_output s date); cbn [when].
  - rewrite (@bind_returned _ _ _ _ _ _ _ (writeOutput_loop s date _ tr)).
    destruct mpi_master, (runoff (setup s)); simpl;
      unfold emit, emit_all, ret; simpl; rewrite <- ?app_assoc, ?app_nil_r; reflexivity.
  - rewrite bind_ret.
    destruct mpi_master, (runoff (setup s)); simpl;
      unfold emit, emit_all, ret; simpl; rewrite ?app_nil_r; reflexivity.
Qed.

Lemma getGrid_events_queries (s : SnowpackInterface) (param : Parameters) :
  filter is_Worker_getGrid (getGrid_events s param)
  = if negb (is_forcing_parameter param) then queries s param else [].
Proof.
  unfold getGrid_events. destruct (is_forcing_parameter param); [reflexivity|].
  cbv zeta. rewrite filter_app.
  replace (filter is_Worker_getGrid (if 0 <? _ then _ else _)) with (@nil Event)
    by (destruct (0 <? _); reflexivity).
  rewrite app_nil_r. unfold queries. simpl negb. cbv iota.
  induction (seq 0 (length (workers s))) as [|k l IH]; simpl; [reflexivity|].
  now rewrite IH.
Qed.

Lemma getGrid_events_quiet (s : SnowpackInterface) (param : Parameters) :
  grids_written (getGrid_events s param) = [] /\
  filter is_Runoff_output (getGrid_events s param) = [].
Proof.
  unfold getGrid_events, grids_written. destruct (is_forcing_parameter param); [auto|].
  cbv zeta. rewrite flat_map_app, filter_app.
  assert (H : flat_map (fun ev => match ev with
                                  | Io_write2DGrid grid param date => [(param, grid, date)]
                                  | _ => []
                                  end) (queries s param) = [] /\
              filter is_Runoff_output (queries s param) = []).
  { unfold queries. induction (seq 0 (length (workers s))); simpl; auto. }
  destruct H as [-> ->]. destruct (0 <? _); simpl; auto.
Qed.

(** X11. writeOutput always returns and leaves the coordinator as it was. When
    the grids are due, every process asks the workers for each output grid
    they compute, in the order of the configuration, but only the master
    writes: one grid per configured parameter, in that order, masked when
    glaciers are masked, for the date of the call; a process that is not
    the master writes nothing. The runoff module is given the stored
    precipitation and air temperature once, on the master and only when
    it is attached. *)
Theorem writeOutput_writes (date : Date) (st : State) :
  let s := self st in
  exists evs,
    writeOutput date st = Returned tt (mkState s (trace st ++ evs)) /\
    grids_written evs
    = (if mpi_master && do_grid_output s date
       then map (fun param => (param, masked s (getGrid_result s param), date))
                (output_grids (setup s))
       else []) /\
    (forall param, exists st',
        getGrid param st = Returned (getGrid_result s param) st') /\
    filter is_Worker_getGrid evs
    = (if do_grid_output s date
       then flat_map (queries s)
                     (filter (fun param => negb (is_forcing_parameter param))
                             (output_grids (setup s)))
       else []) /\
    filter is_Runoff_output evs
    = (if mpi_master && runoff (setup s)
       then [Runoff_output date (psum (forcing s)) (ta (forcing s))] else []).
Proof.
  intros s. exists (writeOutput_events s date).
  split; [apply writeOutput_pure|].
  assert (Hw : forall l,
             grids_written (flat_map (grid_output_events s date) l)
             = if mpi_master
               then map (fun param => (param, masked s (getGrid_result s param), date)) l
               else []).
  { intros l. unfold grids_written. rewrite flat_map_flat_map.
    unfold grid_output_events.
    rewrite (flat_map_ext _ (fun param => if mpi_master
                                          then [(param, masked s (getGrid_result s param), date)]
                                          else [])).
    - destruct mpi_master; [apply flat_map_one | apply flat_map_nothing].
    - intros p. rewrite flat_map_app.
      destruct (getGrid_events_quiet s p) as [Hq _]. unfold grids_written in Hq.
      rewrite Hq. now destruct mpi_master. }
  assert (Hq : forall l,
             filter is_Worker_getGrid (flat_map (grid_output_events s date) l)
             = flat_map (queries s)
                        (filter (fun param => negb (is_forcing_parameter param)) l)).
  { intros l. rewrite filter_flat_map, <- flat_map_when.
    apply flat_map_ext. intros p. unfold grid_output_events.
    rewrite filter_app, getGrid_events_queries.
    replace (filter is_Worker_getGrid (if mpi_master then _ else _)) with (@nil Event)
      by (destruct mpi_master; reflexivity).
    apply app_nil_r. }
  assert (Hr : forall l,
             filter is_Runoff_output (flat_map (grid_output_events s date) l) = []).
  { intros l. rewrite filter_flat_map.
    rewrite (flat_map_ext _ (fun _ => [])); [apply flat_map_nothing|].
    intros p. unfold grid_output_events. rewrite filter_app.
    destruct (getGrid_events_quiet s p) as [_ ->]. now destruct mpi_master. }
  unfold writeOutput_events.
  split; [|split; [|split]].
  - unfold grids_written at 1. rewrite flat_map_app. fold (grids_written).
    replace (flat_map _ (if mpi_master && runoff (setup s) then _ else _))
      with (@nil (Parameters * Grid2DObject * Date))
      by (destruct (mpi_master && runoff (setup s)); reflexivity).
    rewrite app_nil_r.
    destruct (do_grid_output s date).
    + fold (grids_written (flat_map (grid_output_events s date) (output_grids (setup s)))).
      rewrite Hw. now destruct mpi_master.
    + now rewrite andb_false_r.
  - intros param. eexists. apply getGrid_pure.
  - rewrite filter_app.
    replace (filter is_Worker_getGrid (if mpi_master && runoff (setup s) then _ else _))
      with (@nil Event) by (destruct (mpi_master && runoff (setup s)); reflexivity).
    rewrite app_nil_r. destruct (do_grid_output s date); [apply Hq | reflexivity].
  - rewrite filter_app.
    replace (filter is_Runoff_output (if do_grid_output s date then _ else _))
      with (@nil Event) by (destruct (do_grid_output s date); [symmetry; apply Hr | reflexivity]).
    now destruct (mpi_master && runoff (setup s)).
Qed.

Lemma writeOutput_events_runoff (s : SnowpackInterface) (date : Date) :
  filter is_Runoff_output (writeOutput_events s date)
  = (if mpi_master && runoff (setup s)
     then [Runoff_output date (psum (forcing s)) (ta (forcing s))] else []).
Proof.
  unfold writeOutput_events. rewrite filter_app.
  assert (Hgrids : filter is_Runoff_output
                     (if do_grid_output s date
                      then flat_map (grid_output_events s date) (output_grids (setup s))
                      else []) = []).
  { destruct (do_grid_output s date); [|reflexivity].
    rewrite filter_flat_map.
    rewrite (flat_map_ext _ (fun _ => [])); [apply flat_map_nothing|].
    intros p. unfold grid_output_events. rewrite filter_app.
    destruct (getGrid_events_quiet s p) as [_ ->]. now destruct mpi_master. }
  rewrite Hgrids. now destruct (mpi_master && runoff (setup s)).
Qed.

(** X26. setRunoff only sets the pointer: nothing is written, no step runs, and
    what a step waits for is as before. From then on every call of
    writeOutput on the master hands the runoff module the stored
    precipitation and air temperature exactly once, whether or not gridded
    output is due; on another process the module is never called. *)
Theorem runoff_receives_every_output (st : State) (date : Date) :
  let s := self st in
  setRunoff st = Returned tt (mkState (runoff_attached s) (trace st)) /\
  gate_open (runoff_attached s) = gate_open s /\
  forcing (runoff_attached s) = forcing s /\
  flags (runoff_attached s) = flags s /\
  nextStepTimestamp (runoff_attached s) = nextStepTimestamp s /\
  exists evs,
    writeOutput date (mkState (runoff_attached s) (trace st))
    = Returned tt (mkState (runoff_attached s) (trace st ++ evs)) /\
    filter is_Runoff_output evs
    = (if mpi_master
       then [Runoff_output date (psum (forcing s)) (ta (forcing s))] else []).
Proof.
  cbv zeta. split; [reflexivity|].
  split; [reflexivity|]. split; [reflexivity|]. split; [reflexivity|].
  split; [reflexivity|].
  exists (writeOutput_events (runoff_attached (self st)) date).
  split; [apply (writeOutput_pure date (mkState (runoff_attached (self st)) (trace st)))|].
  rewrite writeOutput_events_runoff. cbn [runoff_attached setup with_setup with_modules runoff].
  rewrite andb_true_r. reflexivity.
Qed.

(** *** write_special_points *)

Lemma filter_map_none {A B} (f : B -> bool) (g : A -> B) (l : list A) :
  (forall a, f (g a) = false) -> filter f (map g l) = [].
Proof.
  intros H. apply filter_none. intros b Hb. apply in_map_iff in Hb.
  destruct Hb as (a & <- & _). apply H.
Qed.

Lemma batches_events_filters (s : SnowpackInterface) : forall batches own,
  let date := nextStepTimestamp s in
  let r := batches_events s own batches in
  let done := written_batches (setup s) date batches in
  let failure := failing_batch (setup s) date batches in
  let attempted := done ++ match failure with Some (process, _) => [process] | None => [] end in
  snd r = option_map snd failure /\
  filter is_WriteOutputSpecialPoints (fst r) = map (WriteOutputSpecialPoints date) attempted /\
  filter is_WriteSnowCover (fst r)
  = (if sno_due s then map (WriteSnowCover date) done else []) /\
  filter is_message (fst r)
  = flat_map (fun ii => [Mpi_receive ii; Mpi_receive ii; Mpi_receive ii])
             (if own then tl attempted else attempted) /\
  filter is_Worker_getOutputSpecialPoints (fst r) = [] /\
  filter is_Worker_clearSpecialPointsData (fst r) = [] /\
  (failure = None -> done = map fst batches).
Proof.
  cbv zeta. induction batches as [|[process points] batches IH]; intros own;
    cbn [batches_events written_batches failing_batch].
  - cbn. destruct (sno_due s), own; auto 10.
  - destruct (points_exception (setup s) (nextStepTimestamp s) points) as [thrown|].
    + cbn [fst snd option_map app map tl flat_map].
      destruct own, (sno_due s); cbn; repeat split; discriminate.
    + specialize (IH false).
      destruct (batches_events s false batches) as [evs failure]. cbn [fst snd] in *.
      destruct IH as (H0 & H1 & H2 & H3 & H4 & H5 & H6).
      split; [exact H0|].
      rewrite !filter_app, H1, H2, H3, H4, H5.
      destruct own, (sno_due s); cbn; repeat split; try reflexivity;
        intros Hnone; now rewrite (H6 Hnone).
Qed.

Lemma point_batches_processes (s : SnowpackInterface) :
  map fst (point_batches s) = special_point_processes s.
Proof.
  unfold point_batches, special_point_processes.
  destruct (do_io_locally (setup s)); [reflexivity|].
  destruct mpi_master; [|reflexivity].
  cbn [map fst]. f_equal. rewrite map_map. cbn [fst]. apply map_id.
Qed.

(** X12. In one call of write_special_points every worker is asked for its
    special points. The SMET lines are then written for this process alone
    under local I/O, for this process and then every rank but the master's,
    in ascending order, on the master, and for no process elsewhere, until
    write_SMET throws for a point of one of them. A snow cover file goes
    with each process written before that, exactly when none was written
    before and the regular snow cover output is off. Local I/O exchanges no
    message; otherwise the master receives three messages from every other
    rank it gets to, and every other process sends three messages to the
    master rank. If no call throws, write_special_points returns, every
    worker has cleared its buffers, and the coordinator remembers the snow
    cover files (under local I/O, if it wrote them). If a call throws, that
    exception leaves write_special_points with the coordinator as it was:
    snow_poi_written is not set, and no worker has cleared its buffers. *)
Theorem write_special_points_io (st : State) :
  let s := self st in
  let date := nextStepTimestamp s in
  let all := seq 0 (length (workers s)) in
  let done := written_batches (setup s) date (point_batches s) in
  let failure := failing_batch (setup s) date (point_batches s) in
  let attempted := done ++ match failure with Some (process, _) => [process] | None => [] end in
  exists st' evs,
    trace st' = trace st ++ evs /\
    but_poi_written (self st') = but_poi_written s /\
    map fst (point_batches s) = special_point_processes s /\
    filter is_Worker_getOutputSpecialPoints evs = map Worker_getOutputSpecialPoints all /\
    filter is_WriteOutputSpecialPoints evs = map (WriteOutputSpecialPoints date) attempted /\
    filter is_WriteSnowCover evs
    = (if negb (snow_write (setup s)) && negb (snow_poi_written s)
       then map (WriteSnowCover date) done else []) /\
    filter is_message evs
    = (if do_io_locally (setup s) then []
       else if mpi_master
            then flat_map (fun ii => [Mpi_receive ii; Mpi_receive ii; Mpi_receive ii])
                          (tl attempted)
            else [Mpi_send mpi_master_rank; Mpi_send mpi_master_rank;
                  Mpi_send mpi_master_rank]) /\
    match failure with
    | None =>
        write_special_points st = Returned tt st' /\
        done = special_point_processes s /\
        snow_poi_written (self st')
        = (if do_io_locally (setup s) then snow_poi_written s || negb (snow_write (setup s))
           else snow_poi_written s || mpi_master) /\
        filter is_Worker_clearSpecialPointsData evs
        = map Worker_clearSpecialPointsData all
    | Some (process, thrown) =>
        write_special_points st = Thrown (FileException thrown) st' /\
        self st' = s /\
        filter is_Worker_clearSpecialPointsData evs = []
    end.
Proof.
  intros s date all done failure attempted.
  pose proof (write_special_points_run st) as E. cbv zeta in E. fold s all in E.
  pose proof (point_batches_processes s) as Hprocs.
  assert (Hget : filter is_Worker_getOutputSpecialPoints (map Worker_getOutputSpecialPoints all)
                 = map Worker_getOutputSpecialPoints all).
  { apply forallb_filter_id. apply forallb_forall. intros ev Hev.
    apply in_map_iff in Hev. destruct Hev as (k & <- & _). reflexivity. }
  assert (Hclear : filter is_Worker_clearSpecialPointsData
                     (map Worker_clearSpecialPointsData all)
                   = map Worker_clearSpecialPointsData all).
  { apply forallb_filter_id. apply forallb_forall. intros ev Hev.
    apply in_map_iff in Hev. destruct Hev as (k & <- & _). reflexivity. }
  assert (Hrun : let r := special_points_run s in
                 snd r = option_map snd failure /\
                 filter is_WriteOutputSpecialPoints (fst r)
                 = map (WriteOutputSpecialPoints date) attempted /\
                 filter is_WriteSnowCover (fst r)
                 = (if sno_due s then map (WriteSnowCover date) done else []) /\
                 filter is_message (fst r)
                 = (if do_io_locally (setup s) then []
                    else if mpi_master
                         then flat_map (fun ii => [Mpi_receive ii; Mpi_receive ii; Mpi_receive ii])
                                       (tl attempted)
                         else [Mpi_send mpi_master_rank; Mpi_send mpi_master_rank;
                               Mpi_send mpi_master_rank]) /\
                 filter is_Worker_getOutputSpecialPoints (fst r) = [] /\
                 filter is_Worker_clearSpecialPointsData (fst r) = [] /\
                 (failure = None -> done = special_point_processes s)).
  { cbv zeta. unfold special_points_run.
    pose proof (batches_events_filters s (point_batches s) true) as H. cbv zeta in H.
    fold date done failure attempted in H. rewrite Hprocs in H.
    destruct H as (H0 & H1 & H2 & H3 & H4 & H5 & H6).
    destruct (do_io_locally (setup s)) eqn:Eio; cbn [orb].
    - repeat split; auto. rewrite H3.
      unfold attempted, done, failure, point_batches. rewrite Eio.
      cbn [written_batches failing_batch].
      destruct (points_exception _ _ _); reflexivity.
    - destruct mpi_master eqn:Em.
      + repeat split; auto.
      + unfold attempted, done, failure, point_batches, special_point_processes.
        rewrite Eio, Em. cbn. destruct (sno_due s); repeat split. }
  cbv zeta in Hrun. destruct Hrun as (H0 & H1 & H2 & H3 & H4 & H5 & H6).
  rewrite H0 in E. fold (sno_due s).
  destruct failure as [[process thrown]|] eqn:Ef; cbn [option_map snd] in E.
  - exists (mkState s (trace st ++ map Worker_getOutputSpecialPoints all
                                ++ fst (special_points_run s))),
      (map Worker_getOutputSpecialPoints all ++ fst (special_points_run s)).
    split; [reflexivity|]. cbn [self].
    split; [reflexivity|]. split; [exact Hprocs|].
    repeat split.
    + rewrite filter_app, Hget, H4. apply app_nil_r.
    + rewrite filter_app, H1, filter_map_none by reflexivity. reflexivity.
    + rewrite filter_app, H2, filter_map_none by reflexivity. reflexivity.
    + rewrite filter_app, H3, filter_map_none by reflexivity. reflexivity.
    + exact E.
    + rewrite filter_app, H5, filter_map_none by reflexivity. reflexivity.
  - exists (mkState (after_special_points s)
                    (trace st ++ map Worker_getOutputSpecialPoints all
                       ++ fst (special_points_run s)
                       ++ map Worker_clearSpecialPointsData all)),
      (map Worker_getOutputSpecialPoints all ++ fst (special_points_run s)
         ++ map Worker_clearSpecialPointsData all).
    split; [reflexivity|]. cbn [self].
    split.
    { unfold after_special_points, but_poi_written.
      destruct (do_io_locally (setup s)), (sno_due s), mpi_master; reflexivity. }
    split; [exact Hprocs|].
    repeat split.
    + rewrite !filter_app, Hget, H4, filter_map_none by reflexivity. now rewrite app_nil_r.
    + rewrite !filter_app, H1, !filter_map_none by reflexivity. now rewrite app_nil_r.
    + rewrite !filter_app, H2, !filter_map_none by reflexivity. now rewrite app_nil_r.
    + rewrite !filter_app, H3, !filter_map_none by reflexivity. now rewrite app_nil_r.
    + exact E.
    + apply H6. reflexivity.
    + unfold after_special_points, sno_due.
      destruct (do_io_locally (setup s)), (snow_write (setup s)), (snow_poi_written s) eqn:Ew,
        mpi_master; simpl; auto.
    + rewrite !filter_app, H5, Hclear, filter_map_none by reflexivity. reflexivity.
Qed.

(** *** Histories of calls: the clock and the snow cover of the special points *)

Lemma steps_completed_app tr evs :
  steps_completed (tr ++ evs) = steps_completed tr + steps_completed evs.
Proof. unfold steps_completed. now rewrite filter_app, length_app. Qed.

Lemma quiet_counts evs :
  Forall quiet evs -> steps_completed evs = 0 /\ filter is_WriteSnowCover evs = [].
Proof.
  intros H. unfold steps_completed. rewrite !filter_none; [auto| |];
    intros ev Hev; rewrite Forall_forall in H; specialize (H _ Hev);
    destruct ev; simpl in *; tauto.
Qed.

Lemma query_quiet ev : is_query ev -> quiet ev.
Proof. destruct ev; simpl; tauto. Qed.
Lemma run_quiet ev : is_run_event ev -> quiet ev.
Proof. destruct ev; simpl; tauto. Qed.

Lemma getGrid_quiet (param : Parameters) : keeps (fun s => s) quiet (getGrid param).
Proof.
  eapply keeps_weaken; [| apply query_quiet | apply getGrid_keeps]. auto.
Qed.

Lemma writeOutput_quiet date : keeps (fun s => s) quiet (writeOutput date).
Proof.
  unfold writeOutput. apply keeps_bind; [apply keeps_this|]. intros s.
  keeps_steps_with ltac:(apply getGrid_quiet).
Qed.

Lemma effect_same s s' evs :
  setup s' = setup s -> nextStepTimestamp s' = nextStepTimestamp s ->
  snow_poi_written s' = snow_poi_written s -> Forall quiet evs ->
  effect s s' evs.
Proof.
  intros Hsu Hn Hw Hq. destruct (quiet_counts Hq) as [Hc Hf].
  unfold effect. rewrite Hc, Hf. repeat split; auto. congruence.
Qed.

Lemma sno_due_stays_off s s' :
  setup s' = setup s -> (snow_poi_written s = true -> snow_poi_written s' = true) ->
  sno_due s = false -> sno_due s' = false.
Proof.
  unfold sno_due. intros -> Hm.
  destruct (snow_write (setup s)); [reflexivity|]. simpl.
  destruct (snow_poi_written s); [|discriminate]. intros _. now rewrite (Hm eq_refl).
Qed.

Lemma sno_due_same s s' :
  setup s' = setup s -> snow_poi_written s' = snow_poi_written s -> sno_due s' = sno_due s.
Proof. unfold sno_due. now intros -> ->. Qed.

Lemma special_point_processes_same s s' :
  setup s' = setup s -> special_point_processes s' = special_point_processes s.
Proof. unfold special_point_processes. now intros ->. Qed.

Lemma effect_trans s s1 s2 e1 e2 :
  effect s s1 e1 -> effect s1 s2 e2 -> effect s s2 (e1 ++ e2).
Proof.
  intros (Hsu1 & Hn1 & Hm1 & Hoff1 & Hloc1 & Hrem1) (Hsu2 & Hn2 & Hm2 & Hoff2 & Hloc2 & Hrem2).
  unfold effect. rewrite steps_completed_app, filter_app.
  split; [congruence|]. split.
  { rewrite Hn2. unfold clock_after. rewrite Hn1, Hsu1. unfold clock_after.
    rewrite (Nat.add_comm (steps_completed e1)). now rewrite Nat.iter_add. }
  split; [auto|]. split.
  { intros Hoff. rewrite (Hoff1 Hoff), (Hoff2 (@sno_due_stays_off s s1 Hsu1 Hm1 Hoff)).
    reflexivity. }
  split.
  - intros Hio. rewrite Hsu1 in Hloc2.
    destruct (Hloc1 Hio) as [-> | (Hd1 & Hp1 & date1 & ->)].
    + destruct (Hloc2 Hio) as [-> | (Hd2 & Hp2 & date2 & ->)]; [now left|].
      right. split; [|split; [exact Hp2 | exists date2; reflexivity]].
      destruct (sno_due s) eqn:Ed; [reflexivity|].
      rewrite (@sno_due_stays_off s s1 Hsu1 Hm1 Ed) in Hd2. discriminate Hd2.
    + right. split; [exact Hd1|]. split; [auto|]. exists date1.
      rewrite Hoff2; [reflexivity|].
      unfold sno_due. rewrite Hp1. apply andb_false_r.
  - intros Hio Hm. rewrite Hsu1 in Hrem2. now rewrite (Hrem1 Hio Hm), (Hrem2 Hio Hm).
Qed.

Lemma poi_no_timer_stop ev : is_poi_output ev -> is_Timer_stop ev = false.
Proof. destruct ev; simpl; tauto. Qed.

(** What the special points output does to the clock and to the snow cover
    files, however it ends. *)
Lemma write_special_points_effect (st : State) :
  let o := write_special_points st in
  exists evs,
    trace (final o) = trace st ++ evs /\
    effect (self st) (self (final o)) evs.
Proof.
  cbv zeta.
  destruct (write_special_points_output st) as (s' & evs & K & F & Hout).
  assert (Hfinal : final (write_special_points st) = mkState s' (trace st ++ evs)).
  { destruct Hout as [[E _] | (thrown & E & _)]; now rewrite E. }
  rewrite Hfinal. cbn [self trace]. exists evs. split; [reflexivity|].
  pose proof (write_special_points_run st) as E. cbv zeta in E.
  set (s := self st) in *.
  apply but_poi_written_fields in K. destruct K as (K1 & _ & _ & _ & K5 & _).
  pose proof (batches_events_filters s (point_batches s) true) as Hb. cbv zeta in Hb.
  destruct Hb as (Hb0 & _ & Hb2 & _).
  assert (Hc : steps_completed evs = 0).
  { unfold steps_completed. rewrite filter_none; [reflexivity|].
    intros ev Hev. rewrite Forall_forall in F. apply poi_no_timer_stop, F, Hev. }
  assert (Hevs : (snd (special_points_run s) = None /\ s' = after_special_points s /\
                  filter is_WriteSnowCover evs
                  = filter is_WriteSnowCover (fst (special_points_run s))) \/
                 (snd (special_points_run s) <> None /\ s' = s /\
                  filter is_WriteSnowCover evs
                  = filter is_WriteSnowCover (fst (special_points_run s)))).
  { destruct (snd (special_points_run s)) as [thrown|]; rewrite E in Hfinal;
      cbn [final] in Hfinal; injection Hfinal as Hs Htr; apply app_inv_head in Htr;
      subst s' evs; [right | left].
    - split; [discriminate|]. split; [reflexivity|].
      rewrite filter_app, filter_map_none by reflexivity. reflexivity.
    - split; [reflexivity|]. split; [reflexivity|].
      rewrite !filter_app, !filter_map_none by reflexivity. now rewrite app_nil_r. }
  assert (Hwsc : filter is_WriteSnowCover (fst (special_points_run s))
                 = if do_io_locally (setup s) || mpi_master
                   then if sno_due s
                        then map (WriteSnowCover (nextStepTimestamp s))
                                 (written_batches (setup s) (nextStepTimestamp s)
                                                  (point_batches s))
                        else []
                   else []).
  { unfold special_points_run. destruct (do_io_locally (setup s) || mpi_master);
      [exact Hb2 | reflexivity]. }
  assert (Hmono : snow_poi_written s = true -> snow_poi_written s' = true).
  { destruct Hevs as [(_ & -> & _) | (_ & -> & _)]; [|auto].
    unfold after_special_points.
    destruct (do_io_locally (setup s)), (sno_due s), mpi_master; simpl; auto. }
  assert (Hfilter : filter is_WriteSnowCover evs
                    = filter is_WriteSnowCover (fst (special_points_run s)))
    by (destruct Hevs as [(_ & _ & H) | (_ & _ & H)]; exact H).
  unfold effect. rewrite Hc. split; [exact K1|]. split; [exact K5|].
  split; [exact Hmono|]. rewrite Hfilter, Hwsc. split.
  { intros ->. now destruct (do_io_locally (setup s) || mpi_master). }
  split.
  - intros Hio. rewrite Hio. cbn [orb].
    destruct (sno_due s) eqn:Ed; [|now left].
    unfold point_batches. rewrite Hio. cbn [written_batches].
    destruct Hevs as [(Hnone & -> & _) | (Hsome & _)].
    + unfold special_points_run, point_batches in Hnone. rewrite Hio in Hnone.
      cbn [orb batches_events] in Hnone.
      destruct (points_exception (setup s) (nextStepTimestamp s) _); [discriminate Hnone|].
      right. split; [reflexivity|].
      split; [|exists (nextStepTimestamp s); reflexivity].
      unfold after_special_points. now rewrite Hio, Ed.
    + unfold special_points_run, point_batches in Hsome. rewrite Hio in Hsome.
      cbn [orb batches_events] in Hsome.
      destruct (points_exception (setup s) (nextStepTimestamp s) _); [now left|].
      now contradiction Hsome.
  - intros -> ->. reflexivity.
Qed.

Lemma poi_phase_effect (s0 : SnowpackInterface) (st : State) :
  let o := poi_phase s0 st in
  exists evs,
    trace (final o) = trace st ++ evs /\
    effect (self st) (self (final o)) evs.
Proof.
  unfold poi_phase.
  destruct (negb match pts (setup s0) with [] => true | _ => false end); cbn [when].
  - apply write_special_points_effect.
  - exists []. cbn. split; [now rewrite app_nil_r | apply effect_same; auto].
Qed.

Lemma publish_effect (s0 : SnowpackInterface) (errCount : nat) (st : State) :
  exists evs,
    trace (final (publish s0 errCount st)) = trace st ++ evs /\
    effect (self st) (self (final (publish s0 errCount st))) evs.
Proof.
  destruct st as [s tr]. unfold publish.
  destruct (0 <? errCount).
  - exists [Std_abort]. cbn. split; [reflexivity|].
    apply effect_same; auto. repeat constructor.
  - rewrite bind_ret.
    match goal with |- context [bind ?m ?k ?st0] =>
      destruct (@bind_keeps _ _ _ (fun s => s) quiet m k st0) as (a2 & s2 & e2 & K2 & F2 & E2)
    end.
    { keeps_steps_with ltac:(apply getGrid_quiet). }
    cbn [self trace] in *. subst s2. rewrite E2. clear E2.
    match goal with |- context [bind ?m ?k ?st0] =>
      destruct (@bind_keeps _ _ _ (fun s => s) quiet m k st0) as (a3 & s3 & e3 & K3 & F3 & E3)
    end.
    { keeps_steps_with ltac:(apply getGrid_quiet). }
    cbn [self trace] in *. subst s3. rewrite E3. clear E3.
    rewrite bind_this. cbn [self trace].
    match goal with |- context [bind ?m ?k ?st0] =>
      destruct (@bind_keeps _ _ _ (fun s => s) quiet m k st0) as (a4 & s4 & e4 & K4 & F4 & E4)
    end.
    { apply writeOutput_quiet. }
    cbn [self trace] in *. subst s4. rewrite E4. clear E4.
    rewrite bind_emit. cbn [self trace].
    match goal with |- context [bind ?m ?k ?st0] =>
      destruct (@bind_keeps _ _ _ (fun s => s) quiet m k st0) as (a5 & s5 & e5 & K5 & F5 & E5)
    end.
    { keeps_steps. }
    cbn [self trace] in *. subst s5. rewrite E5. clear E5.
    unfold modify. cbn [self trace final].
    exists ((e2 ++ e3 ++ e4) ++ [Timer_stop] ++ e5).
    split; [now rewrite <- !app_assoc|].
    assert (Hq : Forall quiet (e2 ++ e3 ++ e4))
      by (repeat (apply Forall_app; split); assumption).
    destruct (quiet_counts Hq) as [Hc Hf]. destruct (quiet_counts F5) as [Hc5 Hf5].
    unfold effect. rewrite steps_completed_app, Hc, steps_completed_app, Hc5.
    rewrite filter_app, Hf, filter_app, Hf5.
    simpl. repeat split; auto.
Qed.

Lemma run_step_effect (st : State) :
  exists evs,
    trace (final (run_step st)) = trace st ++ evs /\
    effect (self st) (self (final (run_step st))) evs.
Proof.
  destruct st as [s tr]. unfold run_step.
  rewrite bind_emit, bind_this. cbn [self trace].
  pose proof (run_workers_events s (workers s) 0) as Frun.
  destruct (run_workers s 0 (workers s)) as [[ws errCount] revs]. cbn [snd] in Frun.
  rewrite bind_modify, bind_emit_all. cbn [self trace].
  fold (poi_phase s).
  assert (Hrun : effect s (with_workers ws s) ([Timer_restart] ++ revs)).
  { apply effect_same; try reflexivity.
    apply Forall_app. split; [repeat constructor|].
    eapply Forall_impl; [apply run_quiet | exact Frun]. }
  match goal with |- context [bind (poi_phase s) ?k ?st0] =>
    destruct (poi_phase_effect s st0) as (pe & Etr1 & Hpe);
    destruct (poi_phase s st0) as [[] st1 | e st1 | st1] eqn:Eo;
    [ rewrite (@bind_returned _ _ _ _ _ _ _ Eo)
    | rewrite (@bind_thrown _ _ _ _ _ _ _ Eo)
    | rewrite (@bind_aborted _ _ _ _ _ _ Eo) ]
  end;
  cbn [self trace final] in *.
  - match goal with |- context [final (bind ?m ?k ?st0)] =>
      change (bind m k st0) with (publish s errCount st0)
    end.
    destruct (publish_effect s errCount st1) as (e2 & Etr & He2).
    exists ((([Timer_restart] ++ revs) ++ pe) ++ e2).
    split; [rewrite Etr, Etr1; now rewrite <- !app_assoc|].
    eapply effect_trans; [|exact He2].
    eapply effect_trans; [exact Hrun | exact Hpe].
  - exists (([Timer_restart] ++ revs) ++ pe).
    split; [rewrite Etr1; now rewrite <- !app_assoc|].
    eapply effect_trans; [exact Hrun | exact Hpe].
  - exists (([Timer_restart] ++ revs) ++ pe).
    split; [rewrite Etr1; now rewrite <- !app_assoc|].
    eapply effect_trans; [exact Hrun | exact Hpe].
Qed.

Lemma calcNextStep_effect (st : State) :
  exists evs,
    trace (final (calcNextStep st)) = trace st ++ evs /\
    effect (self st) (self (final (calcNextStep st))) evs.
Proof.
  rewrite calcNextStep_gate.
  destruct (gate_open (self st)).
  - destruct (dataRadiation (flags (self st))).
    + destruct (run_step_effect (flags_cleared st)) as (evs & Etr & He).
      exists evs. split; [exact Etr|].
      change evs with ([] ++ evs). eapply effect_trans; [|exact He].
      apply effect_same; auto.
    + exists []. simpl. split; [now rewrite app_nil_r | apply effect_same; auto].
  - exists []. simpl. split; [now rewrite app_nil_r | apply effect_same; auto].
Qed.

(** setMeteo up to its call of calcNextStep: the members the clock and the
    special points depend on. *)
Lemma setMeteo_prepares (new_psum new_psum_ph new_vw new_rh new_ta : Grid2DObject)
      (timestamp : Date) (st : State) :
  date_neq (nextStepTimestamp (self st)) timestamp = false ->
  exists st1 evs,
    setMeteo new_psum new_psum_ph new_vw new_rh new_ta timestamp st = calcNextStep st1 /\
    trace st1 = trace st ++ evs /\ Forall is_query evs /\
    setup (self st1) = setup (self st) /\
    nextStepTimestamp (self st1) = nextStepTimestamp (self st) /\
    snow_poi_written (self st1) = snow_poi_written (self st).
Proof.
  intros Ht. destruct st as [s tr]. simpl in *.
  unfold setMeteo. rewrite bind_this. simpl. rewrite Ht.
  rewrite bind_modify. simpl.
  destruct (mask_dynamic (setup s)) eqn:Emd, (glacier_katabatic_flow (setup s)) eqn:Ek;
    cbn [when negb];
    repeat first [ progress run_binds | query_grid ];
    (eexists; eexists; split; [reflexivity|]); cbn [self trace];
    rewrite <- ?app_assoc;
    (split; [first [reflexivity | symmetry; apply app_nil_r]|]);
    (split; [repeat (apply Forall_app; split); solve [assumption | constructor]|]);
    repeat split.
Qed.

Lemma timing_log_quiet who timestamp next : Forall quiet (timing_log who timestamp next).
Proof. unfold timing_log. destruct mpi_master; repeat constructor. Qed.

Lemma perform_effect (c : Call) (st : State) :
  exists evs,
    trace (final (perform c st)) = trace st ++ evs /\
    effect (self st) (self (final (perform c st))) evs.
Proof.
  destruct (date_neq (nextStepTimestamp (self st)) (timestamp_of c)) eqn:Ht.
  - destruct c; cbn [perform timestamp_of] in *;
      first [ rewrite (setMeteo_rejects st _ Ht)
            | rewrite (setRadiationComponents_rejects st _ Ht)
            | rewrite (setSnowMassChange_rejects st _ Ht)
            | rewrite (assimilate_rejects st _ Ht) ];
      cbn [final self trace];
      first [ eexists; split; [reflexivity|]; apply effect_same; auto;
              apply timing_log_quiet
            | exists []; split; [now rewrite app_nil_r | apply effect_same; auto] ].
  - destruct c as [a b c d e t | a b c d t | a t | a t];
      cbn [perform timestamp_of] in *.
    + destruct (setMeteo_prepares a b c d e t st Ht)
        as (st1 & e0 & E & Etr & F & Hsu & Hn & Hw).
      rewrite E. destruct (calcNextStep_effect st1) as (evs & Etr1 & He).
      exists (e0 ++ evs). split; [rewrite Etr1, Etr; now rewrite app_assoc|].
      eapply effect_trans; [|exact He].
      apply effect_same; auto. eapply Forall_impl; [apply query_quiet | exact F].
    + rewrite (setRadiationComponents_stores a b c d t st Ht).
      match goal with |- context [calcNextStep ?st1] =>
        destruct (calcNextStep_effect st1) as (evs & Etr1 & He)
      end.
      exists evs. split; [exact Etr1|].
      change evs with ([] ++ evs). eapply effect_trans; [|exact He].
      apply effect_same; auto.
    + destruct (isSameGeolocalization a (dem (setup (self st)))) eqn:Hgeo.
      * rewrite (setSnowMassChange_stores a t st Ht Hgeo).
        match goal with |- context [calcNextStep ?st1] =>
          destruct (calcNextStep_effect st1) as (evs & Etr1 & He)
        end.
        exists evs. split; [exact Etr1|].
        change evs with ([] ++ evs). eapply effect_trans; [|exact He].
        apply effect_same; auto.
      * rewrite (setSnowMassChange_refuses a t st Ht Hgeo). simpl.
        exists []. split; [now rewrite app_nil_r | apply effect_same; auto].
    + rewrite (assimilate_stores a t st Ht).
      match goal with |- context [calcNextStep ?st1] =>
        destruct (calcNextStep_effect st1) as (evs & Etr1 & He)
      end.
      cbn [self trace] in *.
      exists ([Cout_updating_state] ++ evs).
      split; [rewrite Etr1; now rewrite <- app_assoc|].
      eapply effect_trans; [|exact He].
      apply effect_same; auto. repeat constructor.
Qed.

Lemma after_calls_effect (history : list Call) : forall st,
  exists evs,
    trace (after_calls history st) = trace st ++ evs /\
    effect (self st) (self (after_calls history st)) evs.
Proof.
  induction history as [|c history IH]; intros st; cbn [after_calls fold_left].
  - exists []. split; [now rewrite app_nil_r | apply effect_same; auto].
  - destruct (perform_effect c st) as (e1 & Etr1 & He1).
    destruct (IH (final (perform c st))) as (e2 & Etr2 & He2).
    exists (e1 ++ e2). unfold after_calls in *.
    split; [rewrite Etr2, Etr1; now rewrite app_assoc|].
    eapply effect_trans; eauto.
Qed.

(** X13. Over any history of producer calls the trace only grows, the setup is
    kept, and the timestamp the coordinator expects is its first one plus
    one time step for every step that ran to its end: no rejected call, no
    call that waits for other data, no failed gate and no aborted step
    moves the clock. *)
Theorem clock_counts_completed_steps (history : list Call) (st : State) :
  exists evs,
    trace (after_calls history st) = trace st ++ evs /\
    setup (self (after_calls history st)) = setup (self st) /\
    nextStepTimestamp (self (after_calls history st))
    = clock_after (steps_completed evs) (self st).
Proof.
  destruct (after_calls_effect history st) as (evs & Etr & Hsu & Hn & _).
  exists evs. auto.
Qed.

(** X14. Over any history of producer calls, whatever exceptions end them:
    once snow_poi_written is set it stays set; no snow cover file of the
    special points is written when the regular snow cover output is on or
    when the coordinator remembers having written them; a process that is
    not the master writes none without local I/O; and under local I/O the
    file of this process is written at most once, in one step, after which
    the coordinator remembers it. (On the master without local I/O the
    coordinator remembers the files only when the output of every rank
    has run to its end.) *)
Theorem special_points_snow_cover_once (history : list Call) (st : State) :
  let s := self st in
  let s' := self (after_calls history st) in
  exists evs,
    trace (after_calls history st) = trace st ++ evs /\
    (snow_poi_written s' = snow_poi_written s || snow_poi_written s') /\
    (if snow_write (setup s) || snow_poi_written s
     then filter is_WriteSnowCover evs = []
     else if do_io_locally (setup s)
          then filter is_WriteSnowCover evs = [] \/
               (snow_poi_written s' = true /\
                exists date, filter is_WriteSnowCover evs = [WriteSnowCover date mpi_rank])
          else mpi_master = false -> filter is_WriteSnowCover evs = []).
Proof.
  intros s s'.
  destruct (after_calls_effect history st) as (evs & Etr & _ & _ & Hm & Hoff & Hloc & Hrem).
  exists evs. split; [exact Etr|]. fold s s' in Hm, Hoff, Hloc, Hrem.
  split.
  { destruct (snow_poi_written s); [now rewrite (Hm eq_refl) | reflexivity]. }
  unfold sno_due in Hoff, Hloc.
  destruct (snow_write (setup s)); [apply Hoff; reflexivity|].
  destruct (snow_poi_written s); [apply Hoff; reflexivity|].
  cbn [orb].
  destruct (do_io_locally (setup s)).
  - destruct (Hloc eq_refl) as [H | (_ & Hp & Hdate)]; [now left | right; auto].
  - intros Hmaster. apply Hrem; [reflexivity | exact Hmaster].
Qed.

(** *** The order of meteo and radiation when no EnergyBalance is attached *)

(** X15. With no EnergyBalance module attached and every attached module ready,
    the two orders of the meteo and radiation calls of a step differ only
    in how the first call ends. Meteo first: setMeteo ends in the no-data
    error with its fields stored and its flag raised, and the call of
    setRadiationComponents that follows runs the step. Radiation first:
    setRadiationComponents returns without a step and the call of setMeteo
    that follows runs it. *)
Theorem meteo_radiation_order (st : State) (timestamp : Date)
        (new_psum new_psum_ph new_vw new_rh new_ta : Grid2DObject)
        (shortwave_in longwave_in diff_in : Array2D) (solarElevation_in : double) :
  date_neq (nextStepTimestamp (self st)) timestamp = false ->
  eb (setup (self st)) = false ->
  (drift (setup (self st)) = true -> dataSnowDrift (flags (self st)) = true) ->
  (da (setup (self st)) = true -> dataDa (flags (self st)) = true) ->
  dataMeteo2D (flags (self st)) = false ->
  dataRadiation (flags (self st)) = false ->
  (exists st1,
     setMeteo new_psum new_psum_ph new_vw new_rh new_ta timestamp st
     = Thrown NoDataException st1 /\
     steps_started (trace st1) = steps_started (trace st) /\
     dataMeteo2D (flags (self st1)) = true /\
     psum (forcing (self st1)) = new_psum /\
     nextStepTimestamp (self st1) = nextStepTimestamp (self st) /\
     steps_started
       (trace (final (setRadiationComponents shortwave_in longwave_in diff_in
                                             solarElevation_in timestamp st1)))
     = S (steps_started (trace st))) /\
  (exists st1,
     setRadiationComponents shortwave_in longwave_in diff_in solarElevation_in timestamp st
     = Returned tt st1 /\
     steps_started (trace st1) = steps_started (trace st) /\
     steps_started
       (trace (final (setMeteo new_psum new_psum_ph new_vw new_rh new_ta timestamp st1)))
     = S (steps_started (trace st))).
Proof.
  intros Ht Heb Hdrift Hda Hmeteo Hrad.
  assert (Hgate : forall s1,
             setup s1 = setup (self st) ->
             dataMeteo2D (flags s1) = true ->
             dataSnowDrift (flags s1) = dataSnowDrift (flags (self st)) ->
             dataDa (flags s1) = dataDa (flags (self st)) ->
             gate_open s1 = true).
  { intros s1 Hs1 Hm Hd Ha. unfold gate_open. rewrite Hs1, Hm, Hd, Ha, Heb.
    destruct (drift (setup (self st))) eqn:Ed; [rewrite (Hdrift eq_refl)|];
      (destruct (da (setup (self st))) eqn:Ea; [rewrite (Hda eq_refl)|]); reflexivity. }
  split.
  - destruct (setMeteo_stores new_psum new_psum_ph new_vw new_rh new_ta timestamp st Ht)
      as (st1 & evs & E & Etr & F & Hsu & _ & Hn & Hf & stored_ta & Hfor & _).
    exists st1.
    assert (Hopen : gate_open (self st1) = true)
      by (apply Hgate; [exact Hsu | rewrite Hf; reflexivity ..]).
    assert (Hsteps : steps_started (trace st1) = steps_started (trace st)).
    { rewrite Etr, steps_started_app, (steps_started_none query_no_restart F). lia. }
    split.
    { rewrite E, calcNextStep_gate, Hopen, Hf. simpl. now rewrite Hrad. }
    split; [exact Hsteps|].
    split; [now rewrite Hf|]. split; [now rewrite Hfor|]. split; [exact Hn|].
    assert (Ht1 : date_neq (nextStepTimestamp (self st1)) timestamp = false)
      by (rewrite Hn; exact Ht).
    rewrite (setRadiationComponents_stores shortwave_in longwave_in diff_in
               solarElevation_in timestamp st1 Ht1), calcNextStep_steps.
    cbn [self trace].
    rewrite Hgate; [simpl; now rewrite Hsteps | exact Hsu | simpl; rewrite Hf; reflexivity ..].
  - pose proof (setRadiationComponents_stores shortwave_in longwave_in diff_in
                  solarElevation_in timestamp st Ht) as E.
    eexists. split.
    { rewrite E, calcNextStep_gate. unfold gate_open. simpl. rewrite Hmeteo. reflexivity. }
    cbn [trace]. split; [reflexivity|].
    match goal with |- context [setMeteo _ _ _ _ _ _ ?st1] =>
      destruct (setMeteo_stores new_psum new_psum_ph new_vw new_rh new_ta timestamp st1)
        as (st2 & evs & E2 & Etr & F & Hsu & _ & Hn & Hf & _)
    end; [exact Ht|].
    cbn [self trace] in *. simpl in Hsu, Hf.
    rewrite E2, calcNextStep_steps.
    rewrite Hgate; [| exact Hsu | rewrite Hf; reflexivity ..].
    rewrite Hf. simpl.
    rewrite Etr, steps_started_app, (steps_started_none query_no_restart F). lia.
Qed.

(** *** After a completed step *)

Lemma call_rejected (c : Call) (st : State) :
  date_neq (nextStepTimestamp (self st)) (timestamp_of c) = true ->
  exists st',
    perform c st = Thrown (InvalidArgumentException (producer_of c)) st' /\
    self st' = self st /\ steps_started (trace st') = steps_started (trace st).
Proof.
  intros Ht.
  assert (Hlog : forall who t n,
             steps_started (trace st ++ timing_log who t n) = steps_started (trace st)).
  { intros who t n. rewrite steps_started_app. unfold timing_log.
    destruct mpi_master; unfold steps_started; simpl; lia. }
  destruct c; cbn [perform timestamp_of producer_of] in *.
  - rewrite (setMeteo_rejects st _ Ht). eexists. split; [reflexivity|]. simpl. auto.
  - rewrite (setRadiationComponents_rejects st _ Ht). eexists. split; [reflexivity|].
    simpl. auto.
  - rewrite (setSnowMassChange_rejects st _ Ht). eexists. split; [reflexivity|].
    simpl. auto.
  - rewrite (assimilate_rejects st _ Ht). eexists. split; [reflexivity|]. auto.
Qed.

(** X25. A call that returns after running a step has used up the data of the
    step: the four flags are down, and the coordinator expects the next
    timestamp, so that any call tagged otherwise (the same call again, when
    a time step is not zero) is rejected with the timing error of its
    producer, without a step and with the coordinator left as it is. *)
Theorem completed_step_rejects_replay (c c' : Call) (st st' : State) :
  perform c st = Returned tt st' ->
  steps_started (trace st') <> steps_started (trace st) ->
  date_neq (date_plus (nextStepTimestamp (self st)) (timeStep (setup (self st))))
           (timestamp_of c') = true ->
  nextStepTimestamp (self st')
  = date_plus (nextStepTimestamp (self st)) (timeStep (setup (self st))) /\
  flags (self st') = clear_flags /\
  exists st'',
    perform c' st' = Thrown (InvalidArgumentException (producer_of c')) st'' /\
    self st'' = self st' /\
    steps_started (trace st'') = steps_started (trace st').
Proof.
  intros Hret Hstep Hother.
  assert (Hafter : nextStepTimestamp (self st')
                   = date_plus (nextStepTimestamp (self st)) (timeStep (setup (self st)))
                   /\ flags (self st') = clear_flags).
  { destruct (perform_cases c st) as [[Hsame Hs] | (_ & st1 & E & _ & Hn & Hsu & Hs1)].
    - rewrite Hret in Hs. simpl in Hs. contradiction.
    - rewrite E, calcNextStep_gate in Hret.
      destruct (gate_open (self st1)).
      + destruct (dataRadiation (flags (self st1))); [|discriminate].
        destruct (run_step_outcome (flags_cleared st1))
          as (st_poi & K & _ & [(e & _ & Hend) | (_ & Hend)]);
          [rewrite Hend in Hret; discriminate Hret|].
        apply but_poi_written_fields in K. unfold after_workers in K. simpl in K.
        destruct K as (K1 & _ & K3 & _ & K5 & _).
        destruct (0 <? _).
        * rewrite Hend in Hret. discriminate.
        * destruct Hend as (evs & _ & Hend). rewrite Hend in Hret.
          injection Hret as <-. simpl. rewrite K1, K3, K5, Hn, Hsu. auto.
      + injection Hret as <-. rewrite Hs1 in Hstep. contradiction. }
  destruct Hafter as [Hn Hf]. split; [exact Hn|]. split; [exact Hf|].
  apply call_rejected. rewrite Hn. exact Hother.
Qed.

(** *** The SMET files of the special points *)

Lemma append_nil_r (s : String.string) : String.append s "" = s.
Proof. induction s as [|c s IH]; simpl; [reflexivity | now rewrite IH]. Qed.

Lemma append_assoc (a b c : String.string) :
  String.append (String.append a b) c = String.append a (String.append b c).
Proof. induction a as [|x a IH]; simpl; [reflexivity | now rewrite IH]. Qed.

Lemma put_cons (x : String.string) (l : list String.string) :
  put (x :: l) = String.append x (put l).
Proof.
  unfold put. destruct l as [|y l]; simpl; [now rewrite append_nil_r | reflexivity].
Qed.

Lemma put_app (l1 l2 : list String.string) :
  put (l1 ++ l2) = String.append (put l1) (put l2).
Proof.
  induction l1 as [|x l1 IH]; [reflexivity|].
  rewrite <- app_comm_cons, !put_cons, IH. now rewrite append_assoc.
Qed.

(** X16. When the file can be opened, write_SMET_header starts the file of the
    station anew and ends it with the line of column names and the line
    [DATA]; write_SMET appends to the same file one line of values, each
    followed by a blank. A data line has as many values as the header has
    column names exactly when a soil temperature depth is configured if and
    only if the point carries soil temperatures: with a depth configured
    and no soil temperature the line is one value short of the header, and
    with soil temperatures and no depth it is one value longer. *)
Theorem smet_columns (w : SmetWorld) (m : SmetMembers) (meta : StationData)
        (landuse_code : double) (met : CurrentMeteo) (surf : SurfaceFluxes) :
  validFileAndPath w (smet_filename m meta) = true ->
  open_fails w (smet_filename m meta) = false ->
  (exists before,
     write_SMET_header w m meta landuse_code
     = Written Truncate (smet_filename m meta)
               (String.append before (fields_line (smet_fields w m)))) /\
  write_SMET w m met meta surf
  = Written Append (smet_filename m meta)
            (String.append
               (put (map (fun v => String.append v " ") (smet_values w m met meta surf)))
               endl) /\
  (length (smet_fields w m) = length (smet_values w m met meta surf)
   <-> double_neq w (soil_temp_depth m) (nodata w)
       = negb (match met_ts met with [] => true | _ => false end)).
Proof.
  intros Hv Ho. unfold write_SMET_header, write_SMET. rewrite Hv, Ho. cbn [negb].
  split; [|split].
  - match goal with |- context [Written Truncate _ (put ?l)] =>
      exists (put (firstn (length l - 6) l));
      f_equal;
      transitivity (put (firstn (length l - 6) l ++ skipn (length l - 6) l));
        [now rewrite firstn_skipn|]
    end.
    rewrite put_app. f_equal. cbn [length Nat.sub skipn].
    unfold smet_fields.
    destruct (double_neq w (soil_temp_depth m) (nodata w)), (useCanopy m); reflexivity.
  - f_equal. rewrite put_app. reflexivity.
  - unfold smet_fields, smet_values. rewrite !length_app.
    destruct (double_neq w (soil_temp_depth m) (nodata w)), (met_ts met), (useCanopy m);
      simpl; split; intros H; first [reflexivity | discriminate | lia].
Qed.

(** X17. The two functions refuse the same files: a name that is not valid is
    refused before anything is opened, a file that cannot be opened is
    reported, and in both cases nothing is written. *)
Theorem smet_refusals (w : SmetWorld) (m : SmetMembers) (meta : StationData)
        (landuse_code : double) (met : CurrentMeteo) (surf : SurfaceFluxes) :
  validFileAndPath w (smet_filename m meta) && negb (open_fails w (smet_filename m meta))
  = false ->
  write_SMET_header w m meta landuse_code = write_SMET w m met meta surf /\
  write_SMET w m met meta surf
  = (if validFileAndPath w (smet_filename m meta)
     then AccessException (smet_filename m meta)
     else InvalidNameException (smet_filename m meta)).
Proof.
  unfold write_SMET_header, write_SMET.
  destruct (validFileAndPath w (smet_filename m meta)),
    (open_fails w (smet_filename m meta)); simpl; intros H; try discriminate; auto.
Qed.

(** *** The registry of points of interest, further *)

Lemma registry_canonical (master : bool) (vec_pts : list Poi.Coords) :
  (forall c, In c vec_pts ->
             Poi.valid_index (Poi.getGridI c) /\ Poi.valid_index (Poi.getGridJ c)) ->
  let pts := fst (Poi.prepare_pts master vec_pts) in
  NoDup pts /\
  (forall p, In p pts <-> In p (map Poi.cell_of vec_pts)) /\
  StronglySorted Poi.row_col_lt pts.
Proof.
  intros Hvalid. simpl.
  pose proof (PoiFacts.Inv_loop vec_pts (PoiFacts.Inv_init master)) as H.
  simpl in H. destruct H as [Hnd Hsame _ _ _ _].
  set (st := Poi.prepare_loop master 0 vec_pts (Poi.mkLoop [] [] [])) in *.
  pose proof (PoiFacts.std_sort_perm Poi.pts_less (Poi.l_pts st)) as Hperm.
  assert (Hnd' : NoDup (Poi.std_sort Poi.pts_less (Poi.l_pts st))).
  { eapply Permutation_NoDup; [apply Permutation_sym, Hperm | exact Hnd]. }
  assert (Hin : forall p, In p (Poi.std_sort Poi.pts_less (Poi.l_pts st)) <->
                          In p (map Poi.cell_of vec_pts)).
  { intros p. rewrite <- Hsame. split; apply Permutation_in;
      [exact Hperm | apply Permutation_sym, Hperm]. }
  split; [exact Hnd'|]. split; [exact Hin|].
  apply PoiFacts.strict_of_le; [| exact Hnd' | apply PoiFacts.std_sort_sorted].
  rewrite Forall_forall. intros p Hp. apply Hin in Hp.
  apply in_map_iff in Hp. destruct Hp as (c & <- & Hc).
  destruct (Hvalid c Hc) as [Hi Hj]. unfold Poi.valid_cell.
  rewrite (PoiFacts.cell_of_valid c Hi Hj). simpl. auto.
Qed.

(** X18. For points with valid grid indices the registry prepare_pts leaves
    depends on the set of their grid cells only: not on the order of the
    points, not on how often a cell occurs, and not on whether the process
    is the master (which only decides whether duplicates are reported). *)
Theorem prepare_pts_by_cells (master master' : bool) (vec_pts vec_pts' : list Poi.Coords) :
  (forall c, In c vec_pts ->
             Poi.valid_index (Poi.getGridI c) /\ Poi.valid_index (Poi.getGridJ c)) ->
  (forall c, In c vec_pts' ->
             Poi.valid_index (Poi.getGridI c) /\ Poi.valid_index (Poi.getGridJ c)) ->
  (forall p, In p (map Poi.cell_of vec_pts) <-> In p (map Poi.cell_of vec_pts')) ->
  fst (Poi.prepare_pts master vec_pts) = fst (Poi.prepare_pts master' vec_pts').
Proof.
  intros Hv Hv' Hsame.
  destruct (registry_canonical master vec_pts Hv) as (Hnd & Hin & Hs).
  destruct (registry_canonical master' vec_pts' Hv') as (Hnd' & Hin' & Hs').
  apply PoiFacts.sorted_perm_unique; [exact Hs | exact Hs' |].
  apply NoDup_Permutation; [exact Hnd | exact Hnd' |].
  intros p. rewrite Hin, Hin'. apply Hsame.
Qed.

(** The double a size_t just below 2^64 is converted to is 2^64. *)
Lemma double_of_wrapped (k : Z) :
  (1 <= k <= 1024)%Z -> Poi.double_of_size_t (2 ^ 64 - k) = (2 ^ 64)%Z.
Proof.
  intros Hk. unfold Poi.double_of_size_t.
  destruct (Z.ltb_spec (2 ^ 64 - k) (2 ^ 53)); [lia|].
  assert (Hlog : Z.log2 (2 ^ 64 - k) = 63%Z).
  { apply Z.log2_unique; lia. }
  rewrite Hlog. change (63 - 52)%Z with 11%Z. cbv zeta.
  rewrite Z.shiftr_div_pow2, Z.land_ones by lia.
  assert (Hq : ((2 ^ 64 - k) / 2 ^ 11 = 2 ^ 53 - 1)%Z).
  { symmetry. apply (Z.div_unique _ _ _ (2 ^ 11 - k)); lia. }
  assert (Hr : ((2 ^ 64 - k) mod 2 ^ 11 = 2 ^ 11 - k)%Z).
  { symmetry. apply (Z.mod_unique _ _ (2 ^ 53 - 1)); lia. }
  rewrite Hq, Hr. change (Z.shiftl 1 (11 - 1)) with 1024%Z.
  change (Z.odd (2 ^ 53 - 1)) with true. rewrite andb_true_r.
  destruct (Z.ltb_spec 1024 (2 ^ 11 - k)); cbn [orb].
  - reflexivity.
  - destruct (Z.eqb_spec (2 ^ 11 - k) 1024); [reflexivity | lia].
Qed.

(** X19. Grid indices are int and are stored as size_t, so a negative index i is
    registered as 2^64 + i. The comparator converts to double, which cannot
    tell such values apart: two points of one row with different negative
    column indices from -1024 on are both registered, without a warning,
    and neither is less than the other for the comparator, so that either
    order of the two is a sorted one for std::sort: the order of the
    registry is then not determined by the cells. *)
Theorem prepare_pts_negative_indices (master : bool) (i i' j : Z) :
  (-1024 <= i <= -1)%Z -> (-1024 <= i' <= -1)%Z -> i <> i' ->
  Poi.valid_index j ->
  let a := ((2 ^ 64 + i)%Z, j) in
  let b := ((2 ^ 64 + i')%Z, j) in
  Permutation (fst (Poi.prepare_pts master [Poi.mkCoords i j; Poi.mkCoords i' j])) [a; b] /\
  snd (Poi.prepare_pts master [Poi.mkCoords i j; Poi.mkCoords i' j]) = [] /\
  Poi.pts_less a b = false /\ Poi.pts_less b a = false /\
  StronglySorted Poi.pts_le [a; b] /\ StronglySorted Poi.pts_le [b; a].
Proof.
  intros Hi Hi' Hne Hj a b.
  assert (Hwrap : forall x, (-1024 <= x <= -1)%Z ->
                            Poi.size_t_of_int x = (2 ^ 64 + x)%Z).
  { intros x Hx. unfold Poi.size_t_of_int. symmetry.
    apply (Z.mod_unique _ _ (-1)); lia. }
  assert (Hjj : Poi.size_t_of_int j = j) by (apply PoiFacts.size_t_of_valid; exact Hj).
  assert (Hless : forall x y, (-1024 <= x <= -1)%Z -> (-1024 <= y <= -1)%Z ->
                              Poi.pts_less ((2 ^ 64 + x)%Z, j) ((2 ^ 64 + y)%Z, j) = false).
  { intros x y Hx Hy. unfold Poi.pts_less, Poi.pair_comparator, Poi.as_double_pair.
    cbn [fst snd]. rewrite Z.eqb_refl.
    replace (2 ^ 64 + x)%Z with (2 ^ 64 - (- x))%Z by lia.
    replace (2 ^ 64 + y)%Z with (2 ^ 64 - (- y))%Z by lia.
    rewrite !double_of_wrapped by lia. apply Z.ltb_irrefl. }
  assert (Hfind : Poi.pair_eqb a b = false).
  { unfold Poi.pair_eqb, a, b. cbn [fst snd].
    destruct (Z.eqb_spec (2 ^ 64 + i) (2 ^ 64 + i')); [lia | reflexivity]. }
  assert (Hloop : Poi.prepare_loop master 0 [Poi.mkCoords i j; Poi.mkCoords i' j]
                                    (Poi.mkLoop [] [] [])
                  = Poi.mkLoop [a; b] [0; 1] []).
  { unfold Poi.prepare_loop, Poi.prepare_step.
    cbn [Poi.getGridI Poi.getGridJ Poi.std_find Poi.l_pts Poi.l_vec_idx Poi.l_cout app].
    rewrite (Hwrap i Hi), (Hwrap i' Hi'), Hjj. fold a b.
    cbn [Poi.std_find]. rewrite Hfind. reflexivity. }
  unfold Poi.prepare_pts. rewrite Hloop. cbn [fst snd Poi.l_pts Poi.l_cout].
  split; [|split; [|split; [|split; [|split]]]].
  - apply PoiFacts.std_sort_perm.
  - reflexivity.
  - apply Hless; assumption.
  - apply Hless; assumption.
  - repeat constructor. apply Hless; assumption.
  - repeat constructor. apply Hless; assumption.
Qed.

(** *** writeOutputSNO *)

Lemma flat_map_map {A B C} (h : B -> list C) (g : A -> B) (l : list A) :
  flat_map h (map g l) = flat_map (fun a => h (g a)) l.
Proof. induction l as [|a l IH]; simpl; [reflexivity | now rewrite IH]. Qed.

Lemma sno_master_loop (local : bool) (date : Date) (l : list nat) :
  flat_map (fun ii =>
              if (ii =? mpi_master_rank) || local then []
              else [Cout_writing_SNO ii; ReceiveStations ii; WriteSnowCoverOf date ii]) l
  = flat_map (fun ii => [Cout_writing_SNO ii; ReceiveStations ii; WriteSnowCoverOf date ii])
             (if local then [] else filter (fun ii => negb (ii =? mpi_master_rank)) l).
Proof.
  destruct local.
  - rewrite (flat_map_ext _ (fun _ => [])); [apply flat_map_nothing|].
    intros ii. now rewrite orb_true_r.
  - rewrite <- flat_map_when. apply flat_map_ext. intros ii.
    now destruct (ii =? mpi_master_rank).
Qed.

Lemma sno_asked_workers (l : list nat) (rest : list SnoStep) :
  sno_asked (map GetOutputSNO l ++ rest) = l ++ sno_asked rest /\
  sno_written (map GetOutputSNO l ++ rest) = sno_written rest /\
  sno_received (map GetOutputSNO l ++ rest) = sno_received rest /\
  sno_sent (map GetOutputSNO l ++ rest) = sno_sent rest.
Proof.
  unfold sno_asked, sno_written, sno_received, sno_sent.
  rewrite !flat_map_app, !flat_map_map. cbn beta iota.
  rewrite flat_map_one, map_id, !flat_map_nothing. auto.
Qed.

Lemma sno_remote_steps (date : Date) (l : list nat) :
  let steps := flat_map (fun ii => [Cout_writing_SNO ii; ReceiveStations ii;
                                    WriteSnowCoverOf date ii]) l in
  sno_asked steps = [] /\ sno_written steps = l /\
  sno_received steps = l /\ sno_sent steps = [].
Proof.
  cbv zeta. unfold sno_asked, sno_written, sno_received, sno_sent.
  rewrite !flat_map_flat_map. cbn [flat_map app].
  rewrite !flat_map_nothing, flat_map_one, map_id. auto.
Qed.

(** X20. writeOutputSNO asks every worker for its stations, once and in order,
    and then writes the snow cover of the same processes whose special
    points write_special_points writes on this process: its own under local
    I/O, its own and then every rank's but the master's on the master, none
    elsewhere. The master receives the stations of each of those other
    ranks once; a process that writes nothing sends its stations to the
    master rank once, and a process that writes sends nothing. *)
Theorem writeOutputSNO_io (s : SnowpackInterface) (date : Date) :
  let steps := writeOutputSNO s date in
  let others := filter (fun ii => negb (ii =? mpi_master_rank)) (seq 0 mpi_size) in
  sno_asked steps = seq 0 (length (workers s)) /\
  sno_written steps = special_point_processes s /\
  sno_received steps
  = (if mpi_master && negb (do_io_locally (setup s)) then others else []) /\
  sno_sent steps
  = (match special_point_processes s with [] => [mpi_master_rank] | _ => [] end).
Proof.
  cbv zeta. unfold writeOutputSNO, special_point_processes.
  match goal with |- context [map GetOutputSNO ?l ++ ?rest] =>
    destruct (sno_asked_workers l rest) as (-> & -> & -> & ->)
  end.
  destruct mpi_master.
  - rewrite sno_master_loop.
    match goal with |- context [flat_map ?f ?l] =>
      destruct (sno_remote_steps date l) as (Ha & Hw & Hr & Hs)
    end.
    cbv zeta in Ha, Hw, Hr, Hs.
    unfold sno_asked, sno_written, sno_received, sno_sent in *.
    rewrite !flat_map_app, Ha, Hw, Hr, Hs. cbn [flat_map app andb].
    rewrite app_nil_r.
    destruct (do_io_locally (setup s)); cbn; auto.
  - destruct (do_io_locally (setup s)); cbn; rewrite ?app_nil_r; auto.
Qed.

(** *** writeOutputSpecialPoints *)

Lemma write_SMET_writable (w : SmetWorld) (m : SmetMembers) (met : CurrentMeteo)
      (meta : StationData) (surf : SurfaceFluxes) :
  if writable w m meta
  then exists text, write_SMET w m met meta surf = Written Append (smet_filename m meta) text
  else write_SMET w m met meta surf
       = (if validFileAndPath w (smet_filename m meta)
          then AccessException (smet_filename m meta)
          else InvalidNameException (smet_filename m meta)).
Proof.
  unfold writable, write_SMET.
  destruct (validFileAndPath w (smet_filename m meta)),
    (open_fails w (smet_filename m meta)); simpl; eauto.
Qed.

Lemma points_loop_spec (w : SmetWorld) (m : SmetMembers) (TS PR : bool) (date : Date) :
  forall points ii,
    let n := leading_writable w m points in
    let steps := fst (points_loop w m TS PR date ii points) in
    snd (points_loop w m TS PR date ii points) = (n =? length points) /\
    time_series steps = (if TS then seq ii n else []) /\
    profiles steps = (if PR then seq ii n else []) /\
    smet_lines steps
    = combine (seq ii (length points)) (map (smet_of w m) (firstn (S n) points)).
Proof.
  induction points as [|[[meta met] surf] rest IH]; intros ii.
  - cbn. destruct TS, PR; auto.
  - cbn [leading_writable points_loop].
    pose proof (write_SMET_writable w m met meta surf) as Hw.
    destruct (writable w m meta).
    + destruct Hw as (text & Hw).
      specialize (IH (S ii)). cbv zeta in IH.
      cbn [map firstn].
      change (smet_of w m (meta, met, surf)) with (write_SMET w m met meta surf).
      rewrite Hw.
      destruct (points_loop w m TS PR date (S ii) rest) as [steps completed].
      cbn [fst snd] in *. destruct IH as (IH1 & IH2 & IH3 & IH4).
      split; [exact IH1|].
      unfold time_series, profiles, smet_lines in *.
      cbn [flat_map app]. rewrite !flat_map_app, IH2, IH3, IH4.
      split; [destruct TS, PR; reflexivity|].
      split; [destruct TS, PR; reflexivity|].
      destruct TS, PR; reflexivity.
    + assert (E : write_SMET w m met meta surf = smet_of w m (meta, met, surf))
        by reflexivity.
      rewrite Hw. rewrite Hw in E.
      destruct (validFileAndPath w (smet_filename m meta));
        cbn [fst snd time_series profiles smet_lines flat_map app length seq firstn map
             combine Nat.eqb];
        rewrite <- E; destruct TS, PR; rewrite ?combine_nil; auto.
Qed.

(** X21. writeOutputSpecialPoints writes for the points in their order: for each
    its SMET line and then, when due, its time series and its profile. It
    stops at the first point whose SMET file cannot be written, with the
    exception of write_SMET: the points before it are complete, that point
    has no time series and no profile, and the points after it are not
    touched. Whether the profiles are due is computed with
    prof_days_between in the place of the start date: prof_start is not
    read. *)
Theorem writeOutputSpecialPoints_stops_at_failure (clock : ScheduleWorld) (w : SmetWorld)
        (m : SmetMembers) (sched : PointSchedule) (date : Date)
        (points : list (StationData * CurrentMeteo * SurfaceFluxes)) :
  let n := leading_writable w m points in
  let steps := fst (writeOutputSpecialPoints clock w m sched date points) in
  let TS := ts_write sched
            && booleanTime clock (getJulian clock date) (ts_days_between sched) (ts_start sched)
                           (dt_main_by_60_point clock) in
  let PR := prof_write sched
            && booleanTime clock (getJulian clock date) (prof_days_between sched)
                           (prof_days_between sched) (dt_main_by_60 clock) in
  snd (writeOutputSpecialPoints clock w m sched date points) = (n =? length points) /\
  time_series steps = (if TS then seq 0 n else []) /\
  profiles steps = (if PR then seq 0 n else []) /\
  smet_lines steps
  = combine (seq 0 (length points)) (map (smet_of w m) (firstn (S n) points)) /\
  forall x,
    writeOutputSpecialPoints clock w m (with_prof_start x sched) date points
    = writeOutputSpecialPoints clock w m sched date points.
Proof.
  cbv zeta. unfold writeOutputSpecialPoints.
  destruct (points_loop_spec w m
              (ts_write sched
               && booleanTime clock (getJulian clock date) (ts_days_between sched) (ts_start sched)
                              (dt_main_by_60_point clock))
              (prof_write sched
               && booleanTime clock (getJulian clock date) (prof_days_between sched)
                              (prof_days_between sched) (dt_main_by_60 clock))
              date points 0) as (H1 & H2 & H3 & H4).
  repeat split; assumption || reflexivity.
Qed.

(** *** readInitalSnowCover *)

Section InitialSnowCoverFacts.
Variables (fs : SnoFiles) (iw : InitWorld fs) (w : SmetWorld) (m : SnoMembers)
          (sm : SmetMembers) (pts : list (Z * Z)).

Lemma first_failure_app cells cells' :
  first_failure iw w m sm pts (cells ++ cells')
  = match first_failure iw w m sm pts cells with
    | Some found => Some found
    | None => first_failure iw w m sm pts cells'
    end.
Proof.
  induction cells as [|c cells IH]; simpl; [reflexivity|].
  destruct (snd (read_cell iw w m sm pts (fst c) (snd c))); [reflexivity | exact IH].
Qed.

(** The loops over the cells of a slice: they stop at the first failure. *)
Lemma read_cells_spec cells :
  match first_failure iw w m sm pts cells with
  | Some (c, failure) =>
      exists steps0,
        read_cells iw w m sm pts cells
        = (steps0 ++ fst (read_cell iw w m sm pts (fst c) (snd c)), inl failure)
  | None =>
      exists stations,
        read_cells iw w m sm pts cells
        = (flat_map (fun c => fst (read_cell iw w m sm pts (fst c) (snd c))) cells,
           inr stations) /\
        Forall2 (fun c station => snd (read_cell iw w m sm pts (fst c) (snd c))
                                  = inr station) cells stations
  end.
Proof.
  induction cells as [|[ix iy] cells IH]; cbn [first_failure read_cells flat_map fst snd].
  - exists []. auto.
  - destruct (read_cell iw w m sm pts ix iy) as [steps [failure | station]] eqn:E;
      cbn [fst snd].
    + exists []. rewrite ?E. reflexivity.
    + destruct (first_failure iw w m sm pts cells) as [[c failure]|].
      * destruct IH as (steps0 & ->). exists (steps ++ steps0).
        now rewrite app_assoc.
      * destruct IH as (stations & -> & H). exists (station :: stations).
        split; [reflexivity|]. constructor; [|exact H]. cbn [fst snd]. now rewrite E.
Qed.

Lemma read_cells_deterministic cells steps steps' stations stations' :
  read_cells iw w m sm pts cells = (steps, inr stations) ->
  read_cells iw w m sm pts cells = (steps', inr stations') -> stations = stations'.
Proof. congruence. Qed.

(** The loop over the processes: the first failure in the order of the
    visit ends it; otherwise the stations kept are those of the own
    process, when it is among the processes. *)
Lemma read_processes_spec (dimx dimy : nat) (do_io_locally : bool) :
  forall processes snow_stations,
    match first_failure iw w m sm pts
            (flat_map (cells_of iw dimx dimy do_io_locally) processes) with
    | Some (c, failure) =>
        exists steps0,
          read_processes iw w m sm pts dimx dimy do_io_locally processes snow_stations
          = (steps0 ++ fst (read_cell iw w m sm pts (fst c) (snd c)), inl failure)
    | None =>
        exists steps stations,
          read_processes iw w m sm pts dimx dimy do_io_locally processes snow_stations
          = (steps, inr stations) /\
          (if existsb (Nat.eqb (own_process do_io_locally)) processes
           then exists steps',
               read_cells iw w m sm pts
                 (cells_of iw dimx dimy do_io_locally (own_process do_io_locally))
               = (steps', inr stations)
           else stations = snow_stations) /\
          filter is_Send_stations steps
          = flat_map (fun ii =>
                        match read_cells iw w m sm pts
                                (cells_of iw dimx dimy do_io_locally ii) with
                        | (_, inr stations_ii) =>
                            if do_io_locally || (ii =? mpi_master_rank) then []
                            else [Send_stations ii stations_ii]
                        | _ => []
                        end) processes
    end.
Proof.
  induction processes as [|ii processes IH]; intros snow_stations;
    cbn [flat_map read_processes existsb].
  - exists [], snow_stations. auto.
  - rewrite first_failure_app. unfold cells_of at 1 3 4.
    destruct (do_io_locally && negb (ii =? mpi_rank)) eqn:Eskip.
    + (* another process under local I/O *)
      cbn [first_failure]. specialize (IH snow_stations).
      destruct (first_failure iw w m sm pts
                  (flat_map (cells_of iw dimx dimy do_io_locally) processes))
        as [[c failure]|]; [exact IH|].
      destruct IH as (steps & stations & E & Hown & Hsend).
      exists steps, stations. split; [exact E|].
      apply andb_true_iff in Eskip. destruct Eskip as [-> Hne].
      unfold own_process in *. cbn [read_cells orb].
      apply negb_true_iff in Hne. rewrite Nat.eqb_sym in Hne. rewrite Hne.
      cbn [orb]. auto.
    + destruct (getArraySliceParams iw dimx ii) as [startx deltax] eqn:Eslice.
      cbn [fst snd].
      pose proof (read_cells_spec (slice_cells dimy startx deltax)) as Hcells.
      destruct (first_failure iw w m sm pts (slice_cells dimy startx deltax))
        as [[c failure]|].
      * destruct Hcells as (steps0 & ->). exists steps0. reflexivity.
      * destruct Hcells as (stations_ii & Ecells & _). rewrite Ecells.
        specialize (IH (if (ii =? mpi_master_rank) || do_io_locally
                        then stations_ii else snow_stations)).
        destruct (first_failure iw w m sm pts
                    (flat_map (cells_of iw dimx dimy do_io_locally) processes))
          as [[c failure]|].
        -- destruct IH as (steps0 & ->). eexists. rewrite !app_assoc. reflexivity.
        -- destruct IH as (steps & stations & -> & Hown & Hsend).
           eexists. exists stations. split; [reflexivity|].
           assert (Hkept : (ii =? mpi_master_rank) || do_io_locally
                           = (own_process do_io_locally =? ii)).
           { unfold own_process. destruct do_io_locally; cbn [andb] in *.
             - apply negb_false_iff in Eskip. rewrite orb_true_r.
               now rewrite Nat.eqb_sym, Eskip.
             - rewrite orb_false_r. apply Nat.eqb_sym. }
           split.
           ++ destruct (existsb (Nat.eqb (own_process do_io_locally)) processes) eqn:Ex.
              ** rewrite orb_true_r. exact Hown.
              ** rewrite orb_false_r. rewrite Hkept in Hown.
                 destruct (own_process do_io_locally =? ii) eqn:Eo; [|exact Hown].
                 subst stations.
                 exists (flat_map
                           (fun c => fst (read_cell iw w m sm pts (fst c) (snd c)))
                           (slice_cells dimy startx deltax)).
                 apply Nat.eqb_eq in Eo. rewrite Eo.
                 unfold cells_of. rewrite Eskip, Eslice. exact Ecells.
           ++ rewrite !filter_app, Hsend.
              rewrite (@filter_none _ is_Send_stations
                         (flat_map (fun c => fst (read_cell iw w m sm pts (fst c) (snd c)))
                                   (slice_cells dimy startx deltax))).
              ** rewrite (orb_comm do_io_locally).
                 destruct ((ii =? mpi_master_rank) || do_io_locally); reflexivity.
              ** intros step Hstep. apply in_flat_map in Hstep.
                 destruct Hstep as ([ix iy] & _ & Hstep). cbn [fst snd] in Hstep.
                 unfold read_cell in Hstep.
                 repeat match type of Hstep with
                        | context [if ?b then _ else _] => destruct b
                        | context [match ?x with _ => _ end] => destruct x
                        end; cbn in Hstep; intuition (subst; reflexivity).
Qed.

Lemma first_failure_none_in {A} (f : A -> list (nat * nat)) (l : list A) :
  first_failure iw w m sm pts (flat_map f l) = None ->
  forall a, In a l -> first_failure iw w m sm pts (f a) = None.
Proof.
  induction l as [|x l IH]; cbn [flat_map]; intros H a Ha; [contradiction|].
  rewrite first_failure_app in H.
  destruct (first_failure iw w m sm pts (f x)) eqn:Ex; [discriminate|].
  destruct Ha as [<- | Ha]; [exact Ex | now apply IH].
Qed.

Lemma Forall2_nth_error {A B} (R : A -> B -> Prop) (l : list A) (l' : list B) :
  Forall2 R l l' ->
  forall k a, nth_error l k = Some a -> exists b, nth_error l' k = Some b /\ R a b.
Proof.
  induction 1 as [|x y l l' Hxy _ IH]; intros [|k] a Hk; simpl in *; try discriminate.
  - injection Hk as <-. eauto.
  - eauto.
Qed.

Lemma slice_cells_nth (dimy startx deltax ix iy : nat) :
  startx <= ix < startx + deltax -> iy < dimy ->
  length (slice_cells dimy startx deltax) = dimy * deltax /\
  nth_error (slice_cells dimy startx deltax) (iy * deltax + (ix - startx)) = Some (ix, iy).
Proof.
  intros Hx Hy. unfold slice_cells.
  destruct (@flat_map_chunks (nat * nat)
              (fun iy => map (fun ix => (ix, iy)) (seq startx deltax)) deltax dimy 0)
    as (H1 & H2).
  - intros i _. now rewrite length_map, length_seq.
  - split; [exact H1|]. rewrite (H2 iy (ix - startx)) by lia. cbn [Nat.add].
    rewrite nth_error_map, nth_error_seq.
    destruct (Nat.ltb_spec (ix - startx) deltax); [|lia].
    cbn. do 2 f_equal. lia.
Qed.

Lemma slice_cells_length (dimy startx deltax : nat) :
  length (slice_cells dimy startx deltax) = dimy * deltax.
Proof.
  unfold slice_cells.
  destruct (@flat_map_chunks (nat * nat)
              (fun iy => map (fun ix => (ix, iy)) (seq startx deltax)) deltax dimy 0)
    as (H1 & _); [|exact H1].
  intros i _. now rewrite length_map, length_seq.
Qed.

(** What a failure of a cell can be, by how readSnowCover ended for it. *)
Lemma read_cell_failure (ix iy : nat) (failure : InitFailure) :
  snd (read_cell iw w m sm pts ix iy) = inl failure ->
  skipThisCell iw (landuse_at iw ix iy) (dem_at iw ix iy) = false /\
  match snd (readSnowCover fs m (GRID_sno_of iw m ix iy) (LUS_sno_of iw w m ix iy)
                           (sno_type_key iw) (is_special iw pts ix iy)) with
  | Sno_reader_threw _ e =>
      failure = Init_IOException "Can not read snow files"%string /\
      In (Cout_what (what_reader iw e)) (fst (read_cell iw w m sm pts ix iy))
  | Sno_IOException _ msg =>
      failure = Init_IOException "Can not read snow files"%string /\
      In (Cout_what (what_IOException iw msg)) (fst (read_cell iw w m sm pts ix iy))
  | Sno_undefined _ => failure = Init_undefined
  | Sno_read _ snow_soil =>
      (initialize_throws iw snow_soil = true /\
       failure = Init_IOException "Can not initialize snow pixel"%string) \/
      (initialize_throws iw snow_soil = false /\ is_special iw pts ix iy = true /\
       exists filename,
         failure = Init_smet (InvalidNameException filename)
         \/ failure = Init_smet (AccessException filename))
  end.
Proof.
  unfold read_cell.
  destruct (skipThisCell iw (landuse_at iw ix iy) (dem_at iw ix iy)); [discriminate|].
  destruct (readSnowCover fs m _ _ _ _) as [calls [sno | e | msg |]]; cbn [fst snd].
  - destruct (initialize_throws iw sno).
    + intros [= <-]. auto.
    + destruct (is_special iw pts ix iy); [|discriminate].
      destruct (write_SMET_header w sm _ _) as [f | f | mode f text]; cbn [fst snd];
        intros H; try discriminate; injection H as <-; (split; [reflexivity|]).
      * right. repeat split. exists f. auto.
      * right. repeat split. exists f. auto.
  - intros [= <-]. cbn. auto.
  - intros [= <-]. cbn. auto.
  - intros [= <-]. auto.
Qed.

(** What a station that was read is. *)
Lemma read_cell_station (ix iy : nat) (station : option SnowStation) :
  snd (read_cell iw w m sm pts ix iy) = inr station ->
  (station = None <-> skipThisCell iw (landuse_at iw ix iy) (dem_at iw ix iy) = true) /\
  forall snowPixel, station = Some snowPixel ->
    stationName (station_meta snowPixel) = GRID_sno_of iw m ix iy /\
    stationID (station_meta snowPixel) = station_idx iw ix iy /\
    snd (readSnowCover fs m (GRID_sno_of iw m ix iy) (LUS_sno_of iw w m ix iy)
                       (sno_type_key iw) (is_special iw pts ix iy))
    = Sno_read fs (station_profile snowPixel) /\
    (is_special iw pts ix iy = true ->
     exists text,
       write_SMET_header w sm (station_meta snowPixel) (landuse_at iw ix iy)
       = Written Truncate (smet_filename sm (station_meta snowPixel)) text /\
       In (Smet_header ix iy
             (Written Truncate (smet_filename sm (station_meta snowPixel)) text))
          (fst (read_cell iw w m sm pts ix iy))).
Proof.
  unfold read_cell.
  destruct (skipThisCell iw (landuse_at iw ix iy) (dem_at iw ix iy)).
  { intros [= <-]. split; [tauto|]. intros ? [=]. }
  destruct (readSnowCover fs m _ _ _ _) as [calls [sno | e | msg |]]; cbn [fst snd];
    try discriminate.
  destruct (initialize_throws iw sno); [discriminate|].
  destruct (is_special iw pts ix iy).
  - destruct (write_SMET_header w sm _ _) as [f | f | mode f text] eqn:Eh; cbn [fst snd];
      try discriminate.
    intros [= <-]. split; [split; discriminate|].
    intros px [= <-]. cbn [station_meta station_profile with_names stationName stationID].
    repeat split. intros _.
    assert (Hfile : mode = Truncate /\
                    f = smet_filename sm
                          (with_names (String.append (station_idx iw ix iy)
                                         (String.append "_"%string (station_name m)))
                                      (station_idx iw ix iy) (cell_meta iw ix iy))).
    { unfold write_SMET_header in Eh.
      destruct (validFileAndPath w _); [|discriminate].
      destruct (open_fails w _); [discriminate|].
      cbn in Eh. injection Eh as <- <- _. auto. }
    destruct Hfile as [-> ->]. exists text. split; [exact Eh|].
    right. left. reflexivity.
  - intros [= <-]. split; [split; discriminate|].
    intros px [= <-]. cbn [station_meta station_profile with_names stationName stationID].
    repeat split. discriminate.
Qed.

(** X22. On a process that reads (the master, or any process under local I/O)
    readInitalSnowCover fails at the first cell, in the order of its visit,
    that cannot be set up, with everything printed for that cell as its
    last steps, and it returns stations when there is no such cell. Whatever
    readSnowCover threw for that cell, an exception of a reader or its own
    IOException about a layer younger than the start date, the caller gets
    the IOException [Can not read snow files] and the original message is
    only printed; a station that cannot be initialized gives [Can not
    initialize snow pixel], and the exception of write_SMET_header for a
    special point is passed on. *)
Theorem readInitalSnowCover_first_failure (dimx dimy : nat) (do_io_locally : bool) :
  mpi_master || do_io_locally = true ->
  let result := readInitalSnowCover iw w m sm pts dimx dimy do_io_locally in
  match first_failure iw w m sm pts
          (flat_map (cells_of iw dimx dimy do_io_locally) (seq 0 mpi_size)) with
  | Some ((ix, iy), failure) =>
      snd result = inl failure /\
      (exists steps0, fst result = steps0 ++ fst (read_cell iw w m sm pts ix iy)) /\
      match snd (readSnowCover fs m (GRID_sno_of iw m ix iy) (LUS_sno_of iw w m ix iy)
                               (sno_type_key iw) (is_special iw pts ix iy)) with
      | Sno_reader_threw _ e =>
          failure = Init_IOException "Can not read snow files"%string /\
          In (Cout_what (what_reader iw e)) (fst result)
      | Sno_IOException _ msg =>
          failure = Init_IOException "Can not read snow files"%string /\
          In (Cout_what (what_IOException iw msg)) (fst result)
      | Sno_undefined _ => failure = Init_undefined
      | Sno_read _ snow_soil =>
          failure = Init_IOException "Can not initialize snow pixel"%string
          \/ exists filename,
               failure = Init_smet (InvalidNameException filename)
               \/ failure = Init_smet (AccessException filename)
      end
  | None => exists stations, snd result = inr stations
  end.
Proof.
  intros Hio. cbv zeta. unfold readInitalSnowCover. rewrite Hio.
  pose proof (read_processes_spec dimx dimy do_io_locally (seq 0 mpi_size) []) as H.
  destruct (first_failure iw w m sm pts
              (flat_map (cells_of iw dimx dimy do_io_locally) (seq 0 mpi_size)))
    as [[[ix iy] failure]|] eqn:Efirst.
  - destruct H as (steps0 & ->). cbn [fst snd].
    split; [reflexivity|]. split; [eauto|].
    assert (Hcell : snd (read_cell iw w m sm pts ix iy) = inl failure).
    { clear - Efirst. revert Efirst.
      induction (flat_map (cells_of iw dimx dimy do_io_locally) (seq 0 mpi_size))
        as [|c cells IH]; cbn [first_failure]; [discriminate|].
      destruct (snd (read_cell iw w m sm pts (fst c) (snd c))) eqn:Ec.
      - intros [= -> ->]. exact Ec.
      - exact IH. }
    destruct (@read_cell_failure ix iy failure Hcell) as (_ & Hkind).
    destruct (snd (readSnowCover fs m _ _ _ _)) as [sno | e | msg |].
    + destruct Hkind as [(_ & ->) | (_ & _ & filename & Hf)]; [now left|].
      right. exists filename. exact Hf.
    + destruct Hkind as (-> & Hin). split; [reflexivity|].
      apply in_or_app. now right.
    + destruct Hkind as (-> & Hin). split; [reflexivity|].
      apply in_or_app. now right.
    + exact Hkind.
  - destruct H as (steps & stations & -> & _). cbn [snd]. eauto.
Qed.

(** X23. When readInitalSnowCover returns on a process that reads, and the
    process it keeps the stations of (itself under local I/O, the master
    rank otherwise) is one of the processes, the stations are those of that
    process's slice, one per cell and row by row: the entry of the cell
    (ix, iy) is at iy*deltax + (ix - startx), which is where the
    constructor looks for it. It is NULL exactly for a skipped cell;
    otherwise it holds the profile readSnowCover accepted for the cell, is
    named after the cell and the experiment, and for a special point the
    header of its SMET file has been written, to the file write_SMET will
    append to. *)
Theorem readInitalSnowCover_layout (dimx dimy : nat) (do_io_locally : bool)
        (steps : list InitStep) (stations : list (option SnowStation)) :
  mpi_master || do_io_locally = true ->
  own_process do_io_locally < mpi_size ->
  readInitalSnowCover iw w m sm pts dimx dimy do_io_locally = (steps, inr stations) ->
  let startx := fst (getArraySliceParams iw dimx (own_process do_io_locally)) in
  let deltax := snd (getArraySliceParams iw dimx (own_process do_io_locally)) in
  length stations = dimy * deltax /\
  forall ix iy, startx <= ix < startx + deltax -> iy < dimy ->
    exists station,
      nth_error stations (iy * deltax + (ix - startx)) = Some station /\
      (station = None <-> skipThisCell iw (landuse_at iw ix iy) (dem_at iw ix iy) = true) /\
      forall snowPixel, station = Some snowPixel ->
        stationName (station_meta snowPixel) = GRID_sno_of iw m ix iy /\
        stationID (station_meta snowPixel) = station_idx iw ix iy /\
        snd (readSnowCover fs m (GRID_sno_of iw m ix iy) (LUS_sno_of iw w m ix iy)
                           (sno_type_key iw) (is_special iw pts ix iy))
        = Sno_read fs (station_profile snowPixel) /\
        (is_special iw pts ix iy = true ->
         exists text,
           write_SMET_header w sm (station_meta snowPixel) (landuse_at iw ix iy)
           = Written Truncate (smet_filename sm (station_meta snowPixel)) text).
Proof.
  intros Hio Hown Hres startx deltax.
  unfold readInitalSnowCover in Hres. rewrite Hio in Hres.
  pose proof (read_processes_spec dimx dimy do_io_locally (seq 0 mpi_size) []) as H.
  destruct (first_failure iw w m sm pts
              (flat_map (cells_of iw dimx dimy do_io_locally) (seq 0 mpi_size)))
    as [[c failure]|] eqn:Efirst.
  { destruct H as (steps0 & E). rewrite E in Hres. discriminate. }
  destruct H as (steps1 & stations1 & E & Hkept & _). rewrite E in Hres.
  injection Hres as _ <-.
  assert (Hin : In (own_process do_io_locally) (seq 0 mpi_size)) by (apply in_seq; lia).
  assert (Hex : existsb (Nat.eqb (own_process do_io_locally)) (seq 0 mpi_size) = true).
  { apply existsb_exists. exists (own_process do_io_locally).
    split; [exact Hin | apply Nat.eqb_refl]. }
  rewrite Hex in Hkept. destruct Hkept as (steps' & Ecells).
  assert (Hslice : cells_of iw dimx dimy do_io_locally (own_process do_io_locally)
                   = slice_cells dimy startx deltax).
  { unfold cells_of, own_process. destruct do_io_locally; cbn [andb].
    - now rewrite Nat.eqb_refl.
    - reflexivity. }
  rewrite Hslice in Ecells.
  pose proof (read_cells_spec (slice_cells dimy startx deltax)) as Hcells.
  destruct (first_failure iw w m sm pts (slice_cells dimy startx deltax))
    as [[c failure]|].
  { destruct Hcells as (steps0 & E0). rewrite E0 in Ecells. discriminate. }
  destruct Hcells as (stations2 & E2 & Hall). rewrite E2 in Ecells.
  injection Ecells as _ <-.
  split.
  { rewrite <- (Forall2_length Hall). apply slice_cells_length. }
  intros ix iy Hx Hy.
  destruct (@slice_cells_nth dimy startx deltax ix iy Hx Hy) as (_ & Hnth).
  destruct (@Forall2_nth_error _ _ _ _ _ Hall _ _ Hnth) as (station & Hst & Hcell).
  cbn [fst snd] in Hcell.
  exists station. split; [exact Hst|].
  destruct (@read_cell_station ix iy station Hcell) as (Hskip & Hpx).
  split; [exact Hskip|].
  intros px Epx. destruct (Hpx px Epx) as (H1 & H2 & H3 & H4).
  repeat split; auto.
  intros Hsp. destruct (H4 Hsp) as (text & Eh & _). eauto.
Qed.

(** X24. When readInitalSnowCover returns on a process that reads, it has sent
    stations to no process under local I/O, and otherwise (on the master)
    to every rank but the master's, once each and in ascending order, what
    it sent to a rank being the stations it read for that rank's slice. *)
Theorem readInitalSnowCover_distribution (dimx dimy : nat) (do_io_locally : bool)
        (steps : list InitStep) (stations : list (option SnowStation)) :
  mpi_master || do_io_locally = true ->
  readInitalSnowCover iw w m sm pts dimx dimy do_io_locally = (steps, inr stations) ->
  exists sent,
    filter is_Send_stations steps
    = map (fun to_stations => Send_stations (fst to_stations) (snd to_stations)) sent /\
    map fst sent
    = (if do_io_locally then []
       else filter (fun ii => negb (ii =? mpi_master_rank)) (seq 0 mpi_size)) /\
    forall ii stations_ii, In (ii, stations_ii) sent ->
      length stations_ii = dimy * snd (getArraySliceParams iw dimx ii) /\
      exists steps_ii,
        read_cells iw w m sm pts
          (slice_cells dimy (fst (getArraySliceParams iw dimx ii))
                       (snd (getArraySliceParams iw dimx ii)))
        = (steps_ii, inr stations_ii).
Proof.
  intros Hio Hres.
  unfold readInitalSnowCover in Hres. rewrite Hio in Hres.
  pose proof (read_processes_spec dimx dimy do_io_locally (seq 0 mpi_size) []) as H.
  destruct (first_failure iw w m sm pts
              (flat_map (cells_of iw dimx dimy do_io_locally) (seq 0 mpi_size)))
    as [[c failure]|] eqn:Efirst.
  { destruct H as (steps0 & E). rewrite E in Hres. discriminate. }
  destruct H as (steps1 & stations1 & E & _ & Hsend). rewrite E in Hres.
  injection Hres as <- <-.
  rewrite filter_app, Hsend. cbn [filter is_Send_stations]. rewrite app_nil_r.
  pose proof (first_failure_none_in _ _ Efirst) as Hnone.
  clear E Hsend Efirst. revert Hnone.
  generalize (seq 0 mpi_size) as l.
  induction l as [|ii l IH]; intros Hnone; cbn [flat_map filter].
  - exists []. destruct do_io_locally;
      (split; [reflexivity|]); (split; [reflexivity|]); intros ? ? [].
  - destruct IH as (sent & E1 & E2 & E3); [intros a Ha; apply Hnone; now right|].
    specialize (Hnone ii (or_introl eq_refl)).
    pose proof (read_cells_spec (cells_of iw dimx dimy do_io_locally ii)) as Hcells.
    rewrite Hnone in Hcells. destruct Hcells as (stations_ii & Ecells & Hall).
    rewrite Ecells, E1.
    destruct do_io_locally; cbn [orb].
    + exists sent. auto.
    + destruct (ii =? mpi_master_rank) eqn:Em; cbn [negb].
      * exists sent. auto.
      * exists ((ii, stations_ii) :: sent). cbn [map fst snd app].
        split; [reflexivity|]. split; [now rewrite E2|].
        intros jj stations_jj [[= <- <-] | Hin]; [|now apply E3].
        unfold cells_of in Ecells, Hall. cbn [andb] in Ecells, Hall.
        split; [|eauto].
        rewrite <- (Forall2_length Hall). apply slice_cells_length.
Qed.

End InitialSnowCoverFacts.

End MoreFacts.

End Facts.

(** ** The properties on the small configuration *)

Section Runs.
Import Toy.
#[local] Existing Instance toy_mio.
#[local] Existing Instance toy_cells.
#[local] Existing Instance toy_ext.

(** setMeteo, then setRadiationComponents, with an energy balance attached:
    no step, then one. *)
Lemma step_gating_witness :
  let st := toy_state true false false healthy0 healthy1 in
  eb (setup (self st)) = true /\
  date_neq (nextStepTimestamp (self st)) 100%Z = false /\
  dataRadiation (flags (self st)) = false /\
  exists st1,
    setMeteo field_a field_a field_a field_a field_a 100%Z st = Returned tt st1 /\
    steps_started (trace st1) = steps_started (trace st) /\
    steps_started
      (trace (final (setRadiationComponents (grid2D field_b) (grid2D field_b)
                                            (grid2D field_b) 0%Z 100%Z st1)))
    = S (steps_started (trace st)).
Proof.
  cbv zeta. split; [reflexivity|]. split; [reflexivity|]. split; [reflexivity|].
  destruct (@step_gating toy_mio toy_cells toy_ext
              (toy_state true false false healthy0 healthy1) 100%Z
              eq_refl eq_refl eq_refl
              (fun H => False_ind _ (Bool.diff_false_true H))
              (fun H => False_ind _ (Bool.diff_false_true H))) as [H _].
  destruct (H field_a field_a field_a field_a field_a
              (grid2D field_b) (grid2D field_b) (grid2D field_b) 0%Z)
    as (st1 & E & Hs & _ & _ & _ & _ & _ & Hone & _).
  exists st1. split; [exact E|]. split; [exact Hs | exact Hone].
Defined.

(** Every setter rejects the timestamp 99 when 100 is expected. *)
Lemma timing_mismatch_rejected_witness :
  let st := toy_state true false false healthy0 healthy1 in
  date_neq (nextStepTimestamp (self st)) 99%Z = true /\
  setMeteo field_a field_a field_a field_a field_a 99%Z st
  = Thrown (InvalidArgumentException Meteo)
           (mkState (self st) (trace st ++ timing_log Meteo 99%Z 100%Z)) /\
  assimilate field_a 99%Z st = Thrown (InvalidArgumentException Assimilation) st.
Proof.
  cbv zeta. split; [reflexivity|].
  destruct (@timing_mismatch_rejected toy_mio toy_cells toy_ext
              (toy_state true false false healthy0 healthy1) 99%Z eq_refl)
    as (H1 & _ & _ & H4).
  split; [apply H1 | apply H4].
Defined.

(** No energy balance attached and no radiation pushed: the meteo fields
    alone end in the no-data error. *)
Lemma radiation_is_mandatory_witness :
  let st := toy_waiting false true false healthy1 in
  dataMeteo2D (flags (self st)) = true /\
  dataRadiation (flags (self st)) = false /\
  calcNextStep st = Thrown NoDataException st.
Proof.
  cbv zeta. split; [reflexivity|]. split; [reflexivity|].
  apply (@radiation_is_mandatory toy_mio toy_cells toy_ext
           (toy_waiting false true false healthy1)); try reflexivity.
  repeat split; intros H; discriminate H.
Defined.



(** The snow heights of the two workers, side by side. *)
Lemma getGrid_aggregation_witness :
  let st := toy_state true false false healthy0 healthy1 in
  is_forcing_parameter HS = false /\
  exists o,
    getGrid HS st = Returned (allreduce_sum o) (mkState (self st) (trace st ++ queries (self st) HS)) /\
    cell (grid2D o) 0 0 = 1%Z /\ cell (grid2D o) 1 0 = 2%Z /\
    cell (grid2D o) 2 0 = 3%Z /\ cell (grid2D o) 3 0 = 0%Z.
Proof.
  cbv zeta. split; [reflexivity|].
  destruct (@getGrid_aggregation toy_mio toy_cells toy_ext HS
              (toy_state true false false healthy0 healthy1))
    as (o & E & _ & _ & _ & Hc & _).
  - reflexivity.
  - intros w [<- | [<- | []]]; reflexivity.
  - reflexivity.
  - reflexivity.
  - intros [|[|ii]] w H; [| |destruct ii; discriminate H];
      injection H as <-; cbv; repeat split; lia.
  - intros ii jj x Hii Hjj Hne. simpl in Hii, Hjj.
    assert (Hcase : (ii = 0 /\ jj = 1) \/ (ii = 1 /\ jj = 0)) by lia.
    unfold owns. destruct Hcase as [[-> ->] | [-> ->]]; simpl;
      rewrite in_window_true, in_window_false; lia.
  - exists o. split; [exact E|].
    pose proof (Hc 0 (toy_worker healthy0) 0 0 eq_refl) as H00.
    pose proof (Hc 0 (toy_worker healthy0) 1 0 eq_refl) as H10.
    pose proof (Hc 1 (toy_worker healthy1) 0 0 eq_refl) as H20.
    pose proof (Hc 1 (toy_worker healthy1) 1 0 eq_refl) as H30.
    simpl in H00, H10, H20, H30.
    repeat split; [apply H00 | apply H10 | apply H20 | apply H30]; lia.
Defined.

(** A parameter the workers do not have. *)
Lemma getGrid_unavailable_witness :
  let st := toy_state true false false healthy0 healthy1 in
  is_forcing_parameter (OTHER 3) = false /\
  grid_empty (worker_getGrid (toy_worker healthy0) (OTHER 3)) = true /\
  exists grid,
    getGrid (OTHER 3) st
    = Returned grid (mkState (self st)
                             ((trace st ++ queries (self st) (OTHER 3))
                                ++ [Cerr_not_available (OTHER 3)])) /\
    grid_empty grid = true /\
    getNx (grid2D grid) = 0 /\ getNy (grid2D grid) = 0 /\ vecData (grid2D grid) = [].
Proof.
  cbv zeta. split; [reflexivity|]. split; [reflexivity|].
  apply (@getGrid_unavailable toy_mio toy_cells toy_ext (OTHER 3)
           (toy_state true false false healthy0 healthy1) eq_refl).
  exists (toy_worker healthy0). split; [now left | reflexivity].
Defined.

(** C7, as stated, fails for TA when the katabatic flow of glaciers is
    enabled: setMeteo stores the corrected temperatures, and these are what
    getGrid returns, not the grid that was pushed. *)
Lemma ta_round_trip_counterexample :
  let st := toy_state true false true healthy0 healthy1 in
  let st' := final (setMeteo field_a field_a field_a field_a field_a 100%Z st) in
  date_neq (nextStepTimestamp (self st)) 100%Z = false /\
  setMeteo field_a field_a field_a field_a field_a 100%Z st = Returned tt st' /\
  getGrid TA st' = Returned (row [1; 2; 3; 0]%Z) st' /\
  getGrid TA st' <> Returned field_a st'.
Proof.
  cbv zeta. split; [reflexivity|]. split; [reflexivity|]. split; [reflexivity|].
  intros H. discriminate H.
Qed.

(** The fields pushed with the expected timestamp come back as they were. *)
Lemma forcing_round_trip_witness :
  let st := toy_state true false false healthy0 healthy1 in
  let st' := final (setMeteo field_a field_b field_a field_b field_a 100%Z st) in
  date_neq (nextStepTimestamp (self st)) 100%Z = false /\
  getGrid PSUM st' = Returned field_a st' /\
  getGrid PSUM_PH st' = Returned field_b st' /\
  getGrid TA st' = Returned field_a st'.
Proof.
  cbv zeta. split; [reflexivity|].
  destruct (proj1 (@forcing_round_trip toy_mio toy_cells toy_ext
                     (toy_state true false false healthy0 healthy1) 100%Z eq_refl)
                  field_a field_b field_a field_b field_a)
    as (H1 & H2 & _ & _ & H5).
  split; [exact H1|]. split; [exact H2 | exact H5].
Defined.

(** C9, as stated, fails: a grid of another size than the domain is accepted
    by assimilate, which ignores it, and stored by setRadiationComponents,
    which receives bare arrays and does not look at their size. *)
Lemma mismatched_grid_counterexample :
  let st := toy_state true false false healthy0 healthy1 in
  isSameGeolocalization stray (dem (setup (self st))) = false /\
  date_neq (nextStepTimestamp (self st)) 100%Z = false /\
  (exists st', assimilate stray 100%Z st = Returned tt st') /\
  (exists st', setRadiationComponents (grid2D stray) (grid2D stray) (grid2D stray)
                                      0%Z 100%Z st = Returned tt st' /\
               shortwave (forcing (self st')) = stray).
Proof.
  cbv zeta. split; [reflexivity|]. split; [reflexivity|].
  split; eexists; [| split]; reflexivity.
Qed.

(** setSnowMassChange refuses the stray grid. *)
Lemma geolocation_validated_witness :
  let st := toy_state true true false healthy0 healthy1 in
  date_neq (nextStepTimestamp (self st)) 100%Z = false /\
  isSameGeolocalization stray (dem (setup (self st))) = false /\
  setSnowMassChange stray 100%Z st = Thrown IndexOutOfBoundsException st /\
  forcing (self (final (assimilate stray 100%Z st))) = forcing (self st).
Proof.
  cbv zeta. split; [reflexivity|]. split; [reflexivity|].
  apply (@geolocation_validated toy_mio toy_cells toy_ext
           (toy_state true true false healthy0 healthy1) 100%Z stray eq_refl eq_refl).
Defined.

End Runs.

(** ** The further properties on the small configuration *)

Section MoreRuns.
Import Toy ToyFiles.
Local Open Scope string_scope.
#[local] Existing Instance toy_mio.
#[local] Existing Instance toy_cells.
#[local] Existing Instance toy_ext.
#[local] Existing Instance toy_switches.

(** hs, TA and Hs ask for the same grids as TA and HS. *)
Lemma uniqueOutputGrids_by_names_witness :
  (forall name, In name (map toy_toUpper ["hs"; "TA"; "Hs"]%string)
                <-> In name (map toy_toUpper ["TA"; "HS"]%string)) /\
  uniqueOutputGrids toy_toUpper ["hs"; "TA"; "Hs"]%string
  = uniqueOutputGrids toy_toUpper ["TA"; "HS"]%string.
Proof.
  assert (H : forall name, In name (map toy_toUpper ["hs"; "TA"; "Hs"]%string)
                           <-> In name (map toy_toUpper ["TA"; "HS"]%string)).
  { intros name. simpl. tauto. }
  split; [exact H|].
  exact (proj1 (@uniqueOutputGrids_by_names toy_toUpper
                  ["hs"; "TA"; "Hs"]%string ["TA"; "HS"]%string H)).
Defined.

(** A special point of a cold start whose own profile exists. *)
Lemma readSnowCover_accepts_witness :
  readSnowCover toy_profiles cold_start "cell" "landuse" "SMET" true
  = ([SnowCoverExists SmetIO "cell" "station"; ReadSnowCover SmetIO "cell" "station"]%string,
     Sno_read toy_profiles (mkSno 1 [@mkLayer toy_mio 50%Z])) /\
  exists name,
    filter is_read [SnowCoverExists SmetIO "cell" "station";
                    ReadSnowCover SmetIO "cell" "station"]%string
    = [ReadSnowCover (reader_of "SMET") name "station"%string] /\
    (name = "cell"%string \/ name = "landuse"%string).
Proof.
  split; [reflexivity|].
  destruct (@readSnowCover_accepts toy_mio toy_profiles cold_start "cell" "landuse" "SMET" true
              [SnowCoverExists SmetIO "cell" "station";
               ReadSnowCover SmetIO "cell" "station"]%string
              (mkSno 1 [@mkLayer toy_mio 50%Z]) eq_refl)
    as (name & H1 & _ & H3 & _).
  exists name. split; [exact H1 | exact H3].
Defined.

(** An ordinary cell of a cold start: the profile of the land use is too
    young. *)
Lemma readSnowCover_refuses_young_witness :
  reader_readSnowCover toy_profiles (reader_of "SMET")
    (chosen_profile toy_profiles cold_start "cell" "landuse" "SMET" false) "station"
  = inr (mkSno 1 [@mkLayer toy_mio 150%Z]) /\
  date_after toy_profiles 150%Z (start_date cold_start) = true /\
  snd (readSnowCover toy_profiles cold_start "cell" "landuse" "SMET" false)
  = Sno_IOException toy_profiles (young_layer_message cold_start "cell" "landuse").
Proof.
  split; [reflexivity|]. split; [reflexivity|].
  exact (proj1 (@readSnowCover_refuses_young toy_mio toy_profiles cold_start
                  "cell" "landuse" "SMET" false
                  (mkSno 1 [@mkLayer toy_mio 150%Z]) (@mkLayer toy_mio 150%Z) []
                  eq_refl (Nat.lt_0_succ 0) eq_refl eq_refl)).
Defined.

(** The worker of columns 2 and 3 receives the point (3,1) as (1,1). *)
Lemma constructor_points_of_worker_witness :
  Forall valid_size_t toy_pts /\
  exists sub,
    constructor_sub_pts toy_pts 2 2 = Some sub /\
    map (restore_point 2) sub = filter (in_columns 2 (2 + 2)) toy_pts.
Proof.
  assert (Hv : Forall valid_size_t toy_pts)
    by (repeat constructor; unfold valid_size_t; simpl; lia).
  split; [exact Hv|].
  assert (H0 : (0 <= 2)%Z) by lia.
  assert (H1 : (0 < 2)%Z) by lia.
  assert (H2 : (2 + 2 <= 2 ^ 64)%Z) by lia.
  destruct (@constructor_points_of_worker toy_pts 2 2 H0 H1 H2 Hv) as (sub & E & H & _).
  exists sub. split; [exact E | exact H].
Defined.

(** Two slices of two columns share the three points. *)
Lemma constructor_points_distribution_witness :
  tiles 0 toy_slices /\
  Permutation (flat_map (handed_over toy_pts) toy_slices)
              (filter (fun p => (fst p <? total_width toy_slices)%Z) toy_pts).
Proof.
  assert (Ht : tiles 0 toy_slices) by (cbn; repeat split; lia).
  split; [exact Ht|].
  apply (@constructor_points_distribution toy_pts toy_slices Ht).
  - cbn. lia.
  - repeat constructor; unfold valid_size_t; simpl; lia.
Defined.

(** Eight stations in two rows of four: the worker of columns 2 and 3. *)
Lemma constructor_stations_of_worker_witness :
  thread_stations (seq 0 8) 2 4 2 2 = [2; 3; 6; 7] /\
  length (thread_stations (seq 0 8) 2 4 2 2) = 2 * 2.
Proof.
  split; [reflexivity|].
  refine (proj1 (@constructor_stations_of_worker nat (seq 0 8) 2 4 2 2 _ _)).
  - lia.
  - simpl. lia.
Defined.

(** With no module attached the meteo fields end in the no-data error; once
    the energy balance is attached they are kept. *)
Lemma energy_balance_makes_meteo_wait_witness :
  let st := toy_state false false false healthy0 healthy1 in
  date_neq (nextStepTimestamp (self st)) 100%Z = false /\
  dataRadiation (flags (self st)) = false /\
  (exists st', setMeteo field_a field_a field_a field_a field_a 100%Z st
               = Thrown NoDataException st') /\
  exists st1 st2,
    setEnergyBalance st = Returned tt st1 /\
    setMeteo field_a field_a field_a field_a field_a 100%Z st1 = Returned tt st2.
Proof.
  cbv zeta. split; [reflexivity|]. split; [reflexivity|].
  destruct (@energy_balance_makes_meteo_wait toy_mio toy_cells toy_ext toy_switches
              (toy_state false false false healthy0 healthy1) 100%Z
              field_a field_a field_a field_a field_a eq_refl eq_refl)
    as [(st1 & alb & E & _ & _ & _ & _ & st2 & E2 & _) Hthrown].
  split; [exact (Hthrown eq_refl eq_refl eq_refl)|].
  exists st1, st2. split; [exact E | exact E2].
Defined.

(** Meteo and radiation are in, the step runs when the assimilation
    arrives. *)
Lemma data_assimilation_is_awaited_witness :
  let st := toy_state true false false healthy0 healthy1 in
  date_neq (nextStepTimestamp (self st)) 100%Z = false /\
  dataDa (flags (self st)) = false /\
  exists st0 st1 st2,
    setDataAssimilation st = Returned tt st0 /\
    setMeteo field_a field_a field_a field_a field_a 100%Z st0 = Returned tt st1 /\
    setRadiationComponents (grid2D field_b) (grid2D field_b) (grid2D field_b) 0%Z 100%Z st1
    = Returned tt st2 /\
    steps_started (trace st2) = 0 /\
    steps_started (trace (final (assimilate field_a 100%Z st2))) = 1.
Proof.
  cbv zeta. split; [reflexivity|]. split; [reflexivity|].
  destruct (@data_assimilation_is_awaited toy_mio toy_cells toy_ext
              (toy_state true false false healthy0 healthy1) 100%Z
              field_a field_a field_a field_a field_a field_a
              (grid2D field_b) (grid2D field_b) (grid2D field_b) 0%Z
              eq_refl eq_refl (fun H => False_ind _ (Bool.diff_false_true H)))
    as (st0 & st1 & st2 & E0 & _ & E1 & E2 & Hs & _ & Hone).
  exists st0, st1, st2. auto.
Defined.

(** Meteo and radiation are in, the step runs when the snow drift
    arrives. *)
Lemma snow_drift_is_awaited_witness :
  let st := toy_state true false false healthy0 healthy1 in
  date_neq (nextStepTimestamp (self st)) 100%Z = false /\
  dataSnowDrift (flags (self st)) = false /\
  exists st0 st1 st2,
    setSnowDrift st = Returned tt st0 /\
    setMeteo field_a field_a field_a field_a field_a 100%Z st0 = Returned tt st1 /\
    setRadiationComponents (grid2D field_b) (grid2D field_b) (grid2D field_b) 0%Z 100%Z st1
    = Returned tt st2 /\
    steps_started (trace (final (setSnowMassChange field_a 100%Z st2))) = 1.
Proof.
  cbv zeta. split; [reflexivity|]. split; [reflexivity|].
  destruct (@snow_drift_is_awaited toy_mio toy_cells toy_ext toy_switches
              (toy_state true false false healthy0 healthy1) 100%Z
              field_a field_a field_a field_a field_a field_a
              (grid2D field_b) (grid2D field_b) (grid2D field_b) 0%Z
              eq_refl eq_refl (fun H => False_ind _ (Bool.diff_false_true H)))
    as (st0 & st1 & st2 & E0 & _ & _ & E1 & E2 & _ & Hone).
  exists st0, st1, st2. split; [exact E0|]. split; [exact E1|]. split; [exact E2|].
  exact Hone.
Defined.

(** No energy balance: meteo first throws, radiation then runs the step. *)
Lemma meteo_radiation_order_witness :
  let st := toy_state false false false healthy0 healthy1 in
  eb (setup (self st)) = false /\
  dataMeteo2D (flags (self st)) = false /\
  dataRadiation (flags (self st)) = false /\
  exists st1,
    setMeteo field_a field_a field_a field_a field_a 100%Z st
    = Thrown NoDataException st1 /\
    steps_started
      (trace (final (setRadiationComponents (grid2D field_b) (grid2D field_b)
                                            (grid2D field_b) 0%Z 100%Z st1))) = 1.
Proof.
  cbv zeta. split; [reflexivity|]. split; [reflexivity|]. split; [reflexivity|].
  destruct (@meteo_radiation_order toy_mio toy_cells toy_ext
              (toy_state false false false healthy0 healthy1) 100%Z
              field_a field_a field_a field_a field_a
              (grid2D field_b) (grid2D field_b) (grid2D field_b) 0%Z
              eq_refl eq_refl
              (fun H => False_ind _ (Bool.diff_false_true H))
              (fun H => False_ind _ (Bool.diff_false_true H))
              eq_refl eq_refl)
    as [(st1 & E & _ & _ & _ & _ & Hone) _].
  exists st1. split; [exact E | exact Hone].
Defined.

(** A soil temperature depth is configured and the point has no soil
    temperature: the line is shorter than the header. *)
Lemma smet_columns_witness :
  let m := toy_members "/out" 5%Z in
  validFileAndPath toy_world (smet_filename m toy_station) = true /\
  open_fails toy_world (smet_filename m toy_station) = false /\
  length (smet_fields toy_world m) = 15 /\
  length (smet_values toy_world m (toy_meteo []) toy_station toy_fluxes) = 14 /\
  (length (smet_fields toy_world m)
   = length (smet_values toy_world m (toy_meteo []) toy_station toy_fluxes)
   <-> true = false).
Proof.
  cbv zeta. split; [reflexivity|]. split; [reflexivity|].
  split; [reflexivity|]. split; [reflexivity|].
  exact (proj2 (proj2 (@smet_columns toy_mio toy_world (toy_members "/out" 5%Z) toy_station
                         0%Z (toy_meteo []) toy_fluxes eq_refl eq_refl))).
Defined.

(** The directory is refused: neither function writes. *)
Lemma smet_refusals_witness :
  let m := toy_members "/forbidden" 5%Z in
  validFileAndPath toy_world (smet_filename m toy_station) = false /\
  write_SMET_header toy_world m toy_station 0%Z
  = write_SMET toy_world m (toy_meteo []) toy_station toy_fluxes.
Proof.
  cbv zeta. split; [reflexivity|].
  exact (proj1 (@smet_refusals toy_mio toy_world (toy_members "/forbidden" 5%Z) toy_station
                  0%Z (toy_meteo []) toy_fluxes eq_refl)).
Defined.

(** The same three cells, in two orders, one with a duplicate. *)
Lemma prepare_pts_by_cells_witness :
  fst (Poi.prepare_pts true [Poi.mkCoords 3 1; Poi.mkCoords 1 1; Poi.mkCoords 1 0;
                             Poi.mkCoords 1 1])
  = fst (Poi.prepare_pts false [Poi.mkCoords 1 0; Poi.mkCoords 3 1; Poi.mkCoords 1 1]).
Proof.
  apply (@prepare_pts_by_cells true false).
  - intros c Hc. unfold Poi.valid_index.
    simpl in Hc. destruct Hc as [<- | [<- | [<- | [<- | []]]]]; simpl; lia.
  - intros c Hc. unfold Poi.valid_index.
    simpl in Hc. destruct Hc as [<- | [<- | [<- | []]]]; simpl; lia.
  - intros p. simpl. tauto.
Defined.

(** The columns -1 and -2 of row 0. *)
Lemma prepare_pts_negative_indices_witness :
  Poi.pts_less ((2 ^ 64 + -1)%Z, 0%Z) ((2 ^ 64 + -2)%Z, 0%Z) = false /\
  Poi.pts_less ((2 ^ 64 + -2)%Z, 0%Z) ((2 ^ 64 + -1)%Z, 0%Z) = false.
Proof.
  assert (Hi : (-1024 <= -1 <= -1)%Z) by lia.
  assert (Hi' : (-1024 <= -2 <= -1)%Z) by lia.
  assert (Hne : (-1)%Z <> (-2)%Z) by discriminate.
  assert (Hj : Poi.valid_index 0) by (unfold Poi.valid_index; lia).
  destruct (@prepare_pts_negative_indices true (-1) (-2) 0 Hi Hi' Hne Hj)
    as (_ & _ & H1 & H2 & _).
  split; [exact H1 | exact H2].
Defined.

(** The second cell has a profile younger than the start date: the caller
    is told that the snow files cannot be read. *)
Lemma readInitalSnowCover_first_failure_witness :
  mpi_master || true = true /\
  snd (toy_initial old_then_young) = inl (Init_IOException "Can not read snow files").
Proof.
  split; [reflexivity|].
  pose proof (@readInitalSnowCover_first_failure toy_mio toy_cells toy_ext
                toy_landuse_profiles (toy_init old_then_young) toy_world toy_experiment
                (toy_members "/out" 5%Z) toy_pts 2 1 true eq_refl) as H.
  exact (proj1 H).
Defined.

(** The first cell is skipped, the second is read: two stations, the first
    one NULL. *)
Lemma readInitalSnowCover_layout_witness :
  toy_initial skipped_then_old
  = (fst (toy_initial skipped_then_old), inr (stations_of skipped_then_old)) /\
  length (stations_of skipped_then_old) = 1 * 2 /\
  nth_error (stations_of skipped_then_old) 0 = Some None.
Proof.
  split; [reflexivity|].
  split; [|reflexivity].
  assert (Hown : @own_process toy_mio toy_cells toy_ext true < mpi_size)
    by (cbv; lia).
  exact (proj1 (@readInitalSnowCover_layout toy_mio toy_cells toy_ext
                  toy_landuse_profiles (toy_init skipped_then_old) toy_world toy_experiment
                  (toy_members "/out" 5%Z) toy_pts 2 1 true
                  (fst (toy_initial skipped_then_old)) (stations_of skipped_then_old)
                  eq_refl Hown eq_refl)).
Defined.

(** Under local I/O nothing is sent. *)
Lemma readInitalSnowCover_distribution_witness :
  toy_initial skipped_then_old
  = (fst (toy_initial skipped_then_old), inr (stations_of skipped_then_old)) /\
  exists sent,
    filter is_Send_stations (fst (toy_initial skipped_then_old))
    = map (fun to_stations => Send_stations (fst to_stations) (snd to_stations)) sent /\
    map fst sent = [].
Proof.
  split; [reflexivity|].
  destruct (@readInitalSnowCover_distribution toy_mio toy_cells toy_ext
              toy_landuse_profiles (toy_init skipped_then_old) toy_world toy_experiment
              (toy_members "/out" 5%Z) toy_pts 2 1 true
              (fst (toy_initial skipped_then_old)) (stations_of skipped_then_old)
              eq_refl eq_refl) as (sent & H1 & H2 & _).
  exists sent. split; [exact H1 | exact H2].
Defined.

(** The radiation completes the data of the step at 100; the same call
    again is for a timestamp that is no longer expected. *)
Lemma completed_step_rejects_replay_witness :
  let st := toy_waiting true true false healthy1 in
  let c := Call_setRadiationComponents (grid2D field_b) (grid2D field_b) (grid2D field_b)
                                       0%Z 100%Z in
  perform c st = Returned tt (final (perform c st)) /\
  nextStepTimestamp (self (final (perform c st))) = 101%Z /\
  exists st'',
    perform c (final (perform c st)) = Thrown (InvalidArgumentException Radiation) st''.
Proof.
  cbv zeta.
  set (st := toy_waiting true true false healthy1).
  set (c := Call_setRadiationComponents (grid2D field_b) (grid2D field_b) (grid2D field_b)
                                        0%Z 100%Z).
  assert (E : perform c st = Returned tt (final (perform c st)))
    by (vm_compute; reflexivity).
  assert (Hstep : steps_started (trace (final (perform c st))) <> steps_started (trace st))
    by (vm_compute; discriminate).
  split; [exact E|].
  destruct (@completed_step_rejects_replay toy_mio toy_cells toy_ext c c st
              (final (perform c st)) E Hstep eq_refl)
    as (Hn & _ & st'' & Hthrown & _).
  split; [exact Hn|]. exists st''. exact Hthrown.
Defined.

End MoreRuns.
